(** * OllamaSummarizer: request interpretation and location resolution

    A shallow embedding of the decision logic of the weather summarizer:
    - [decoderService.py]: [GeocodingService._is_coordinate_pair],
      [_geocode_nominatim] and [get_coordinates];
    - [main.py]: [ApiRequest.send_request],
      [WeatherApiRequest.get_weather_data], [LLMHandler.generate_response]
      and of [WeatherSummarizer]: [greet_user], [parse_user_request],
      [_extract_json], [get_coordinates], [summarize_weather_data],
      [display_summary], [_clean_markdown] and [run].

    Python [str] values are lists of Unicode code points and [float]
    values are binary64 numbers.  Calls that leave the process (chat
    model, HTTP, console input) are nodes of a program tree, which a
    [world] answers; exceptions are explicit.  The Unicode tables,
    [float], [str.lower], [json.loads], [json.dumps] and the texts of
    exceptions are a parameter, the class [PyLib].

    Console output is modelled by its failure only: the console is taken
    to be UTF-8 with the strict error handler, Python's default, so that
    [print] raises [UnicodeEncodeError] exactly on a text with a surrogate
    code point, and what is printed is not recorded.  The user is taken to
    answer the prompt, and the process not to be interrupted.

    The file has the definitions first, then an instance of the library
    over ASCII, then the properties. *)

From Stdlib Require Import ZArith NArith List Bool Lia String Ascii.
From Stdlib Require Import Floats.SpecFloat.
From stdpp Require Import base option list gmap.

Import ListNotations.
Local Open Scope Z_scope.

(** ** Python strings *)

Definition char := N.
Abbreviation str := (list char).

(** A literal of the source, given as an ASCII string. *)
Definition lit (x : string) : str :=
  List.map N_of_ascii (list_ascii_of_string x).

(** The same, for literals that contain double quotes: every single quote
    of [x] stands for a double quote (U+0022). *)
Definition lit_dq (x : string) : str :=
  List.map (fun c => if N.eqb c 39 then 34%N else c) (lit x).

Definition str_eqb (a b : str) : bool := bool_decide (a = b).

(** [str.isspace] on one code point, which is also what [\s] matches in a
    [str] pattern: the code points of bidirectional type WS, B or S and of
    category Zs. *)
Definition is_space (c : char) : bool :=
  ((9 <=? c) && (c <=? 13) || (28 <=? c) && (c <=? 32) ||
   (c =? 133) || (c =? 160) || (c =? 5760) ||
   (8192 <=? c) && (c <=? 8202) || (c =? 8232) || (c =? 8233) ||
   (c =? 8239) || (c =? 8287) || (c =? 12288))%N.

Fixpoint lstrip (s : str) : str :=
  match s with
  | c :: t => if is_space c then lstrip t else s
  | [] => []
  end.

Definition rstrip (s : str) : str := rev (lstrip (rev s)).

(** [s.strip()] *)
Definition strip (s : str) : str := rstrip (lstrip s).

(** [s.replace(c, '')] for a one-character [c] *)
Definition remove_char (c : char) (s : str) : str :=
  List.filter (fun x => negb (N.eqb x c)) s.

(** [s.startswith(p)] *)
Fixpoint starts_with (p s : str) : bool :=
  match p, s with
  | [], _ => true
  | _ :: _, [] => false
  | a :: p', b :: s' => N.eqb a b && starts_with p' s'
  end.

(** Least offset at which [sub] occurs in [s], counted from [i]; [-1] if
    there is none. *)
Fixpoint find_from (sub s : str) (i : Z) : Z :=
  if starts_with sub s then i
  else match s with
       | [] => -1
       | _ :: t => find_from sub t (i + 1)
       end.

(** Greatest such offset. *)
Fixpoint rfind_from (sub s : str) (i : Z) : Z :=
  match s with
  | [] => if starts_with sub [] then i else -1
  | _ :: t =>
      let r := rfind_from sub t (i + 1) in
      if 0 <=? r then r else if starts_with sub s then i else -1
  end.

(** A slice bound as Python normalises it: a negative index counts from
    the end, and the result is clamped to [0, len]. *)
Definition slice_index (len i : Z) : Z :=
  if i <? 0 then Z.max 0 (i + len) else Z.min i len.

(** [s[a:b]] *)
Definition slice (s : str) (a b : Z) : str :=
  let n := Z.of_nat (length s) in
  let a' := slice_index n a in
  let b' := slice_index n b in
  take (Z.to_nat (b' - a')) (drop (Z.to_nat a') s).

(** [s.find(sub, start)] *)
Definition find (s sub : str) (start : Z) : Z :=
  let n := Z.of_nat (length s) in
  let st := if start <? 0 then Z.max 0 (start + n) else start in
  if n <? st then -1 else find_from sub (drop (Z.to_nat st) s) st.

(** [s.rfind(sub)] *)
Definition rfind (s sub : str) : Z := rfind_from sub s 0.

(** [sub in s] *)
Definition contains (sub s : str) : bool := 0 <=? find s sub 0.

Definition nl : str := [10%N].

(** [s.replace(old, new)] for a non-empty [old]: the occurrences are taken
    from the left and do not overlap; [skip] counts the characters of a
    replaced occurrence still to pass over. *)
Fixpoint replace_skip (old new : str) (skip : nat) (s : str) : str :=
  match s with
  | [] => []
  | c :: t =>
      match skip with
      | S k => replace_skip old new k t
      | O =>
          if starts_with old s
          then new ++ replace_skip old new (length old - 1) t
          else c :: replace_skip old new 0 t
      end
  end.

Definition replace (old new s : str) : str := replace_skip old new 0 s.

(** ** Floats

    A Python [float] is an IEEE-754 binary64 number, here in the
    specification format of the Standard Library. *)

Abbreviation float := spec_float.

(** The binary64 number nearest to [m / 10^k] (ties to even), with the
    sign [neg]: what [float] makes of a decimal numeral and what a decimal
    literal of the source denotes. *)
Definition float_of_decimal (neg : bool) (m : Z) (k : nat) : float :=
  match m with
  | Z0 => S754_zero neg
  | Zpos p =>
      SFdiv 53 1024 (S754_finite neg p 0)
            (S754_finite false (Z.to_pos (10 ^ Z.of_nat k)) 0)
  | Zneg _ => S754_nan
  end.

(** A decimal literal of the source: [decimal_literal 515074 4] is
    [51.5074], [decimal_literal (-1278) 4] is [-0.1278]. *)
Definition decimal_literal (m : Z) (k : nat) : float :=
  float_of_decimal (m <? 0) (Z.abs m) k.

(** [float(z)] for an [int] that is not too large, and the [int] operand
    of a comparison with a [float]. *)
Definition float_of_Z (z : Z) : float := binary_normalize 53 1024 z 0 false.

(** [a <= b] *)
Definition float_le (a b : float) : bool := SFleb a b.

(** ** Decimal numerals *)

Definition minus_sign : char := 45%N.
Definition period : char := 46%N.
Definition comma : char := 44%N.
Definition lparen : char := 40%N.
Definition rparen : char := 41%N.

(** The ASCII digits. *)
Definition ascii_decimal (c : char) : option N :=
  if ((48 <=? c) && (c <=? 57))%N then Some (c - 48)%N else None.

Section Decimal.
(** The decimal digit value of a code point of category Nd. *)
Variable decimal : char -> option N.

(** What [\d] matches in a [str] pattern. *)
Definition is_digit (c : char) : bool :=
  match decimal c with Some _ => true | None => false end.

Definition digit_value (c : char) : Z :=
  match decimal c with Some d => Z.of_N d | None => 0 end.

Definition digits_value (ds : str) : Z :=
  fold_left (fun acc c => 10 * acc + digit_value c) ds 0.

(** Longest prefix of characters in a class, and the rest. *)
Fixpoint span (p : char -> bool) (s : str) : str * str :=
  match s with
  | c :: t => if p c then let '(a, b) := span p t in (c :: a, b) else ([], s)
  | [] => ([], [])
  end.

(** The value of a text of the form sign, digits, point, digits. *)
Definition numeral_value (text : str) : float :=
  let '(neg, body) :=
    match text with
    | c :: t => if N.eqb c minus_sign then (true, t) else (false, text)
    | [] => (false, [])
    end in
  let '(int_part, rest) := span is_digit body in
  let frac_part :=
    match rest with
    | c :: t => if N.eqb c period then t else []
    | [] => []
    end in
  float_of_decimal neg (digits_value (int_part ++ frac_part))
                   (length frac_part).

(** "optional-sign digits optional-decimal": an optional minus sign, one
    or more digits and, optionally, a point followed by digits (possibly
    none, as the pattern has it). *)
Definition numeral (text : str) : Prop :=
  exists sign int_part frac,
    text = sign ++ int_part ++ frac /\
    (sign = [] \/ sign = [minus_sign]) /\
    int_part <> [] /\ forallb is_digit int_part = true /\
    (frac = [] \/
     exists frac_part, frac = period :: frac_part /\
                       forallb is_digit frac_part = true).
End Decimal.

(** ** Python values, exceptions and programs *)

#[warnings="-register-all"]
Inductive pyval :=
| VNone
| VBool (b : bool)
| VInt (z : Z)
| VFloat (f : float)
| VStr (s : str)
| VList (l : list pyval)
| VDict (d : gmap str pyval).

(** The exceptions that occur: built-in ones ([UnicodeEncodeError] is a
    [ValueError]), [json.JSONDecodeError], the exceptions of [requests]
    (its [JSONDecodeError] is also a [json.JSONDecodeError]), and a bare
    [Exception]. *)
Inductive exn :=
| ValueError | TypeError | KeyError | IndexError | AttributeError
| OverflowError | RecursionError | UnicodeEncodeError | JSONDecodeError
| RequestException | HTTPError | RequestsJSONDecodeError
| Exception_.

(** What an HTTP GET comes back with: no response at all (connection
    error, timeout), or a status code and a body. *)
Inductive http_reply :=
| NoResponse
| Response (status : N) (body : str).

(** A computation that may raise and may call the outside world:
    [HttpGet] is an HTTP GET with query parameters ([session.get],
    [requests.get]), [Chat] is [llm_handler.generate_response(messages)],
    which never raises and returns the content of the model's message,
    a text or any other value, [Input] is [input(prompt)]. *)
Inductive prog (A : Type) : Type :=
| Ret (a : A)
| Raise (e : exn)
| HttpGet (url : str) (params : list (str * pyval)) (k : http_reply -> prog A)
| Chat (messages : list (str * str)) (k : pyval -> prog A)
| Input (prompt : str) (k : str -> prog A).

Arguments Ret {A} a.
Arguments Raise {A} e.
Arguments HttpGet {A} url params k.
Arguments Chat {A} messages k.
Arguments Input {A} prompt k.

Fixpoint bind {A B} (p : prog A) (f : A -> prog B) : prog B :=
  match p with
  | Ret a => f a
  | Raise e => Raise e
  | HttpGet u ps k => HttpGet u ps (fun r => bind (k r) f)
  | Chat m k => Chat m (fun r => bind (k r) f)
  | Input pr k => Input pr (fun r => bind (k r) f)
  end.

Notation "x <- p ;; q" := (bind p (fun x => q))
  (at level 100, p at next level, right associativity).

(** [try: p except (the exceptions in catch): h] *)
Fixpoint try_except {A} (p : prog A) (catch : exn -> bool) (h : prog A)
  : prog A :=
  match p with
  | Ret a => Ret a
  | Raise e => if catch e then h else Raise e
  | HttpGet u ps k => HttpGet u ps (fun r => try_except (k r) catch h)
  | Chat m k => Chat m (fun r => try_except (k r) catch h)
  | Input pr k => Input pr (fun r => try_except (k r) catch h)
  end.

(** [except Exception] *)
Definition any_exception (e : exn) : bool := true.

(** [except ValueError], with its subclasses *)
Definition is_ValueError (e : exn) : bool :=
  match e with
  | ValueError | UnicodeEncodeError | JSONDecodeError
  | RequestsJSONDecodeError => true
  | _ => false
  end.

(** [except json.JSONDecodeError] *)
Definition is_JSONDecodeError (e : exn) : bool :=
  match e with
  | JSONDecodeError | RequestsJSONDecodeError => true
  | _ => false
  end.

(** [except requests.exceptions.RequestException] *)
Definition is_RequestException (e : exn) : bool :=
  match e with
  | RequestException | HTTPError | RequestsJSONDecodeError => true
  | _ => false
  end.

(** The outside world: the answers of the network, of the chat model and
    of the user. *)
Record world := {
  http_get : str -> list (str * pyval) -> http_reply;
  generate_response : list (str * str) -> pyval;
  input : str -> str
}.

Inductive call :=
| HttpCall (url : str) (params : list (str * pyval))
| ChatCall (messages : list (str * str))
| InputCall (prompt : str).

(** Running a program in a world: the calls made, in order, and the
    outcome. *)
Fixpoint exec {A} (w : world) (p : prog A) : list call * (exn + A) :=
  match p with
  | Ret a => ([], inr a)
  | Raise e => ([], inl e)
  | HttpGet u ps k =>
      let '(calls, r) := exec w (k (http_get w u ps)) in
      (HttpCall u ps :: calls, r)
  | Chat m k =>
      let '(calls, r) := exec w (k (generate_response w m)) in
      (ChatCall m :: calls, r)
  | Input pr k =>
      let '(calls, r) := exec w (k (input w pr)) in
      (InputCall pr :: calls, r)
  end.

Definition calls {A} (w : world) (p : prog A) : list call := fst (exec w p).
Definition result {A} (w : world) (p : prog A) : exn + A := snd (exec w p).

(** Programs that make no call. *)
Definition silent {A} (p : prog A) : Prop :=
  match p with
  | Ret _ | Raise _ => True
  | _ => False
  end.

Definition is_http (c : call) : bool :=
  match c with HttpCall _ _ => true | _ => false end.

(** UTF-8 has no encoding for the surrogate code points. *)
Definition is_surrogate (c : char) : bool := ((55296 <=? c) && (c <=? 57343))%N.

Definition utf8_encodable (s : str) : bool :=
  forallb (fun c => negb (is_surrogate c)) s.

(** [print(s)] on a UTF-8 console. *)
Definition py_print (s : str) : prog unit :=
  if utf8_encodable s then Ret tt else Raise UnicodeEncodeError.

(** Whether [requests] can write a query parameter into the URL.  A text
    is encoded as UTF-8; of a list, every item is written, a text as it
    is, a list or an object item by item (or key by key), anything else
    as [str] gives it; of an object, the keys are written. *)
Definition text_sendable (v : pyval) : bool :=
  match v with
  | VStr s => utf8_encodable s
  | _ => true
  end.

Definition item_sendable (v : pyval) : bool :=
  match v with
  | VStr s => utf8_encodable s
  | VList l => forallb text_sendable l
  | VDict d => forallb utf8_encodable (List.map fst (map_to_list d))
  | _ => true
  end.

Definition param_sendable (v : pyval) : bool :=
  match v with
  | VStr s => utf8_encodable s
  | VList l => forallb item_sendable l
  | VDict d => forallb utf8_encodable (List.map fst (map_to_list d))
  | _ => true
  end.

Definition sendable (params : list (str * pyval)) : bool :=
  forallb (fun kv => utf8_encodable (fst kv) && param_sendable (snd kv)) params.

(** [bool(v)] *)
Definition truthy (v : pyval) : bool :=
  match v with
  | VNone => false
  | VBool b => b
  | VInt z => negb (z =? 0)
  | VFloat f => negb (SFeqb f (S754_zero false))
  | VStr s => negb (Nat.eqb (length s) 0)
  | VList l => negb (Nat.eqb (length l) 0)
  | VDict d => negb (Nat.eqb (size d) 0)
  end.

(** [v[0]] *)
Definition getitem_0 (v : pyval) : prog pyval :=
  match v with
  | VList (x :: _) => Ret x
  | VList [] => Raise IndexError
  | VStr (c :: _) => Ret (VStr [c])
  | VStr [] => Raise IndexError
  | VDict _ => Raise KeyError
  | _ => Raise TypeError
  end.

(** [v[key]] for a [str] key *)
Definition getitem_str (v : pyval) (key : str) : prog pyval :=
  match v with
  | VDict d => match d !! key with Some x => Ret x | None => Raise KeyError end
  | _ => Raise TypeError
  end.

(** [d.get(key)] and [d.get(key, default)] *)
Definition dict_get (d : gmap str pyval) (key : str) (default : pyval) : pyval :=
  match d !! key with Some x => x | None => default end.

(** [v.get(key, default)] on any value: only a [dict] has the method *)
Definition py_get (v : pyval) (key : str) (default : pyval) : prog pyval :=
  match v with
  | VDict d => Ret (dict_get d key default)
  | _ => Raise AttributeError
  end.

(** [try: p except (the exceptions in catch) as e: h e] *)
Fixpoint try_except_as {A} (p : prog A) (catch : exn -> bool)
         (h : exn -> prog A) : prog A :=
  match p with
  | Ret a => Ret a
  | Raise e => if catch e then h e else Raise e
  | HttpGet u ps k => HttpGet u ps (fun r => try_except_as (k r) catch h)
  | Chat m k => Chat m (fun r => try_except_as (k r) catch h)
  | Input pr k => Input pr (fun r => try_except_as (k r) catch h)
  end.

(** ** The Python library

    The parts of the runtime that are large tables or parsers are taken as
    given, with the facts about them that the program relies on. *)
Class PyLib := {
  (** [unicodedata.decimal]: the digit value of the code points [\d]
      matches *)
  unicode_decimal : char -> option N;
  (** [float(s)] for a [str]; [None] is [ValueError] *)
  py_float : str -> option float;
  (** [s.lower()] *)
  py_lower : str -> str;
  (** [json.loads(s)]: the value, or the exception raised, which is
      [json.JSONDecodeError] for a text that is not JSON *)
  json_loads : str -> exn + pyval;
  (** [str(f)] for a [float], as an f-string formats it *)
  float_str : float -> str;
  (** [str(e)] for an exception, as an f-string formats it; the text is
      taken to depend on the class of the exception only *)
  exn_str : exn -> str;
  (** [format(v)] for any value in an f-string, and
      [json.dumps(v, indent=2)]: the text, or the exception raised *)
  py_format : pyval -> exn + str;
  json_dumps : pyval -> exn + str;

  (** decimal digits are neither whitespace nor commas *)
  decimal_solid c d :
    unicode_decimal c = Some d -> is_space c = false /\ c <> comma;
  (** in ASCII, the decimal digits are "0" to "9" *)
  decimal_ascii c :
    (c <? 128)%N = true -> unicode_decimal c = ascii_decimal c;
  (** [float] reads a decimal numeral as the nearest binary64 number *)
  float_numeral t :
    numeral unicode_decimal t ->
    py_float t = Some (numeral_value unicode_decimal t);
  (** [lower] on ASCII text *)
  lower_ascii s :
    forallb (fun c => c <? 128)%N s = true ->
    py_lower s =
    List.map (fun c => if (65 <=? c)%N && (c <=? 90)%N then (c + 32)%N else c) s;
  (** the text of an exception holds no surrogate: it is made of ASCII
      templates, of decoded bytes and of the [repr] of the data, which
      writes a surrogate as an escape *)
  exn_str_encodable e : utf8_encodable (exn_str e) = true
}.

(** [float(v)] *)
Definition float_of `{PyLib} (v : pyval) : prog float :=
  match v with
  | VStr s => match py_float s with Some f => Ret f | None => Raise ValueError end
  | VFloat f => Ret f
  | VInt z =>
      match float_of_Z z with
      | S754_infinity _ => Raise OverflowError
      | f => Ret f
      end
  | VBool b => Ret (float_of_Z (if b then 1 else 0))
  | _ => Raise TypeError
  end.

(** [response.raise_for_status()] *)
Definition raise_for_status (status : N) : prog unit :=
  if ((400 <=? status) && (status <? 600))%N then Raise HTTPError else Ret tt.

(** [json.loads(s)] *)
Definition loads `{PyLib} (s : str) : prog pyval :=
  match json_loads s with
  | inr v => Ret v
  | inl e => Raise e
  end.

(** [response.json()]: [requests] raises its own exception for a body that
    is not JSON *)
Definition response_json `{PyLib} (body : str) : prog pyval :=
  match json_loads body with
  | inr v => Ret v
  | inl e => Raise (if is_JSONDecodeError e then RequestsJSONDecodeError else e)
  end.

(** [response = get(url, params); response.raise_for_status();
    response.json()]: a request whose parameters cannot be encoded is not
    sent, [requests] raises [UnicodeEncodeError] while it prepares it *)
Definition get_json `{PyLib} (url : str) (params : list (str * pyval))
  : prog pyval :=
  if sendable params then
    HttpGet url params
      (fun reply =>
         match reply with
         | NoResponse => Raise RequestException
         | Response status body =>
             _ <- raise_for_status status;;
             response_json body
         end)
  else Raise UnicodeEncodeError.

(** ** Regular expressions

    The fragment of [re] that [coord_pattern] uses: a sequence of
    character classes with greedy quantifiers, group parentheses and the
    two anchors, matched by backtracking from the longest repetition
    down. *)
Inductive quantifier := Once | Optional | ZeroOrMore | OneOrMore.

Inductive node :=
| Chars (p : char -> bool) (q : quantifier)
| GroupOpen
| GroupClose
| Caret
| Dollar.

Definition least (q : quantifier) : nat :=
  match q with Once | OneOrMore => 1 | Optional | ZeroOrMore => 0 end.

Definition most (q : quantifier) (available : nat) : nat :=
  match q with
  | Once | Optional => Nat.min 1 available
  | ZeroOrMore | OneOrMore => available
  end.

(** Number of leading characters of [s] in the class [p]. *)
Fixpoint run_length (p : char -> bool) (s : str) : nat :=
  match s with
  | c :: t => if p c then S (run_length p t) else 0
  | [] => 0
  end.

(** First success of [f k], [f (k-1)], ..., [f lo]. *)
Fixpoint backtrack {A} (f : nat -> option A) (lo k : nat) : option A :=
  if (k <? lo)%nat then None
  else match f k with
       | Some r => Some r
       | None => match k with
                 | O => None
                 | S k' => backtrack f lo k'
                 end
       end.

(** [$] without [re.MULTILINE]: at the end, or before a final newline. *)
Definition at_dollar (rest : str) : bool :=
  match rest with
  | [] => true
  | [c] => N.eqb c 10
  | _ => false
  end.

(** Match [pat] against [rest], the subject from offset [pos] on;
    [opened] holds the offsets of the groups entered and not yet left,
    [groups] the spans of the groups completed, last first. *)
Fixpoint match_here (pat : list node) (pos : nat) (rest : str)
         (opened : list nat) (groups : list (nat * nat))
  : option (list (nat * nat)) :=
  match pat with
  | [] => Some (rev groups)
  | Caret :: pat' =>
      if Nat.eqb pos 0 then match_here pat' pos rest opened groups else None
  | Dollar :: pat' =>
      if at_dollar rest then match_here pat' pos rest opened groups else None
  | GroupOpen :: pat' => match_here pat' pos rest (pos :: opened) groups
  | GroupClose :: pat' =>
      match opened with
      | o :: os => match_here pat' pos rest os ((o, pos) :: groups)
      | [] => None
      end
  | Chars p q :: pat' =>
      backtrack
        (fun k => match_here pat' (pos + k) (drop k rest) opened groups)
        (least q) (most q (run_length p rest))
  end.

(** [re.match(pat, s)]: the texts of the groups, or [None]. *)
Definition re_match (pat : list node) (s : str) : option (list str) :=
  match match_here pat 0 s [] [] with
  | Some spans =>
      Some (List.map (fun '(a, b) => take (b - a) (drop a s)) spans)
  | None => None
  end.

(** ** decoderService.py *)

Module GeocodingService.
Section WithLibrary.
Context `{PyLib}.

(** The character classes of the coordinate pattern. *)
Definition digit : char -> bool := is_digit unicode_decimal.
Definition is_minus (c : char) : bool := N.eqb c minus_sign.
Definition is_period (c : char) : bool := N.eqb c period.
Definition is_separator (c : char) : bool := N.eqb c comma || is_space c.

(** The group of the pattern: [-?\d+\.?\d*] in parentheses. *)
Definition number_group : list node :=
  [GroupOpen; Chars is_minus Optional; Chars digit OneOrMore;
   Chars is_period Optional; Chars digit ZeroOrMore; GroupClose].

(** The pattern: [^], the group, [[,\s]+], the group, [$]. *)
Definition coord_pattern : list node :=
  [Caret] ++ number_group ++ [Chars is_separator OneOrMore] ++
  number_group ++ [Dollar].

Definition _is_coordinate_pair (location : str)
  : prog (option (float * float)) :=
  let cleaned :=
    strip (remove_char rparen (remove_char lparen (strip location))) in
  match re_match coord_pattern cleaned with
  | Some [group1; group2] =>
      try_except
        (lat <- float_of (VStr group1);;
         lon <- float_of (VStr group2);;
         if float_le (float_of_Z (-90)) lat && float_le lat (float_of_Z 90) &&
            float_le (float_of_Z (-180)) lon && float_le lon (float_of_Z 180)
         then Ret (Some (lat, lon))
         else Ret None)
        is_ValueError (Ret None)
  | _ => Ret None
  end.

Definition nominatim_url : str :=
  lit "https://nominatim.openstreetmap.org/search".

Definition _geocode_nominatim (location : str)
  : prog (option (float * float)) :=
  try_except_as
    (data <- get_json nominatim_url
               [(lit "q", VStr location);
                (lit "format", VStr (lit "json"));
                (lit "limit", VInt 1)];;
     if truthy data then
       first <- getitem_0 data;;
       lat_text <- getitem_str first (lit "lat");;
       lat <- float_of lat_text;;
       first <- getitem_0 data;;
       lon_text <- getitem_str first (lit "lon");;
       lon <- float_of lon_text;;
       Ret (Some (lat, lon))
     else Ret None)
    any_exception
    (fun e =>
       _ <- py_print (lit "Geocoding failed: " ++ exn_str e);;
       Ret None).

(** The dictionary literal of [get_coordinates], in its order. *)
Definition major_cities : list (str * (float * float)) :=
  [(lit "london", (decimal_literal 515074 4, decimal_literal (-1278) 4));
   (lit "new york", (decimal_literal 407128 4, decimal_literal (-740060) 4));
   (lit "paris", (decimal_literal 488566 4, decimal_literal 23522 4));
   (lit "tokyo", (decimal_literal 356762 4, decimal_literal 1396503 4));
   (lit "sydney", (decimal_literal (-338688) 4, decimal_literal 1512093 4));
   (lit "berlin", (decimal_literal 525200 4, decimal_literal 134050 4));
   (lit "madrid", (decimal_literal 404168 4, decimal_literal (-37038) 4));
   (lit "rome", (decimal_literal 419028 4, decimal_literal 124964 4));
   (lit "kyiv", (decimal_literal 5044973 5, decimal_literal 3052474 5));
   (lit "beijing", (decimal_literal 399042 4, decimal_literal 1164074 4))].

(** [for city, coords in table: if city in location_lower: return coords] *)
Fixpoint first_city (table : list (str * (float * float)))
         (location_lower : str) : option (float * float) :=
  match table with
  | (city, coords) :: rest =>
      if contains city location_lower then Some coords
      else first_city rest location_lower
  | [] => None
  end.

Definition get_coordinates (location : str) : prog (float * float) :=
  coords <- _is_coordinate_pair location;;
  match coords with
  | Some coords => Ret coords
  | None =>
      coords <- _geocode_nominatim location;;
      match coords with
      | Some coords => Ret coords
      | None =>
          let location_lower := py_lower location in
          match first_city major_cities location_lower with
          | Some coords => Ret coords
          | None =>
              _ <- py_print (lit "Location '" ++ location ++
                             lit "' not found, defaulting to London");;
              Ret (decimal_literal 515074 4, decimal_literal (-1278) 4)
          end
      end
  end.
End WithLibrary.
End GeocodingService.

(** ** main.py *)

(** [ApiRequest.send_request], given what the POST comes back with: the
    status is checked, the body decoded, and every [RequestException]
    becomes a bare [Exception]. *)
Module ApiRequest.
Section WithLibrary.
Context `{PyLib}.

Definition send_request (reply : http_reply) : prog pyval :=
  try_except
    (match reply with
     | NoResponse => Raise RequestException
     | Response status body =>
         _ <- raise_for_status status;;
         response_json body
     end)
    is_RequestException (Raise Exception_).
End WithLibrary.
End ApiRequest.

(** [LLMHandler.generate_response], given what the POST comes back with;
    [exn_text e] is the text of the exception [e] in the f-string. *)
Module LLMHandler.
Section WithLibrary.
Context `{PyLib}.
Variable exn_text : exn -> str.

Definition error_prefix : str := lit "Error generating response: ".

Definition generate_response (reply : http_reply) : prog pyval :=
  try_except_as
    (response <- ApiRequest.send_request reply;;
     message <- py_get response (lit "message") (VDict ∅);;
     py_get message (lit "content") (VStr []))
    any_exception
    (fun e => Ret (VStr (error_prefix ++ exn_text e))).
End WithLibrary.
End LLMHandler.

Module WeatherSummarizer.

Definition fence : str := lit "```".
Definition fence_json : str := lit "```json".

Definition _extract_json (response : str) : str :=
  let cleaned := strip response in
  let cleaned :=
    if contains fence_json cleaned then
      let start := find cleaned fence_json 0 + 7 in
      let end_ := find cleaned fence start in
      strip (slice cleaned start end_)
    else if contains fence cleaned then
      let start := find cleaned fence 0 + 3 in
      let end_ := find cleaned fence start in
      strip (slice cleaned start end_)
    else cleaned in
  let json_start := find cleaned (lit "{") 0 in
  let json_end := rfind cleaned (lit "}") + 1 in
  if (json_start >=? 0) && (json_end >? json_start)
  then slice cleaned json_start json_end
  else cleaned.

(** The chat request of [greet_user]. *)
Definition greet_messages : list (str * str) :=
  [(lit "system",
    lit "You are a helpful weather assistant. Provide a brief, friendly greeting and ask the user for their location and what weather information they need. Keep it concise - no more than 3 sentences.");
   (lit "user", lit "Greet the user and ask for their weather needs.")].

Definition greet_user : prog pyval := Chat greet_messages Ret.

(** [self._extract_json(response)] for whatever the model handler
    returned: only a [str] has [strip]. *)
Definition extract_json_of (response : pyval) : prog str :=
  match response with
  | VStr text => Ret (_extract_json text)
  | _ => Raise AttributeError
  end.

Definition parse_prompt : str :=
  lit "Extract location and weather info from user input. Respond ONLY with valid JSON:" ++ nl ++
  nl ++
  lit "                {" ++ nl ++
  lit_dq "                    'location': 'city name or coordinates'," ++ nl ++
  lit_dq "                    'latitude': null," ++ nl ++
  lit_dq "                    'longitude': null," ++ nl ++
  lit_dq "                    'weather_type': 'current or forecast', " ++ nl ++
  lit_dq "                    'specific_requirements': 'what they want'" ++ nl ++
  lit "                }" ++ nl ++
  lit "                " ++ nl ++
  lit "                Do NOT include markdown formatting, backticks, or explanations. Only pure JSON.".

(** The texts that replace the header and list marks; they are written
    here as the code points of the literals in the source. *)
Definition mark_h3 : str :=
  [63743; 252; 229; 176; 212; 8719; 232; 32]%N.
Definition mark_h2 : str := [63743; 252; 236; 231; 32]%N.
Definition mark_h1 : str :=
  [63743; 252; 229; 167; 212; 8719; 232; 32]%N.
Definition mark_bullet : str := [32; 32; 8218; 196; 162; 32]%N.

Definition three_newlines : str := nl ++ nl ++ nl.
Definition two_newlines : str := nl ++ nl.

(** [while three_newlines in cleaned: cleaned = cleaned.replace(...)];
    [fuel] bounds the number of rounds. *)
Fixpoint collapse_newlines (fuel : nat) (cleaned : str) : str :=
  match fuel with
  | O => cleaned
  | S fuel' =>
      if contains three_newlines cleaned
      then collapse_newlines fuel' (replace three_newlines two_newlines cleaned)
      else cleaned
  end.

(** The loop needs fewer rounds than the text has characters. *)
Definition _clean_markdown (text : str) : str :=
  let cleaned := text in
  let cleaned := replace (lit "### ") mark_h3 cleaned in
  let cleaned := replace (lit "## ") mark_h2 cleaned in
  let cleaned := replace (lit "# ") mark_h1 cleaned in
  let cleaned := replace (lit "**") [] cleaned in
  let cleaned := replace (lit "__") [] cleaned in
  let cleaned := replace (lit "- ") mark_bullet cleaned in
  let cleaned := replace (lit "* ") mark_bullet cleaned in
  let cleaned := collapse_newlines (length cleaned) cleaned in
  strip cleaned.

Section WithLibrary.
Context `{PyLib}.

(** The request built when the input is a coordinate pair. *)
Definition direct_request (lat lon : float) : gmap str pyval :=
  <[lit "location" := VStr (float_str lat ++ lit ", " ++ float_str lon)]>
  (<[lit "latitude" := VFloat lat]>
  (<[lit "longitude" := VFloat lon]>
  (<[lit "weather_type" := VStr (lit "current")]>
  (<[lit "specific_requirements" :=
       VStr (lit "weather information for coordinates")]> ∅)))).

(** The request built when the model's answer does not decode. *)
Definition fallback_request (user_input : str) (response : pyval)
  : gmap str pyval :=
  <[lit "location" := VStr (lit "unknown")]>
  (<[lit "latitude" := VNone]>
  (<[lit "longitude" := VNone]>
  (<[lit "weather_type" := VStr (lit "current")]>
  (<[lit "specific_requirements" := VStr user_input]>
  (<[lit "raw_response" := response]> ∅))))).

(** The chat request of [parse_user_request]. *)
Definition parse_messages (user_input : str) : list (str * str) :=
  [(lit "system", parse_prompt);
   (lit "user", lit "Parse this: " ++ user_input)].

Definition parse_user_request (user_input : str) : prog pyval :=
  coords <- GeocodingService._is_coordinate_pair user_input;;
  match coords with
  | Some (lat, lon) => Ret (VDict (direct_request lat lon))
  | None =>
      response <- Chat (parse_messages user_input) Ret;;
      cleaned_response <- extract_json_of response;;
      try_except
        (loads cleaned_response)
        is_JSONDecodeError
        (Ret (VDict (fallback_request user_input response)))
  end.

Definition get_coordinates (location : str) : prog (float * float) :=
  GeocodingService.get_coordinates location.

Definition weather_url : str := lit "https://api.open-meteo.com/v1/forecast".

(** The [params] of [get_weather_data], with the default field lists. *)
Definition weather_params (latitude longitude : pyval)
  : list (str * pyval) :=
  [(lit "latitude", latitude);
   (lit "longitude", longitude);
   (lit "current",
    VList [VStr (lit "temperature_2m");
           VStr (lit "relative_humidity_2m");
           VStr (lit "weather_code")]);
   (lit "daily",
    VList [VStr (lit "temperature_2m_max");
           VStr (lit "temperature_2m_min");
           VStr (lit "precipitation_sum")]);
   (lit "timezone", VStr (lit "auto"))].

(** [WeatherApiRequest.get_weather_data] *)
Definition get_weather_data (latitude longitude : pyval) : prog pyval :=
  try_except
    (get_json weather_url (weather_params latitude longitude))
    is_RequestException (Raise Exception_).

(** The step of [run] between the interpretation of the request and the
    weather request: "Get coordinates if not provided". *)
Definition resolve_step (parsed_request : pyval) : prog (gmap str pyval) :=
  match parsed_request with
  | VDict d =>
      if negb (truthy (dict_get d (lit "latitude") VNone)) ||
         negb (truthy (dict_get d (lit "longitude") VNone))
      then
        match dict_get d (lit "location") (VStr (lit "London")) with
        | VStr location =>
            coords <- get_coordinates location;;
            let '(lat, lon) := coords in
            Ret (<[lit "longitude" := VFloat lon]>
                 (<[lit "latitude" := VFloat lat]> d))
        | _ => Raise AttributeError
        end
      else Ret d
  | _ => Raise AttributeError
  end.

(** The system prompt of [summarize_weather_data]. *)
Definition summary_prompt : str :=
  lit "You are a weather data summarizer. Provide a clear, concise weather summary." ++ nl ++
  nl ++
  lit "                Format requirements:" ++ nl ++
  lit "                - Use simple headers (# ## ###)" ++ nl ++
  lit "                - Keep it brief and conversational" ++ nl ++
  lit "                - Include current temperature, conditions, and forecast" ++ nl ++
  lit "                - Don't repeat information" ++ nl ++
  lit "                - No excessive formatting or decorative elements" ++ nl ++
  lit "                - Maximum 150 words" ++ nl ++
  lit "                " ++ nl ++
  lit "                Example format:" ++ nl ++
  lit "                # Weather in [City]" ++ nl ++
  lit "                " ++ nl ++
  lit "                ## Current Conditions" ++ nl ++
  lit "                Temperature: X" ++ [172; 8734]%N ++ lit "C, Condition details" ++ nl ++
  lit "                " ++ nl ++
  lit "                ## Today's Forecast" ++ nl ++
  lit "                High/Low temperatures and key details".

(** The chat request of [summarize_weather_data], given the two texts of
    its f-string. *)
Definition summary_messages (requirements dumped : str) : list (str * str) :=
  [(lit "system", summary_prompt);
   (lit "user",
    lit "User requested: " ++ requirements ++ nl ++ nl ++
    lit "Weather data: " ++ dumped)].

Definition summarize_weather_data (weather_data user_requirements : pyval)
  : prog pyval :=
  requirements <- match py_format user_requirements with
                  | inr text => Ret text
                  | inl e => Raise e
                  end;;
  dumped <- match json_dumps weather_data with
            | inr text => Ret text
            | inl e => Raise e
            end;;
  Chat (summary_messages requirements dumped) Ret.

(** [print(self._clean_markdown(summary))]: only a [str] has [replace]. *)
Definition display_summary (summary : pyval) : prog unit :=
  match summary with
  | VStr text => py_print (_clean_markdown text)
  | _ => Raise AttributeError
  end.

(** The [try] statement of [run]: the weather request, the summary and
    its display, and the display of the error message of whatever was
    raised. *)
Definition weather_report (parsed_request : gmap str pyval)
           (user_input : str) : prog unit :=
  try_except_as
    (latitude <- getitem_str (VDict parsed_request) (lit "latitude");;
     longitude <- getitem_str (VDict parsed_request) (lit "longitude");;
     weather_data <- get_weather_data latitude longitude;;
     summary <- summarize_weather_data weather_data
                  (dict_get parsed_request (lit "specific_requirements")
                            (VStr user_input));;
     _ <- py_print (nl ++ lit "=== Weather Summary ===");;
     display_summary summary)
    any_exception
    (fun e =>
       display_summary
         (VStr (lit "**Error**: Unable to fetch weather data. " ++ exn_str e))).

Definition run : prog unit :=
  _ <- py_print (lit "=== Weather Summarizer ===" ++ nl);;
  greeting <- greet_user;;
  _ <- display_summary greeting;;
  user_input <- Input (nl ++ lit "Your input: ") Ret;;
  parsed_request <- parse_user_request user_input;;
  parsed_request <- resolve_step parsed_request;;
  weather_report parsed_request user_input.
End WithLibrary.
End WeatherSummarizer.

(** ** Notions used to state the properties *)

Import GeocodingService WeatherSummarizer.

Definition occurs (sub s : str) : Prop := exists a b, s = a ++ sub ++ b.

(** [s = pre ++ sub ++ post], and no occurrence of [sub] in [s] starts
    before this one. *)
Definition first_split (sub s pre post : str) : Prop :=
  s = pre ++ sub ++ post /\
  forall a b, s = a ++ sub ++ b -> (length pre <= length a)%nat.

(** [s = pre ++ sub ++ post], and no occurrence of [sub] in [s] starts
    after this one. *)
Definition last_split (sub s pre post : str) : Prop :=
  s = pre ++ sub ++ post /\
  forall a b, s = a ++ sub ++ b -> (length a <= length pre)%nat.

(** Stripping. *)
Definition all_space (s : str) : bool := forallb is_space s.

(** The first character exists and is not whitespace. *)
Definition head_solid (s : str) : bool :=
  match s with
  | c :: _ => negb (is_space c)
  | [] => false
  end.

Definition last_solid (s : str) : bool := head_solid (rev s).

(** ** The two steps of [_extract_json] *)

(** The candidate: the fence contents or the whole (stripped) reply. *)
Definition fence_candidate (cleaned : str) : str :=
  if contains fence_json cleaned then
    let start := find cleaned fence_json 0 + 7 in
    let end_ := find cleaned fence start in
    strip (slice cleaned start end_)
  else if contains fence cleaned then
    let start := find cleaned fence 0 + 3 in
    let end_ := find cleaned fence start in
    strip (slice cleaned start end_)
  else cleaned.

(** The part of the candidate from the first opening to the last closing
    brace. *)
Definition brace_slice (cleaned : str) : str :=
  let json_start := find cleaned (lit "{") 0 in
  let json_end := rfind cleaned (lit "}") + 1 in
  if (json_start >=? 0) && (json_end >? json_start)
  then slice cleaned json_start json_end
  else cleaned.

Definition lbrace : char := 123%N.
Definition rbrace : char := 125%N.

(** ** What the response parser is specified to do *)

(** The text the parser works on: the inside of the marked fence, else the
    inside of the first fence, else the whole reply. *)
Inductive fenced_text (reply : str) : str -> Prop :=
| marked_fence pre body post :
    first_split fence_json reply pre (body ++ fence ++ post) ->
    first_split fence (body ++ fence ++ post) body post ->
    fenced_text reply body
| plain_fence pre body post :
    ~ occurs fence_json reply ->
    first_split fence reply pre (body ++ fence ++ post) ->
    first_split fence (body ++ fence ++ post) body post ->
    fenced_text reply body
| no_fence :
    ~ occurs fence reply ->
    fenced_text reply reply.

(** [out] is the part of [cand] from its first opening brace to its last
    closing brace, both included. *)
Definition object_of (cand out : str) : Prop :=
  exists a mid b,
    cand = a ++ [lbrace] ++ mid ++ [rbrace] ++ b /\
    ~ In lbrace a /\ ~ In rbrace b /\
    out = [lbrace] ++ mid ++ [rbrace].

(** Following the specification's words, "the slice of that candidate from the
    first '{' to the last '}' inclusive", taken for every candidate. *)
Definition described_slice (cand : str) : str :=
  slice cand (find cand (lit "{") 0) (rfind cand (lit "}") + 1).

Definition paris_reply : str :=
  lit "Here you go:" ++ nl ++ lit "```json" ++ nl ++
  lit_dq "{'location':'Paris','weather_type':'current'}" ++ nl ++
  lit "```" ++ nl ++ lit "Enjoy!".

Definition paris_object : str :=
  lit_dq "{'location':'Paris','weather_type':'current'}".

Definition backtick_object : str := lit_dq "{'a':'```'}".
Definition nested_object : str := lit_dq "{'a':{'b':1},'c':2}".
Definition spaced_object : str := lit_dq "{'a':1 }".


(** ** A library over ASCII

    An instance of the library that knows the ASCII digits and letters
    only; [decode] stands for [json.loads]. *)

Definition ascii_lower (s : str) : str :=
  List.map (fun c => if (65 <=? c)%N && (c <=? 90)%N then (c + 32)%N else c) s.

(** Whether a text is a numeral: the decision that goes with [numeral]. *)
Definition numeral_b (decimal : char -> option N) (text : str) : bool :=
  let body :=
    match text with
    | c :: t => if N.eqb c minus_sign then t else text
    | [] => []
    end in
  let '(int_part, rest) := span (is_digit decimal) body in
  negb (Nat.eqb (length int_part) 0) &&
  match rest with
  | [] => true
  | c :: frac_part => N.eqb c period && forallb (is_digit decimal) frac_part
  end.

Definition ascii_float (t : str) : option float :=
  if numeral_b ascii_decimal t then Some (numeral_value ascii_decimal t)
  else None.

(** ** What a match is

    [matches pat pos rest opened groups spans]: the pattern can be matched
    with [spans] as its groups, for some choice of the repetition counts. *)
Inductive matches :
  list node -> nat -> str -> list nat -> list (nat * nat) ->
  list (nat * nat) -> Prop :=
| matches_nil pos rest opened groups :
    matches [] pos rest opened groups (rev groups)
| matches_caret pat rest opened groups spans :
    matches pat 0 rest opened groups spans ->
    matches (Caret :: pat) 0 rest opened groups spans
| matches_dollar pat pos rest opened groups spans :
    at_dollar rest = true ->
    matches pat pos rest opened groups spans ->
    matches (Dollar :: pat) pos rest opened groups spans
| matches_open pat pos rest opened groups spans :
    matches pat pos rest (pos :: opened) groups spans ->
    matches (GroupOpen :: pat) pos rest opened groups spans
| matches_close pat pos rest o opened groups spans :
    matches pat pos rest opened ((o, pos) :: groups) spans ->
    matches (GroupClose :: pat) pos rest (o :: opened) groups spans
| matches_chars p q pat pos rest opened groups k spans :
    (least q <= k <= most q (run_length p rest))%nat ->
    matches pat (pos + k) (drop k rest) opened groups spans ->
    matches (Chars p q :: pat) pos rest opened groups spans.

(** ** What the coordinate matcher is specified to do *)

Section CoordinateSpec.
Context `{PyLib}.

(** The texts the group of the pattern matches. *)
Definition group_text (t : str) : Prop :=
  exists sign int_part dot frac_part,
    t = sign ++ int_part ++ dot ++ frac_part /\
    forallb is_minus sign = true /\ (length sign <= 1)%nat /\
    forallb digit int_part = true /\ (1 <= length int_part)%nat /\
    forallb is_period dot = true /\ (length dot <= 1)%nat /\
    forallb digit frac_part = true.

(** The shape of a subject the whole pattern matches, with the spans of
    its two groups. *)
Definition coord_shape (s n1 sep n2 tail : str) : Prop :=
  s = n1 ++ sep ++ n2 ++ tail /\
  group_text n1 /\
  forallb is_separator sep = true /\ (1 <= length sep)%nat /\
  group_text n2 /\
  at_dollar tail = true.

Definition coord_spans (n1 sep n2 : str) : list (nat * nat) :=
  [(0, length n1); (length n1 + length sep,
                    length n1 + length sep + length n2)]%nat.

(** The text the pattern is matched against, as the code computes it. *)
Definition clean (location : str) : str :=
  strip (remove_char rparen (remove_char lparen (strip location))).

(** "separator (comma or whitespace)": a run of such characters. *)
Definition separator (sep : str) : Prop :=
  sep <> [] /\ forallb is_separator sep = true.

(** Latitude in [-90, 90] and longitude in [-180, 180]. *)
Definition in_range (lat lon : float) : bool :=
  float_le (float_of_Z (-90)) lat && float_le lat (float_of_Z 90) &&
  float_le (float_of_Z (-180)) lon && float_le lon (float_of_Z 180).

(** The float a numeral denotes. *)
Definition value (n : str) : float := numeral_value unicode_decimal n.

(** [text] is a coordinate pair in range, with these two numerals. *)
Definition coordinate_text (text n1 n2 : str) : Prop :=
  exists sep,
    text = n1 ++ sep ++ n2 /\
    numeral unicode_decimal n1 /\ separator sep /\
    numeral unicode_decimal n2 /\
    in_range (value n1) (value n2) = true.

(** The characters a numeral is made of. *)
Definition is_numeric (c : char) : bool :=
  is_minus c || digit c || is_period c.

End CoordinateSpec.

(** ** The coordinate matcher, in the words of its specification *)

Definition is_paren (c : char) : bool := N.eqb c lparen || N.eqb c rparen.

(** Following the specification's words, "after stripping surrounding
    whitespace and parentheses": whitespace and parentheses are taken off
    the two ends of the input, and nowhere else. *)
Definition wrapping (c : char) : bool := is_space c || is_paren c.

Fixpoint drop_wrapping (s : str) : str :=
  match s with
  | c :: t => if wrapping c then drop_wrapping t else s
  | [] => []
  end.

Definition unwrap (s : str) : str :=
  rev (drop_wrapping (rev (drop_wrapping s))).

(** The other reading: every parenthesis is deleted, wherever it stands. *)
Definition without_parens (s : str) : str :=
  List.filter (fun c => negb (is_paren c)) s.

(** [lo <= x <= hi], as binary64 numbers compare. *)
Definition between (lo hi : Z) (x : float) : Prop :=
  (SFcompare (float_of_Z lo) x = Some Lt \/
   SFcompare (float_of_Z lo) x = Some Eq) /\
  (SFcompare x (float_of_Z hi) = Some Lt \/
   SFcompare x (float_of_Z hi) = Some Eq).

Section CoordinateReading.
Context `{PyLib}.

(** [text] reads as a pair: a numeral, one or more separators (commas or
    whitespace), a numeral, and nothing else; the first number is a
    latitude and the second a longitude. *)
Definition pair_reading (text n1 n2 : str) : Prop :=
  exists sep,
    text = n1 ++ sep ++ n2 /\
    numeral unicode_decimal n1 /\
    sep <> [] /\ (forall c, In c sep -> c = comma \/ is_space c = true) /\
    numeral unicode_decimal n2 /\
    between (-90) 90 (value n1) /\ between (-180) 180 (value n2).
End CoordinateReading.

(** ** What the resolver is specified to do *)

Definition is_ascii (s : str) : bool := forallb (fun c => c <? 128)%N s.

(** [coords] belongs to the first entry of [table] whose name occurs in
    [text]. *)
Definition first_listed (table : list (str * (float * float))) (text : str)
           (coords : float * float) : Prop :=
  exists before city after,
    table = before ++ (city, coords) :: after /\
    occurs city text /\
    forall c xy, In (c, xy) before -> ~ occurs c text.

(** No name of [table] occurs in [text]. *)
Definition none_listed (table : list (str * (float * float))) (text : str)
  : Prop :=
  forall c xy, In (c, xy) table -> ~ occurs c text.

(** London, [(51.5074, -0.1278)]. *)
Definition london : float * float :=
  (decimal_literal 515074 4, decimal_literal (-1278) 4).

(** Tokyo, [(35.6762, 139.6503)]. *)
Definition tokyo : float * float :=
  (decimal_literal 356762 4, decimal_literal 1396503 4).

(** A world without network: every request fails to connect. *)
Definition offline (reply : list (str * str) -> str) (typed : str) : world :=
  {| http_get := fun _ _ => NoResponse;
     generate_response := fun messages => VStr (reply messages);
     input := fun _ => typed |}.

(** ** What the request interpreter is specified to do *)

Section InterpreterSpec.
Context `{PyLib}.

(** The line the user types in [run]. *)
Definition typed (w : world) : str := input w (nl ++ lit "Your input: ").

(** The model's answer to the request of [parse_user_request]. *)
Definition reply_to (w : world) (user_input : str) : pyval :=
  generate_response w (parse_messages user_input).

(** The model's answer to the request of [greet_user]. *)
Definition greeting (w : world) : pyval := generate_response w greet_messages.

(** [display_summary] can show the value: it is a text, and what
    [_clean_markdown] makes of it can be written to the console. *)
Definition shown (v : pyval) : bool :=
  match v with
  | VStr text => utf8_encodable (_clean_markdown text)
  | _ => false
  end.



(** The request carries a latitude and a longitude that Python takes
    for true. *)
Definition has_coordinates (d : gmap str pyval) : bool :=
  truthy (dict_get d (lit "latitude") VNone) &&
  truthy (dict_get d (lit "longitude") VNone).
End InterpreterSpec.

(** A decoded request with a latitude of zero. *)
Definition quito_request : gmap str pyval :=
  <[lit "location" := VStr (lit "Quito")]>
  (<[lit "latitude" := VInt 0]>
  (<[lit "longitude" := VFloat (decimal_literal (-785) 1)]>
  (<[lit "weather_type" := VStr (lit "current")]> ∅))).




(** ** Notions for the further properties *)

(** No opening brace of [c] is followed, later on, by a closing brace. *)
Definition no_brace_pair (c : str) : Prop :=
  ~ exists a mid b, c = a ++ [lbrace] ++ mid ++ [rbrace] ++ b.

(** A zero or a finite number: neither an infinity nor a NaN. *)
Definition is_finite (f : float) : bool :=
  match f with
  | S754_zero _ | S754_finite _ _ _ => true
  | _ => false
  end.

(** The input without its parentheses. *)
Definition remove_parens (s : str) : str :=
  remove_char rparen (remove_char lparen s).

(** The status codes [raise_for_status] raises for. *)
Definition error_status (status : N) : bool :=
  ((400 <=? status) && (status <? 600))%N.

(** The request of [_geocode_nominatim]. *)
Definition nominatim_params (location : str) : list (str * pyval) :=
  [(lit "q", VStr location); (lit "format", VStr (lit "json"));
   (lit "limit", VInt 1)].

(** The marks that [_clean_markdown] replaces. *)
Definition markdown_marks : list str :=
  [lit "### "; lit "## "; lit "# "; lit "**"; lit "__"; lit "- "; lit "* "].

(** The reply to the lookup carries the coordinates [lat], [lon]: a status
    that is no error, and a body that decodes to a list whose first entry
    is an object with a [lat] and a [lon] that [float] accepts. *)
Definition lookup_found `{PyLib} (reply : http_reply) (lat lon : float) : Prop :=
  exists status body d rest lat_value lon_value,
    reply = Response status body /\ error_status status = false /\
    json_loads body = inr (VList (VDict d :: rest)) /\
    d !! lit "lat" = Some lat_value /\ float_of lat_value = Ret lat /\
    d !! lit "lon" = Some lon_value /\ float_of lon_value = Ret lon.

(** The request cannot be resolved: it is no object, or it lacks a
    coordinate that Python takes for true and its location is no text. *)
Definition unresolvable (parsed : pyval) : Prop :=
  match parsed with
  | VDict d =>
      has_coordinates d = false /\
      forall location,
        dict_get d (lit "location") (VStr (lit "London")) <> VStr location
  | _ => True
  end.

(** The resolver is asked for a location that cannot be printed, in
    which the matcher sees no pair and that names no city of the table:
    the notice of the default is what [print] fails on. *)
Definition default_unprintable `{PyLib} (parsed : pyval) : Prop :=
  exists d location,
    parsed = VDict d /\ has_coordinates d = false /\
    dict_get d (lit "location") (VStr (lit "London")) = VStr location /\
    utf8_encodable location = false /\
    _is_coordinate_pair location = Ret None /\
    first_city major_cities (py_lower location) = None.

(** The exception of [display_summary] on a value it cannot show. *)
Definition display_error (v : pyval) : exn :=
  match v with
  | VStr _ => UnicodeEncodeError
  | _ => AttributeError
  end.

(** The call of [summarize_weather_data]: one request to the model, when
    the two texts of its f-string can be made. *)
Definition summary_calls `{PyLib} (weather_data user_requirements : pyval)
  : list call :=
  match py_format user_requirements, json_dumps weather_data with
  | inr requirements, inr dumped =>
      [ChatCall (summary_messages requirements dumped)]
  | _, _ => []
  end.

(** The calls of the [try] statement of [run]: the weather request, if it
    can be written, and after an answer the request for the summary. *)
Definition report_calls `{PyLib} (w : world) (d : gmap str pyval) (user_input : str)
  : list call :=
  match d !! lit "latitude", d !! lit "longitude" with
  | Some latitude, Some longitude =>
      (if sendable (weather_params latitude longitude)
       then [HttpCall weather_url (weather_params latitude longitude)]
       else []) ++
      match result w (get_weather_data latitude longitude) with
      | inr weather_data =>
          summary_calls weather_data
            (dict_get d (lit "specific_requirements") (VStr user_input))
      | inl _ => []
      end
  | _, _ => []
  end.

(** A decoder for which every text is the number 42, and a request
    without a location. *)
Definition number_decoder (s : str) : exn + pyval := inr (VInt 42).

Definition nameless_request : gmap str pyval :=
  <[lit "weather_type" := VStr (lit "current")]> ∅.

(** A decoder for which every text is the empty object, and a text for
    every exception. *)
Definition object_decoder (s : str) : exn + pyval := inr (VDict ∅).

Definition plain_text (e : exn) : str := lit "API request failed".

(** A text of one surrogate code point, U+D800: what [json.loads] makes
    of a lone surrogate escape. *)
Definition surrogate_location : str := [55296%N].

(** A reply of a thousand opening brackets, and a decoder that, like
    [json.loads], gives up on it with [RecursionError]; every other text
    is no JSON for it. *)
Definition deep_reply : str := List.repeat 91%N 1000.

Definition deep_decoder (s : str) : exn + pyval :=
  if forallb (N.eqb 91) s && (1000 <=? length s)%nat
  then inl RecursionError else inl JSONDecodeError.

(** A world whose network gives one reply to every request. *)
Definition serving (reply : http_reply) : world :=
  {| http_get := fun _ _ => reply;
     generate_response := fun _ => VStr [];
     input := fun _ => [] |}.

(** Bodies a geocoding service may send, and what [json.loads] makes of
    them. *)
Definition found_body : str := lit_dq "[{'lat': '51.5073', 'lon': '-0.1276'}]".
Definition empty_body : str := lit "[]".
Definition fieldless_body : str := lit_dq "[{'error': 'quota'}]".
Definition wordy_body : str := lit_dq "[{'lat': 'n/a', 'lon': 'n/a'}]".
Definition html_body : str := lit "<html>Bad gateway</html>".

Definition geo_decoder (s : str) : exn + pyval :=
  if str_eqb s found_body then
    inr (VList [VDict (<[lit "lat" := VStr (lit "51.5073")]>
                       (<[lit "lon" := VStr (lit "-0.1276")]> ∅))])
  else if str_eqb s empty_body then inr (VList [])
  else if str_eqb s fieldless_body then
    inr (VList [VDict (<[lit "error" := VStr (lit "quota")]> ∅)])
  else if str_eqb s wordy_body then
    inr (VList [VDict (<[lit "lat" := VStr (lit "n/a")]>
                       (<[lit "lon" := VStr (lit "n/a")]> ∅))])
  else inl JSONDecodeError.

(** * The ASCII library is a library *)

Lemma span_app p a b :
  forallb p a = true ->
  match b with [] => True | c :: _ => p c = false end ->
  span p (a ++ b) = (a, b).
Proof.
  intros Ha Hb. induction a as [|c a IH]; simpl.
  - destruct b as [|c b]; [reflexivity|]. simpl. now rewrite Hb.
  - simpl in Ha. apply andb_true_iff in Ha as [-> Ha]. now rewrite (IH Ha).
Qed.

Lemma ascii_decimal_range c d :
  ascii_decimal c = Some d -> (48 <= c <= 57)%N.
Proof.
  unfold ascii_decimal.
  destruct (N.leb_spec 48 c); destruct (N.leb_spec c 57);
    simpl; try discriminate. lia.
Qed.

Lemma ascii_decimal_solid c d :
  ascii_decimal c = Some d -> is_space c = false /\ c <> comma.
Proof.
  intros Hd. apply ascii_decimal_range in Hd. unfold comma. split; [|lia].
  unfold is_space.
  repeat match goal with
         | |- context [(?a <=? ?b)%N] => destruct (N.leb_spec a b); try lia
         | |- context [(?a =? ?b)%N] => destruct (N.eqb_spec a b); try lia
         end; reflexivity.
Qed.

Lemma ascii_decimal_ascii c :
  (c <? 128)%N = true -> ascii_decimal c = ascii_decimal c.
Proof. reflexivity. Qed.

Lemma numeral_b_complete decimal t :
  is_digit decimal minus_sign = false ->
  is_digit decimal period = false ->
  numeral decimal t -> numeral_b decimal t = true.
Proof.
  intros Hminus Hperiod (sign & ip & frac & -> & Hsign & Hne & Hi & Hfrac).
  assert (Hspan : span (is_digit decimal) (ip ++ frac) = (ip, frac)).
  { apply span_app; [exact Hi|].
    destruct Hfrac as [-> | (fp & -> & _)]; [exact I | exact Hperiod]. }
  destruct ip as [|c ip]; [contradiction|].
  assert (Hc : N.eqb c minus_sign = false).
  { simpl in Hi. destruct (N.eqb_spec c minus_sign) as [-> |]; [|reflexivity].
    rewrite Hminus in Hi. discriminate. }
  assert (Hrest : match frac with
                  | [] => true
                  | x :: fp => N.eqb x period && forallb (is_digit decimal) fp
                  end = true).
  { destruct Hfrac as [-> | (fp & -> & Hf)]; [reflexivity|].
    now rewrite N.eqb_refl, Hf. }
  unfold numeral_b. destruct Hsign as [-> | ->].
  - change ([] ++ (c :: ip) ++ frac) with (c :: ip ++ frac).
    cbv beta iota zeta. rewrite Hc.
    change (c :: ip ++ frac) with ((c :: ip) ++ frac).
    rewrite Hspan. exact Hrest.
  - change ([minus_sign] ++ (c :: ip) ++ frac)
      with (minus_sign :: (c :: ip) ++ frac).
    cbv beta iota zeta. rewrite N.eqb_refl, Hspan. exact Hrest.
Qed.

Lemma ascii_float_numeral t :
  numeral ascii_decimal t -> ascii_float t = Some (numeral_value ascii_decimal t).
Proof.
  intros Hn. unfold ascii_float.
  now rewrite (numeral_b_complete ascii_decimal t eq_refl eq_refl Hn).
Qed.

Lemma ascii_lower_ascii s :
  forallb (fun c => c <? 128)%N s = true ->
  ascii_lower s =
  List.map (fun c => if (65 <=? c)%N && (c <=? 90)%N then (c + 32)%N else c) s.
Proof. reflexivity. Qed.

(** The library over ASCII, with [decode] as [json.loads]. *)
Definition ascii_lib (decode : str -> exn + pyval) : PyLib := {|
  unicode_decimal := ascii_decimal;
  py_float := ascii_float;
  py_lower := ascii_lower;
  json_loads := decode;
  float_str := fun _ => lit "0.0";
  exn_str := fun _ => lit "failure";
  py_format := fun v => match v with VStr text => inr text | _ => inr (lit "?") end;
  json_dumps := fun _ => inr (lit "{}");
  decimal_solid := ascii_decimal_solid;
  decimal_ascii := ascii_decimal_ascii;
  float_numeral := ascii_float_numeral;
  lower_ascii := ascii_lower_ascii;
  exn_str_encodable := fun _ => eq_refl
|}.

(** A decoder that knows nothing. *)
Definition no_json (s : str) : exn + pyval := inl JSONDecodeError.

(** * Properties *)

(** ** Facts about the string primitives *)

Lemma starts_with_spec p s :
  starts_with p s = true <-> exists r, s = p ++ r.
Proof.
  revert s. induction p as [|a p IH]; intros s; simpl.
  - split; eauto.
  - destruct s as [|b s].
    + split; [discriminate | intros [r Hr]; discriminate].
    + rewrite andb_true_iff, N.eqb_eq, IH. split.
      * intros [-> [r ->]]. eauto.
      * intros [r Hr]. injection Hr as -> ->. eauto.
Qed.

Lemma starts_with_false p s :
  starts_with p s = false <-> forall r, s <> p ++ r.
Proof.
  rewrite <- not_true_iff_false, starts_with_spec. split.
  - intros H r Hr. apply H. eauto.
  - intros H [r Hr]. exact (H r Hr).
Qed.

Lemma find_from_spec sub s i :
  (find_from sub s i = -1 /\ ~ occurs sub s) \/
  (exists pre post, first_split sub s pre post /\
                    find_from sub s i = i + Z.of_nat (length pre)).
Proof.
  revert i. induction s as [|c s IH]; intros i; simpl.
  - destruct (starts_with sub []) eqn:E.
    + right. apply starts_with_spec in E as [r Hr].
      exists [], r. split; [split; [exact Hr | intros; simpl; lia] | simpl; lia].
    + left. split; [reflexivity|]. intros (a & b & Hab).
      destruct a; [|discriminate]. simpl in Hab.
      rewrite starts_with_false in E. exact (E _ Hab).
  - destruct (starts_with sub (c :: s)) eqn:E.
    + right. apply starts_with_spec in E as [r Hr].
      exists [], r. split; [split; [exact Hr | intros; simpl; lia] | simpl; lia].
    + rewrite starts_with_false in E.
      destruct (IH (i + 1)) as [[Hf Hno] | (pre & post & [Hs Hmin] & Hf)].
      * left. split; [exact Hf|]. intros (a & b & Hab).
        destruct a as [|a0 a]; [exact (E _ Hab)|].
        injection Hab as _ Hab. apply Hno. exists a, b. exact Hab.
      * right. exists (c :: pre), post. split; [split|].
        -- simpl. now rewrite Hs.
        -- intros a b Hab. destruct a as [|a0 a]; [destruct (E _ Hab)|].
           injection Hab as _ Hab. simpl. apply Hmin in Hab. lia.
        -- rewrite Hf. simpl length. lia.
Qed.

Lemma first_split_unique sub s p1 q1 p2 q2 :
  first_split sub s p1 q1 -> first_split sub s p2 q2 -> p1 = p2 /\ q1 = q2.
Proof.
  intros [H1 M1] [H2 M2].
  assert (Hl : length p1 = length p2).
  { apply Nat.le_antisymm; [exact (M1 _ _ H2) | exact (M2 _ _ H1)]. }
  rewrite H1 in H2.
  assert (p1 = p2) as ->.
  { apply (f_equal (take (length p1))) in H2.
    rewrite take_app_length in H2. rewrite Hl in H2.
    rewrite take_app_length in H2. exact H2. }
  split; [reflexivity|].
  apply app_inv_head in H2. apply app_inv_head in H2. exact H2.
Qed.

Lemma find_0 s sub : find s sub 0 = find_from sub s 0.
Proof.
  unfold find. simpl.
  destruct (Z.ltb_spec (Z.of_nat (length s)) 0); [lia | reflexivity].
Qed.

Lemma find_first s sub pre post :
  first_split sub s pre post -> find s sub 0 = Z.of_nat (length pre).
Proof.
  intros H. rewrite find_0.
  destruct (find_from_spec sub s 0) as [[_ Hno] | (p & q & Hpq & ->)].
  - destruct H as [H _]. destruct Hno. exists pre, post. exact H.
  - destruct (first_split_unique _ _ _ _ _ _ H Hpq) as [-> _]. lia.
Qed.

Lemma find_none s sub : ~ occurs sub s -> find s sub 0 = -1.
Proof.
  intros H. rewrite find_0.
  destruct (find_from_spec sub s 0) as [[E _] | (p & q & [Hpq _] & _)].
  - exact E.
  - destruct H. exists p, q. exact Hpq.
Qed.

Lemma contains_true sub s : contains sub s = true <-> occurs sub s.
Proof.
  unfold contains. rewrite find_0.
  destruct (find_from_spec sub s 0) as [[E Hno] | (p & q & [Hpq _] & E)];
    rewrite E.
  - split; [discriminate | intros H; destruct (Hno H)].
  - split; [intros _; exists p, q; exact Hpq | intros _; apply Z.leb_le; lia].
Qed.

Lemma contains_false sub s : contains sub s = false <-> ~ occurs sub s.
Proof. rewrite <- contains_true. symmetry. apply not_true_iff_false. Qed.

(** Searching from the end of a known prefix. *)
Lemma find_after s sub pre rest :
  s = pre ++ rest ->
  find s sub (Z.of_nat (length pre)) = find_from sub rest (Z.of_nat (length pre)).
Proof.
  intros ->. unfold find.
  destruct (Z.ltb_spec (Z.of_nat (length pre)) 0); [lia|].
  rewrite length_app.
  destruct (Z.ltb_spec (Z.of_nat (length pre + length rest))
                       (Z.of_nat (length pre))); [lia|].
  rewrite Nat2Z.id, drop_app_length. reflexivity.
Qed.

Lemma find_after_first s sub pre body post :
  s = pre ++ body ++ sub ++ post ->
  first_split sub (body ++ sub ++ post) body post ->
  find s sub (Z.of_nat (length pre)) = Z.of_nat (length pre + length body).
Proof.
  intros Hs H. rewrite (find_after s sub pre _ Hs).
  destruct (find_from_spec sub (body ++ sub ++ post) (Z.of_nat (length pre)))
    as [[_ Hno] | (p & q & Hpq & ->)].
  - destruct Hno. exists body, post. reflexivity.
  - destruct (first_split_unique _ _ _ _ _ _ H Hpq) as [-> _]. lia.
Qed.

Lemma find_after_none s sub pre rest :
  s = pre ++ rest -> ~ occurs sub rest ->
  find s sub (Z.of_nat (length pre)) = -1.
Proof.
  intros Hs H. rewrite (find_after s sub pre _ Hs).
  destruct (find_from_spec sub rest (Z.of_nat (length pre)))
    as [[E _] | (p & q & [Hpq _] & _)].
  - exact E.
  - destruct H. exists p, q. exact Hpq.
Qed.

Lemma rfind_from_spec sub s i :
  0 <= i ->
  (rfind_from sub s i = -1 /\ ~ occurs sub s) \/
  (exists pre post, last_split sub s pre post /\
                    rfind_from sub s i = i + Z.of_nat (length pre)).
Proof.
  revert i. induction s as [|c s IH]; intros i Hi; simpl.
  - destruct (starts_with sub []) eqn:E.
    + right. apply starts_with_spec in E as [r Hr].
      exists [], r. split; [split; [exact Hr|] | simpl; lia].
      intros a b Hab. destruct a; [simpl; lia | discriminate].
    + left. split; [reflexivity|]. intros (a & b & Hab).
      destruct a; [|discriminate]. simpl in Hab.
      rewrite starts_with_false in E. exact (E _ Hab).
  - destruct (IH (i + 1)) as [[Hf Hno] | (pre & post & [Hs Hmax] & Hf)];
      [lia | |]; rewrite Hf.
    + simpl. destruct (starts_with sub (c :: s)) eqn:E.
      * right. apply starts_with_spec in E as [r Hr].
        exists [], r. split; [split; [exact Hr|] | simpl; lia].
        intros a b Hab. destruct a as [|a0 a]; [simpl; lia|].
        injection Hab as _ Hab. destruct Hno. exists a, b. exact Hab.
      * left. split; [reflexivity|]. rewrite starts_with_false in E.
        intros (a & b & Hab). destruct a as [|a0 a]; [exact (E _ Hab)|].
        injection Hab as _ Hab. apply Hno. exists a, b. exact Hab.
    + destruct (Z.leb_spec 0 (i + 1 + Z.of_nat (length pre))); [|lia].
      right. exists (c :: pre), post. split; [split|].
      * simpl. now rewrite Hs.
      * intros a b Hab. destruct a as [|a0 a]; [simpl; lia|].
        injection Hab as _ Hab. simpl. apply Hmax in Hab. lia.
      * simpl length. lia.
Qed.

Lemma last_split_unique sub s p1 q1 p2 q2 :
  last_split sub s p1 q1 -> last_split sub s p2 q2 -> p1 = p2 /\ q1 = q2.
Proof.
  intros [H1 M1] [H2 M2].
  assert (Hl : length p1 = length p2).
  { apply Nat.le_antisymm; [exact (M2 _ _ H1) | exact (M1 _ _ H2)]. }
  rewrite H1 in H2.
  assert (p1 = p2) as ->.
  { apply (f_equal (take (length p1))) in H2.
    rewrite take_app_length in H2. rewrite Hl in H2.
    rewrite take_app_length in H2. exact H2. }
  split; [reflexivity|].
  apply app_inv_head in H2. apply app_inv_head in H2. exact H2.
Qed.

Lemma rfind_last s sub pre post :
  last_split sub s pre post -> rfind s sub = Z.of_nat (length pre).
Proof.
  intros H. unfold rfind.
  destruct (rfind_from_spec sub s 0) as [[_ Hno] | (p & q & Hpq & ->)]; [lia| |].
  - destruct H as [H _]. destruct Hno. exists pre, post. exact H.
  - destruct (last_split_unique _ _ _ _ _ _ H Hpq) as [-> _]. lia.
Qed.

Lemma rfind_none s sub : ~ occurs sub s -> rfind s sub = -1.
Proof.
  intros H. unfold rfind.
  destruct (rfind_from_spec sub s 0) as [[E _] | (p & q & [Hpq _] & _)]; [lia| |].
  - exact E.
  - destruct H. exists p, q. exact Hpq.
Qed.

(** Occurrences of a one-character string. *)
Lemma occurs_char c s : occurs [c] s <-> In c s.
Proof.
  split.
  - intros (a & b & ->). apply in_or_app. right. left. reflexivity.
  - intros H. apply in_split in H as (a & b & ->). exists a, b. reflexivity.
Qed.

Lemma first_split_char c a r :
  ~ In c a -> first_split [c] (a ++ [c] ++ r) a r.
Proof.
  intros Hc. split; [reflexivity|]. intros a' b' H.
  destruct (le_lt_dec (length a) (length a')) as [|Hlt]; [assumption|].
  exfalso. apply Hc. apply list_elem_of_In.
  apply (list_elem_of_lookup_2 _ (length a')).
  rewrite <- (lookup_app_l a ([c] ++ r)) by exact Hlt.
  rewrite H. apply list_lookup_middle. reflexivity.
Qed.

Lemma last_split_char c a r :
  ~ In c r -> last_split [c] (a ++ [c] ++ r) a r.
Proof.
  intros Hc. split; [reflexivity|]. intros a' b' H.
  destruct (le_lt_dec (length a') (length a)) as [|Hlt]; [assumption|].
  exfalso. apply Hc. apply list_elem_of_In.
  apply (list_elem_of_lookup_2 _ (length a' - length a - 1)).
  assert (E : (a ++ [c] ++ r) !! length a' = Some c).
  { rewrite H. apply list_lookup_middle. reflexivity. }
  rewrite lookup_app_r in E by lia.
  rewrite lookup_app_r in E by (simpl; lia).
  exact E.
Qed.

(** Slices. *)
Lemma slice_middle a m b :
  slice (a ++ m ++ b) (Z.of_nat (length a)) (Z.of_nat (length a + length m)) = m.
Proof.
  unfold slice, slice_index. rewrite !length_app.
  destruct (Z.ltb_spec (Z.of_nat (length a)) 0); [lia|].
  destruct (Z.ltb_spec (Z.of_nat (length a + length m)) 0); [lia|].
  rewrite !Z.min_l by lia.
  replace (Z.to_nat (Z.of_nat (length a + length m) - Z.of_nat (length a)))
    with (length m) by lia.
  rewrite Nat2Z.id, drop_app_length. apply take_app_length.
Qed.

(** With the stop index [-1], the slice loses the last character. *)
Lemma slice_to_minus_one a r :
  slice (a ++ r) (Z.of_nat (length a)) (-1) = removelast r.
Proof.
  unfold slice, slice_index. rewrite length_app.
  change (-1 <? 0) with true. cbv iota.
  destruct (Z.ltb_spec (Z.of_nat (length a)) 0); [lia|].
  rewrite (Z.min_l (Z.of_nat (length a))) by lia.
  rewrite Nat2Z.id, drop_app_length.
  rewrite removelast_firstn_len. f_equal. lia.
Qed.

Lemma head_solid_app x y : head_solid x = true -> head_solid (x ++ y) = true.
Proof. destruct x; [discriminate | trivial]. Qed.

Lemma last_solid_app x y : last_solid y = true -> last_solid (x ++ y) = true.
Proof. unfold last_solid. rewrite rev_app_distr. apply head_solid_app. Qed.

Lemma lstrip_solid x : head_solid x = true -> lstrip x = x.
Proof.
  destruct x as [|c x]; [discriminate|]. simpl.
  destruct (is_space c); [discriminate | reflexivity].
Qed.

Lemma lstrip_app_solid p x :
  head_solid x = true -> lstrip (p ++ x) = lstrip p ++ x.
Proof.
  intros H. induction p as [|c p IH]; simpl.
  - apply lstrip_solid, H.
  - destruct (is_space c); [exact IH | reflexivity].
Qed.

Lemma rstrip_app_solid x q :
  last_solid x = true -> rstrip (x ++ q) = x ++ rstrip q.
Proof.
  intros H. unfold rstrip. rewrite rev_app_distr.
  rewrite lstrip_app_solid by exact H.
  rewrite rev_app_distr, rev_involutive. reflexivity.
Qed.

Lemma strip_around p x q :
  head_solid x = true -> last_solid x = true ->
  strip (p ++ x ++ q) = lstrip p ++ x ++ rstrip q.
Proof.
  intros Hh Hl. unfold strip.
  rewrite lstrip_app_solid by (apply head_solid_app, Hh).
  rewrite !app_assoc. rewrite rstrip_app_solid by (apply last_solid_app, Hl).
  reflexivity.
Qed.

Lemma lstrip_all_space p : all_space p = true -> lstrip p = [].
Proof.
  induction p as [|c p IH]; simpl; [reflexivity|].
  intros H. apply andb_true_iff in H as [-> H]. exact (IH H).
Qed.

Lemma rstrip_all_space p : all_space p = true -> rstrip p = [].
Proof.
  intros H. unfold rstrip. rewrite lstrip_all_space; [reflexivity|].
  unfold all_space in *. rewrite forallb_forall in *.
  intros c Hc. apply H. apply in_rev. exact Hc.
Qed.

Lemma strip_padded p x q :
  all_space p = true -> all_space q = true ->
  head_solid x = true -> last_solid x = true ->
  strip (p ++ x ++ q) = x.
Proof.
  intros Hp Hq Hh Hl. rewrite strip_around by assumption.
  rewrite lstrip_all_space, rstrip_all_space by assumption.
  simpl. apply app_nil_r.
Qed.

Lemma strip_solid x :
  head_solid x = true -> last_solid x = true -> strip x = x.
Proof.
  intros Hh Hl. generalize (strip_padded [] x [] eq_refl eq_refl Hh Hl).
  simpl. rewrite app_nil_r. trivial.
Qed.

Lemma lstrip_head s : lstrip s = [] \/ head_solid (lstrip s) = true.
Proof.
  induction s as [|c s IH]; simpl; [left; reflexivity|].
  destruct (is_space c) eqn:E; [exact IH|]. right. simpl. now rewrite E.
Qed.

Lemma strip_last s : strip s = [] \/ last_solid (strip s) = true.
Proof.
  unfold strip, rstrip, last_solid. rewrite rev_involutive.
  destruct (lstrip_head (rev (lstrip s))) as [-> | H]; [left | right]; trivial.
Qed.

Lemma lstrip_suffix s : exists p, s = p ++ lstrip s /\ all_space p = true.
Proof.
  induction s as [|c s (p & Hp & Hs)]; simpl.
  - exists []. split; reflexivity.
  - destruct (is_space c) eqn:E.
    + exists (c :: p). split; [simpl; now rewrite <- Hp | simpl; now rewrite E].
    + exists []. split; reflexivity.
Qed.

Lemma rstrip_prefix s : exists q, s = rstrip s ++ q /\ all_space q = true.
Proof.
  unfold rstrip. destruct (lstrip_suffix (rev s)) as (p & Hp & Hs).
  exists (rev p). split.
  - rewrite <- rev_app_distr, <- Hp, rev_involutive. reflexivity.
  - unfold all_space in *. rewrite forallb_forall in *.
    intros c Hc. apply Hs. apply in_rev. exact Hc.
Qed.

Lemma strip_ends s :
  strip s = [] \/ (head_solid (strip s) = true /\ last_solid (strip s) = true).
Proof.
  destruct (strip_last s) as [E | E]; [left; exact E | right].
  split; [|exact E].
  destruct (lstrip_head s) as [E1 | E1].
  - unfold strip in E. rewrite E1 in E. discriminate.
  - destruct (rstrip_prefix (lstrip s)) as (q & Hq & _).
    fold (strip s) in Hq. destruct (strip s) as [|c r].
    + discriminate.
    + rewrite Hq in E1. exact E1.
Qed.

Lemma strip_idem s : strip (strip s) = strip s.
Proof.
  destruct (strip_ends s) as [E | [Eh El]].
  - rewrite E. reflexivity.
  - apply strip_solid; assumption.
Qed.

(** [strip] only removes whitespace at the two ends. *)
Lemma strip_decompose s :
  exists p q, s = p ++ strip s ++ q /\ all_space p = true /\ all_space q = true.
Proof.
  destruct (lstrip_suffix s) as (p & Hp & Hps).
  destruct (rstrip_prefix (lstrip s)) as (q & Hq & Hqs).
  exists p, q. split; [|split; assumption].
  unfold strip. rewrite <- Hq. exact Hp.
Qed.

Lemma _extract_json_steps response :
  _extract_json response = brace_slice (fence_candidate (strip response)).
Proof. reflexivity. Qed.

Lemma brace_slice_object a mid b :
  ~ In lbrace a -> ~ In rbrace b ->
  brace_slice (a ++ [lbrace] ++ mid ++ [rbrace] ++ b) = [lbrace] ++ mid ++ [rbrace].
Proof.
  intros Ha Hb. unfold brace_slice.
  change (lit "{") with [lbrace]. change (lit "}") with [rbrace].
  rewrite (find_first _ _ a (mid ++ [rbrace] ++ b))
    by (apply first_split_char, Ha).
  rewrite (rfind_last _ _ (a ++ [lbrace] ++ mid) b).
  2:{ replace (a ++ [lbrace] ++ mid ++ [rbrace] ++ b)
        with ((a ++ [lbrace] ++ mid) ++ [rbrace] ++ b)
        by (now rewrite <- !app_assoc).
      apply last_split_char, Hb. }
  replace (Z.of_nat (length (a ++ [lbrace] ++ mid)) + 1)
    with (Z.of_nat (length a + length ([lbrace] ++ mid ++ [rbrace])))
    by (rewrite !length_app; simpl length; lia).
  match goal with |- context [?x >=? 0] =>
    destruct (Z.geb_spec x 0); [|lia] end.
  match goal with |- context [?x >? ?y] =>
    destruct (Z.gtb_spec x y);
    [|rewrite !length_app in *; simpl length in *; lia] end.
  simpl andb. cbv iota.
  replace (a ++ [lbrace] ++ mid ++ [rbrace] ++ b)
    with (a ++ ([lbrace] ++ mid ++ [rbrace]) ++ b)
    by (now rewrite <- !app_assoc).
  apply slice_middle.
Qed.

Lemma brace_slice_no_open s : ~ In lbrace s -> brace_slice s = s.
Proof.
  intros H. unfold brace_slice. change (lit "{") with [lbrace].
  rewrite find_none by (rewrite occurs_char; exact H). reflexivity.
Qed.

Lemma brace_slice_no_close s : ~ In rbrace s -> brace_slice s = s.
Proof.
  intros H. unfold brace_slice.
  change (lit "{") with [lbrace]. change (lit "}") with [rbrace].
  rewrite rfind_none by (rewrite occurs_char; exact H).
  destruct (find_from_spec [lbrace] s 0) as [[E _] | (p & q & _ & E)];
    rewrite find_0, E.
  - reflexivity.
  - destruct (Z.geb_spec (0 + Z.of_nat (length p)) 0); [|lia].
    destruct (Z.gtb_spec (-1 + 1) (0 + Z.of_nat (length p))); [lia|].
    reflexivity.
Qed.

(** A first occurrence can be checked by running [find]. *)
Lemma first_split_by_find sub s pre post :
  s = pre ++ sub ++ post -> find s sub 0 = Z.of_nat (length pre) ->
  first_split sub s pre post.
Proof.
  intros Hs Hf. split; [exact Hs|]. intros a b Hab.
  rewrite find_0 in Hf.
  destruct (find_from_spec sub s 0) as [[E _] | (p & q & [_ Hmin] & E)].
  - lia.
  - apply Hmin in Hab. lia.
Qed.

Lemma occurs_fence_json s : occurs fence_json s -> occurs fence s.
Proof.
  intros (a & b & ->). exists a, (lit "json" ++ b).
  change fence_json with (fence ++ lit "json"). now rewrite <- !app_assoc.
Qed.

Lemma occurs_inside sub p s q : occurs sub s -> occurs sub (p ++ s ++ q).
Proof.
  intros (a & b & ->). exists (p ++ a), (b ++ q). now rewrite <- !app_assoc.
Qed.

Lemma occurs_strip sub s : occurs sub (strip s) -> occurs sub s.
Proof.
  intros H. destruct (strip_decompose s) as (p & q & Hs & _).
  rewrite Hs. apply occurs_inside, H.
Qed.

(** Occurrences of a string with solid ends survive [strip], at the same
    place relative to the text. *)
Lemma first_split_strip sub s pre post :
  head_solid sub = true -> last_solid sub = true ->
  first_split sub s pre post ->
  first_split sub (strip s) (lstrip pre) (rstrip post).
Proof.
  intros Hh Hl [Hs Hmin]. split.
  - rewrite Hs. apply strip_around; assumption.
  - intros a b Hab.
    destruct (lstrip_suffix pre) as (p & Hp & _).
    destruct (rstrip_prefix post) as (q & Hq & _).
    assert (E : s = (p ++ a) ++ sub ++ (b ++ q)).
    { rewrite <- !app_assoc.
      replace (a ++ sub ++ b ++ q) with ((a ++ sub ++ b) ++ q)
        by (now rewrite <- !app_assoc).
      rewrite <- Hab, Hs. rewrite strip_around by assumption.
      rewrite <- !app_assoc. rewrite <- Hq.
      rewrite (app_assoc p), <- Hp. reflexivity. }
    apply Hmin in E. rewrite length_app in E.
    rewrite Hp in E at 1. rewrite length_app in E. lia.
Qed.

Lemma first_split_shorten sub body post q :
  first_split sub (body ++ sub ++ post ++ q) body (post ++ q) ->
  first_split sub (body ++ sub ++ post) body post.
Proof.
  intros [_ Hmin]. split; [reflexivity|]. intros a b Hab.
  apply (Hmin a (b ++ q)).
  replace (a ++ sub ++ b ++ q) with ((a ++ sub ++ b) ++ q)
    by (now rewrite <- !app_assoc).
  rewrite <- Hab. now rewrite <- !app_assoc.
Qed.

(** *** The candidate in the three cases *)

Lemma candidate_marked cleaned pre body post :
  first_split fence_json cleaned pre (body ++ fence ++ post) ->
  first_split fence (body ++ fence ++ post) body post ->
  fence_candidate cleaned = strip body.
Proof.
  intros H1 H2. unfold fence_candidate.
  assert (Hc : contains fence_json cleaned = true).
  { apply contains_true. exists pre, (body ++ fence ++ post). apply H1. }
  rewrite Hc, (find_first _ _ _ _ H1).
  assert (Hs : cleaned = (pre ++ fence_json) ++ body ++ fence ++ post).
  { rewrite <- app_assoc. apply H1. }
  replace (Z.of_nat (length pre) + 7)
    with (Z.of_nat (length (pre ++ fence_json)))
    by (rewrite length_app; simpl length; lia).
  rewrite (find_after_first _ _ _ _ _ Hs H2).
  rewrite Hs at 1. rewrite slice_middle. reflexivity.
Qed.

Lemma candidate_plain cleaned pre body post :
  ~ occurs fence_json cleaned ->
  first_split fence cleaned pre (body ++ fence ++ post) ->
  first_split fence (body ++ fence ++ post) body post ->
  fence_candidate cleaned = strip body.
Proof.
  intros H0 H1 H2. unfold fence_candidate.
  apply contains_false in H0. rewrite H0.
  assert (Hc : contains fence cleaned = true).
  { apply contains_true. exists pre, (body ++ fence ++ post). apply H1. }
  rewrite Hc, (find_first _ _ _ _ H1).
  assert (Hs : cleaned = (pre ++ fence) ++ body ++ fence ++ post).
  { rewrite <- app_assoc. apply H1. }
  replace (Z.of_nat (length pre) + 3)
    with (Z.of_nat (length (pre ++ fence)))
    by (rewrite length_app; simpl length; lia).
  rewrite (find_after_first _ _ _ _ _ Hs H2).
  rewrite Hs at 1. rewrite slice_middle. reflexivity.
Qed.

Lemma candidate_none cleaned :
  ~ occurs fence cleaned -> fence_candidate cleaned = cleaned.
Proof.
  intros H. unfold fence_candidate.
  assert (H0 : ~ occurs fence_json cleaned)
    by (intros H0; apply H, occurs_fence_json, H0).
  apply contains_false in H0, H. now rewrite H0, H.
Qed.

(** An opened marked fence that is never closed: the search for the
    closing marker gives [-1], and the slice ends one character early. *)
Lemma candidate_marked_open cleaned pre rest :
  first_split fence_json cleaned pre rest ->
  ~ occurs fence rest ->
  find cleaned fence (find cleaned fence_json 0 + 7) = -1 /\
  fence_candidate cleaned = strip (removelast rest).
Proof.
  intros H1 H2. unfold fence_candidate.
  assert (Hc : contains fence_json cleaned = true).
  { apply contains_true. exists pre, rest. apply H1. }
  rewrite Hc, (find_first _ _ _ _ H1).
  assert (Hs : cleaned = (pre ++ fence_json) ++ rest).
  { rewrite <- app_assoc. apply H1. }
  replace (Z.of_nat (length pre) + 7)
    with (Z.of_nat (length (pre ++ fence_json)))
    by (rewrite length_app; simpl length; lia).
  rewrite (find_after_none _ _ _ _ Hs H2). split; [reflexivity|].
  rewrite Hs at 1. rewrite slice_to_minus_one. reflexivity.
Qed.

Lemma fence_solid : head_solid fence = true /\ last_solid fence = true.
Proof. split; reflexivity. Qed.

Lemma fence_json_solid :
  head_solid fence_json = true /\ last_solid fence_json = true.
Proof. split; reflexivity. Qed.

Lemma fenced_text_candidate reply text :
  fenced_text reply text -> fence_candidate (strip reply) = strip text.
Proof.
  destruct fence_solid as [Fh Fl]. destruct fence_json_solid as [Jh Jl].
  intros [pre body post H1 H2 | pre body post H0 H1 H2 | H0].
  - apply (first_split_strip _ _ _ _ Jh Jl) in H1.
    rewrite app_assoc in H1.
    rewrite rstrip_app_solid in H1 by (apply last_solid_app, Fl).
    rewrite <- app_assoc in H1.
    apply (candidate_marked _ _ _ _ H1).
    destruct (rstrip_prefix post) as (q & Hq & _).
    rewrite Hq in H2 at 1 2. apply first_split_shorten in H2. exact H2.
  - apply (first_split_strip _ _ _ _ Fh Fl) in H1.
    rewrite app_assoc in H1.
    rewrite rstrip_app_solid in H1 by (apply last_solid_app, Fl).
    rewrite <- app_assoc in H1.
    apply (candidate_plain _ _ _ _ (fun H => H0 (occurs_strip _ _ H)) H1).
    destruct (rstrip_prefix post) as (q & Hq & _).
    rewrite Hq in H2 at 1 2. apply first_split_shorten in H2. exact H2.
  - rewrite candidate_none; [|intros H; apply H0, occurs_strip, H].
    reflexivity.
Qed.

Lemma in_lstrip c s : In c (lstrip s) -> In c s.
Proof.
  destruct (lstrip_suffix s) as (p & Hp & _). intros H.
  rewrite Hp. apply in_or_app. right. exact H.
Qed.

Lemma in_rstrip c s : In c (rstrip s) -> In c s.
Proof.
  destruct (rstrip_prefix s) as (q & Hq & _). intros H.
  rewrite Hq. apply in_or_app. left. exact H.
Qed.

Lemma braces_solid mid :
  head_solid ([lbrace] ++ mid ++ [rbrace]) = true /\
  last_solid ([lbrace] ++ mid ++ [rbrace]) = true.
Proof.
  split; [reflexivity|]. unfold last_solid.
  rewrite !rev_app_distr. reflexivity.
Qed.

Lemma object_of_strip text out : object_of text out -> object_of (strip text) out.
Proof.
  intros (a & mid & b & Hc & Ha & Hb & ->).
  destruct (braces_solid mid) as [Hh Hl].
  exists (lstrip a), mid, (rstrip b). repeat split.
  - rewrite Hc.
    replace (a ++ [lbrace] ++ mid ++ [rbrace] ++ b)
      with (a ++ ([lbrace] ++ mid ++ [rbrace]) ++ b)
      by (now rewrite <- !app_assoc).
    rewrite strip_around by assumption. now rewrite <- !app_assoc.
  - intros H. apply Ha, in_lstrip, H.
  - intros H. apply Hb, in_rstrip, H.
Qed.

(** C5, as amended — the extraction algorithm, for the replies whose
    fence, if they have one, is closed, and whose candidate has an opening
    brace before its last closing brace: the candidate is the inside of
    the marked fence if there is one, else the inside of the first fence,
    else the whole reply; the result is the candidate cut from its first
    opening brace to its last closing brace, both included.  For the reply
    "Here you go: / ```json / {...Paris...} / ``` / Enjoy!" this is exactly
    the JSON object. *)
Theorem extract_json_algorithm :
  (forall reply text out,
      fenced_text reply text -> object_of text out ->
      _extract_json reply = out) /\
  _extract_json paris_reply = paris_object.
Proof.
  split; [|vm_compute; reflexivity].
  intros reply text out Ht Ho.
  apply object_of_strip in Ho as (a & mid & b & Hc & Ha & Hb & ->).
  rewrite _extract_json_steps, (fenced_text_candidate _ _ Ht), Hc.
  apply brace_slice_object; assumption.
Qed.

Lemma extract_json_algorithm_witness :
  fenced_text paris_reply (nl ++ paris_object ++ nl) /\
  object_of (nl ++ paris_object ++ nl) paris_object /\
  _extract_json paris_reply = paris_object.
Proof.
  assert (Ht : fenced_text paris_reply (nl ++ paris_object ++ nl)).
  { apply (marked_fence _ (lit "Here you go:" ++ nl) _ (nl ++ lit "Enjoy!"));
      apply first_split_by_find; vm_compute; reflexivity. }
  assert (Ho : object_of (nl ++ paris_object ++ nl) paris_object).
  { exists nl, (lit_dq "'location':'Paris','weather_type':'current'"), nl.
    repeat split; try (vm_compute; reflexivity);
      intros [H | []]; discriminate H. }
  split; [exact Ht|]. split; [exact Ho|].
  exact (proj1 extract_json_algorithm _ _ _ Ht Ho).
Defined.

(** C5, as stated, fails: the reply of a closing and an opening brace has
    no fence, so it is its own candidate; the slice from its first opening
    to its last closing brace is empty; the code tests the two positions
    and returns the reply as it is. *)
Lemma extract_json_algorithm_counterexample :
  fenced_text (lit "}{") (lit "}{") /\
  described_slice (lit "}{") = [] /\
  _extract_json (lit "}{") = lit "}{".
Proof.
  split; [|split; vm_compute; reflexivity].
  apply no_fence. apply contains_false. vm_compute. reflexivity.
Qed.

(** ** Bare objects and unclosed fences *)

Lemma extract_bare ws1 body ws2 :
  all_space ws1 = true -> all_space ws2 = true ->
  ~ occurs fence ([lbrace] ++ body ++ [rbrace]) ->
  _extract_json (ws1 ++ ([lbrace] ++ body ++ [rbrace]) ++ ws2)
  = [lbrace] ++ body ++ [rbrace].
Proof.
  intros H1 H2 Hf. destruct (braces_solid body) as [Hh Hl].
  rewrite _extract_json_steps, strip_padded by assumption.
  rewrite candidate_none by exact Hf.
  apply (brace_slice_object [] body []); intros [].
Qed.

(** C9, as amended — a text that holds only a brace-delimited object
    without triple backticks, possibly surrounded by whitespace, is
    returned without the whitespace and otherwise unchanged; extracting
    twice gives the same as extracting once. *)
Theorem extract_json_bare_object ws1 body ws2 :
  all_space ws1 = true -> all_space ws2 = true ->
  ~ occurs fence ([lbrace] ++ body ++ [rbrace]) ->
  let text := ws1 ++ ([lbrace] ++ body ++ [rbrace]) ++ ws2 in
  _extract_json text = [lbrace] ++ body ++ [rbrace] /\
  _extract_json (_extract_json text) = _extract_json text.
Proof.
  intros H1 H2 Hf text. unfold text.
  rewrite (extract_bare ws1 body ws2 H1 H2 Hf). split; [reflexivity|].
  generalize (extract_bare [] body [] eq_refl eq_refl Hf).
  simpl. rewrite !app_nil_r. trivial.
Qed.

Lemma extract_json_bare_object_witness :
  let body := lit_dq "'location':'Paris'" in
  _extract_json (lit " " ++ ([lbrace] ++ body ++ [rbrace]) ++ nl)
  = [lbrace] ++ body ++ [rbrace] /\
  _extract_json (_extract_json (lit " " ++ ([lbrace] ++ body ++ [rbrace]) ++ nl))
  = _extract_json (lit " " ++ ([lbrace] ++ body ++ [rbrace]) ++ nl).
Proof.
  intros body.
  apply (extract_json_bare_object (lit " ") body nl); try reflexivity.
  apply contains_false. vm_compute. reflexivity.
Defined.

(** C9, as stated, fails for an object with a string value that holds
    three backticks: the parser takes them for a fence and returns a
    single double quote. *)
Lemma extract_json_bare_object_counterexample :
  backtick_object = [lbrace] ++ lit_dq "'a':'```'" ++ [rbrace] /\
  _extract_json backtick_object = lit_dq "'" /\
  _extract_json backtick_object <> backtick_object.
Proof.
  split; [reflexivity|]. split; [vm_compute; reflexivity|].
  vm_compute. discriminate.
Qed.

Lemma occurs_tail sub c d s :
  c <> d -> occurs (d :: sub) (c :: s) -> occurs (d :: sub) s.
Proof.
  intros Hcd (a & b & Hab). destruct a as [|a0 a].
  - injection Hab as H _. congruence.
  - injection Hab as _ Hab. exists a, b. exact Hab.
Qed.

Lemma extract_unclosed reply pre rest :
  first_split fence_json (strip reply) pre rest ->
  ~ occurs fence rest ->
  find (strip reply) fence (find (strip reply) fence_json 0 + 7) = -1 /\
  _extract_json reply = brace_slice (strip (removelast rest)).
Proof.
  intros H1 H2. rewrite _extract_json_steps.
  destruct (candidate_marked_open _ _ _ H1 H2) as [E1 E2].
  split; [exact E1 | now rewrite E2].
Qed.

(** C10, as amended — when the stripped reply holds the marked opener and
    no fence marker after it, the search for the closing marker gives -1
    and the candidate is the text after the opener without the last
    character of the stripped reply; it is then stripped and cut at its
    braces as usual.  For a reply made of the opener, a newline and an
    object whose only closing brace is its last character, with no
    whitespace just before it, the result is the object without its
    closing brace. *)
Theorem extract_json_unclosed_fence :
  (forall reply pre rest,
      first_split fence_json (strip reply) pre rest ->
      ~ occurs fence rest ->
      find (strip reply) fence (find (strip reply) fence_json 0 + 7) = -1 /\
      _extract_json reply = brace_slice (strip (removelast rest))) /\
  (forall body,
      ~ occurs fence ([lbrace] ++ body ++ [rbrace]) ->
      ~ In rbrace body ->
      last_solid (lbrace :: body) = true ->
      _extract_json (fence_json ++ nl ++ [lbrace] ++ body ++ [rbrace])
      = lbrace :: body).
Proof.
  split; [exact extract_unclosed|].
  intros body Hf Hr Hl.
  set (reply := fence_json ++ nl ++ [lbrace] ++ body ++ [rbrace]).
  assert (Hs : strip reply = reply).
  { apply strip_solid; [reflexivity|]. unfold reply.
    rewrite !app_assoc. unfold last_solid. rewrite rev_app_distr. reflexivity. }
  assert (H1 : first_split fence_json (strip reply) []
                 (nl ++ [lbrace] ++ body ++ [rbrace])).
  { rewrite Hs. split; [reflexivity | intros; simpl; lia]. }
  assert (H2 : ~ occurs fence (nl ++ [lbrace] ++ body ++ [rbrace])).
  { intros H. apply Hf. revert H. apply occurs_tail. discriminate. }
  destruct (extract_unclosed reply _ _ H1 H2) as [_ ->].
  replace (nl ++ [lbrace] ++ body ++ [rbrace])
    with ((nl ++ [lbrace] ++ body) ++ [rbrace])
    by (now rewrite <- !app_assoc).
  rewrite removelast_last.
  replace (nl ++ [lbrace] ++ body) with (nl ++ (lbrace :: body) ++ [])
    by (now rewrite app_nil_r).
  rewrite strip_padded by (reflexivity || assumption).
  apply brace_slice_no_close. intros [H | H]; [discriminate H | exact (Hr H)].
Qed.

Lemma extract_json_unclosed_fence_witness :
  _extract_json (lit "Sure: ```json" ++ nl ++ lit_dq "{'a':1}" ++ nl)
  = brace_slice (strip (removelast (nl ++ lit_dq "{'a':1}"))) /\
  _extract_json (fence_json ++ nl ++ [lbrace] ++ lit_dq "'a':1" ++ [rbrace])
  = lbrace :: lit_dq "'a':1".
Proof.
  split.
  - apply (proj1 extract_json_unclosed_fence
             (lit "Sure: ```json" ++ nl ++ lit_dq "{'a':1}" ++ nl)
             (lit "Sure: ") (nl ++ lit_dq "{'a':1}")).
    + apply first_split_by_find; vm_compute; reflexivity.
    + apply contains_false. vm_compute. reflexivity.
  - apply (proj2 extract_json_unclosed_fence (lit_dq "'a':1")).
    + apply contains_false. vm_compute. reflexivity.
    + vm_compute. intuition discriminate.
    + reflexivity.
Defined.

(** C10, as stated, fails in its particular case: after the unclosed
    opener, an object with an inner closing brace is cut after that brace,
    and whitespace before the closing brace is lost as well. *)
Lemma extract_json_unclosed_fence_counterexample :
  (_extract_json (fence_json ++ nl ++ nested_object) = lit_dq "{'a':{'b':1}" /\
   _extract_json (fence_json ++ nl ++ nested_object) <> removelast nested_object) /\
  (_extract_json (fence_json ++ nl ++ spaced_object) = lit_dq "{'a':1" /\
   _extract_json (fence_json ++ nl ++ spaced_object) <> removelast spaced_object).
Proof.
  repeat split; vm_compute; (reflexivity || discriminate).
Qed.


(** ** The regular expression matcher *)

Lemma backtrack_sound {A} (f : nat -> option A) lo k r :
  backtrack f lo k = Some r -> exists j, (lo <= j <= k)%nat /\ f j = Some r.
Proof.
  induction k as [|k IH]; simpl.
  - destruct (Nat.ltb_spec 0 lo); [discriminate|].
    destruct (f 0%nat) eqn:E; [|discriminate].
    intros [= ->]. exists 0%nat. split; [lia | exact E].
  - destruct (Nat.ltb_spec (S k) lo); [discriminate|].
    destruct (f (S k)) eqn:E.
    + intros [= ->]. exists (S k). split; [lia | exact E].
    + intros Hb. destruct (IH Hb) as (j & Hj & Hf).
      exists j. split; [lia | exact Hf].
Qed.

Lemma backtrack_complete {A} (f : nat -> option A) lo k j :
  (lo <= j <= k)%nat -> is_Some (f j) -> is_Some (backtrack f lo k).
Proof.
  intros Hj Hf. induction k as [|k IH]; simpl.
  - destruct (Nat.ltb_spec 0 lo); [lia|].
    replace j with 0%nat in Hf by lia.
    destruct (f 0%nat); [eauto | destruct Hf; discriminate].
  - destruct (Nat.ltb_spec (S k) lo); [lia|].
    destruct (f (S k)) eqn:E; [eauto|].
    apply IH. destruct (Nat.eq_dec j (S k)) as [-> |];
      [rewrite E in Hf; destruct Hf; discriminate | lia].
Qed.

Lemma match_here_sound pat : forall pos rest opened groups spans,
  match_here pat pos rest opened groups = Some spans ->
  matches pat pos rest opened groups spans.
Proof.
  induction pat as [|n pat IH]; intros pos rest opened groups spans; simpl.
  - intros [= <-]. constructor.
  - destruct n as [p q | | | |].
    + intros Hb. apply backtrack_sound in Hb as (k & Hk & Hm).
      apply (matches_chars _ _ _ _ _ _ _ k); [exact Hk | apply IH, Hm].
    + intros Hm. constructor. apply IH, Hm.
    + destruct opened as [|o os]; [discriminate|].
      intros Hm. constructor. apply IH, Hm.
    + destruct (Nat.eqb_spec pos 0) as [-> |]; [|discriminate].
      intros Hm. constructor. apply IH, Hm.
    + destruct (at_dollar rest) eqn:E; [|discriminate].
      intros Hm. constructor; [exact E | apply IH, Hm].
Qed.

Lemma match_here_complete pat pos rest opened groups spans :
  matches pat pos rest opened groups spans ->
  is_Some (match_here pat pos rest opened groups).
Proof.
  induction 1; simpl; eauto.
  - rewrite H. assumption.
  - apply (backtrack_complete _ _ _ k); assumption.
Qed.

Lemma run_length_take p s k :
  (k <= run_length p s)%nat ->
  forallb p (take k s) = true /\ length (take k s) = k.
Proof.
  revert k. induction s as [|c s IH]; intros k; simpl.
  - intros Hk. replace k with 0%nat by lia. split; reflexivity.
  - destruct k as [|k]; [split; reflexivity|].
    destruct (p c) eqn:E; [|lia]. intros Hk.
    destruct (IH k) as [H1 H2]; [lia|]. simpl. rewrite E, H1, H2.
    split; reflexivity.
Qed.

Lemma run_length_app p a b :
  forallb p a = true -> (length a <= run_length p (a ++ b))%nat.
Proof.
  induction a as [|c a IH]; simpl; [lia|].
  intros H. apply andb_true_iff in H as [-> H]. apply IH in H. lia.
Qed.

Lemma most_mono q a b : (a <= b)%nat -> (most q a <= most q b)%nat.
Proof. destruct q; unfold most; lia. Qed.

Lemma matches_chars_inv p q pat pos rest opened groups spans :
  matches (Chars p q :: pat) pos rest opened groups spans ->
  exists piece rest',
    rest = piece ++ rest' /\ forallb p piece = true /\
    (least q <= length piece <= most q (length piece))%nat /\
    matches pat (pos + length piece) rest' opened groups spans.
Proof.
  inversion 1 as [| | | | |p' q' pat' pos' rest0 op gr k sp Hk Hm]; subst.
  assert (Hrun : (k <= run_length p rest)%nat)
    by (destruct q; unfold most in Hk; lia).
  destruct (run_length_take p rest k Hrun) as [Hall Hlen].
  exists (take k rest), (drop k rest). rewrite Hlen.
  repeat split; try assumption.
  - symmetry. apply take_drop.
  - lia.
  - destruct q; unfold most, least in *; lia.
Qed.

Lemma matches_chars_intro p q pat pos piece rest' opened groups spans :
  forallb p piece = true ->
  (least q <= length piece <= most q (length piece))%nat ->
  matches pat (pos + length piece) rest' opened groups spans ->
  matches (Chars p q :: pat) pos (piece ++ rest') opened groups spans.
Proof.
  intros Hall Hlen Hm. apply (matches_chars _ _ _ _ _ _ _ (length piece)).
  - split; [lia|].
    apply Nat.le_trans with (most q (length piece)); [lia|].
    apply most_mono, run_length_app, Hall.
  - rewrite drop_app_length. exact Hm.
Qed.

Section CoordinatePattern.
Context `{PyLib}.

Lemma number_group_inv pat pos rest opened groups spans :
  matches (number_group ++ pat) pos rest opened groups spans ->
  exists t rest',
    rest = t ++ rest' /\ group_text t /\
    matches pat (pos + length t) rest' opened
            ((pos, pos + length t)%nat :: groups) spans.
Proof.
  simpl. inversion 1 as [| | |pat0 pos0 rest0 op gr sp Hm| |]; subst.
  apply matches_chars_inv in Hm as (sign & r1 & -> & Hs & Hsl & Hm).
  apply matches_chars_inv in Hm as (ip & r2 & -> & Hi & Hil & Hm).
  apply matches_chars_inv in Hm as (dot & r3 & -> & Hd & Hdl & Hm).
  apply matches_chars_inv in Hm as (fp & r4 & -> & Hf & Hfl & Hm).
  inversion Hm as [| | | |pat0 pos0 rest0 o op gr sp Hm'|]; subst.
  exists (sign ++ ip ++ dot ++ fp), r4. split; [now rewrite <- !app_assoc|].
  split.
  - exists sign, ip, dot, fp. unfold most, least in *.
    repeat split; try assumption; lia.
  - replace (pos + length (sign ++ ip ++ dot ++ fp))%nat
      with (pos + length sign + length ip + length dot + length fp)%nat
      by (rewrite !length_app; lia).
    exact Hm'.
Qed.

Lemma number_group_intro pat pos t rest' opened groups spans :
  group_text t ->
  matches pat (pos + length t) rest' opened
          ((pos, pos + length t)%nat :: groups) spans ->
  matches (number_group ++ pat) pos (t ++ rest') opened groups spans.
Proof.
  intros (sign & ip & dot & fp & -> & Hs & Hsl & Hi & Hil & Hd & Hdl & Hf) Hm.
  simpl. constructor. rewrite <- !app_assoc.
  apply matches_chars_intro; [exact Hs | unfold most, least; lia|].
  apply matches_chars_intro; [exact Hi | unfold most, least; lia|].
  apply matches_chars_intro; [exact Hd | unfold most, least; lia|].
  apply matches_chars_intro; [exact Hf | unfold most, least; lia|].
  constructor.
  replace (pos + length (sign ++ ip ++ dot ++ fp))%nat
    with (pos + length sign + length ip + length dot + length fp)%nat in Hm
    by (rewrite !length_app; lia).
  exact Hm.
Qed.

Lemma coord_pattern_inv s spans :
  matches coord_pattern 0 s [] [] spans ->
  exists n1 sep n2 tail,
    coord_shape s n1 sep n2 tail /\ spans = coord_spans n1 sep n2.
Proof.
  unfold coord_pattern. simpl ([Caret] ++ _).
  inversion 1 as [|pat0 rest0 op gr sp Hm| | | |]; subst.
  apply number_group_inv in Hm as (n1 & r1 & -> & Hn1 & Hm).
  simpl ([_] ++ _) in Hm.
  apply matches_chars_inv in Hm as (sep & r2 & -> & Hsep & Hsl & Hm).
  apply number_group_inv in Hm as (n2 & r3 & -> & Hn2 & Hm).
  inversion Hm as [| |pat0 pos0 rest0 op gr sp Hd Hm'| | |]; subst.
  inversion Hm'; subst.
  exists n1, sep, n2, r3. split.
  - repeat split; try assumption. unfold least in Hsl. lia.
  - reflexivity.
Qed.

Lemma coord_pattern_intro s n1 sep n2 tail :
  coord_shape s n1 sep n2 tail ->
  matches coord_pattern 0 s [] [] (coord_spans n1 sep n2).
Proof.
  intros (-> & Hn1 & Hsep & Hsl & Hn2 & Hd).
  unfold coord_pattern. simpl ([Caret] ++ _).
  constructor. apply number_group_intro; [exact Hn1|].
  simpl ([_] ++ _). apply matches_chars_intro; [exact Hsep | unfold most, least; lia|].
  apply number_group_intro; [exact Hn2|].
  constructor; [exact Hd|].
  apply (matches_nil _ _ _ [(_, _); (_, _)]).
Qed.
End CoordinatePattern.

(** ** The coordinate matcher *)

Section CoordinateMatcher.
Context `{PyLib}.

Lemma digit_solid c : digit c = true -> is_separator c = false.
Proof.
  unfold digit, is_digit, is_separator.
  destruct (unicode_decimal c) as [d|] eqn:E; [|discriminate]. intros _.
  destruct (decimal_solid c d E) as [-> Hc].
  destruct (N.eqb_spec c comma); [contradiction | reflexivity].
Qed.

Lemma numeric_solid c : is_numeric c = true -> is_separator c = false.
Proof.
  unfold is_numeric. rewrite !orb_true_iff. intros [[Hc | Hc] | Hc].
  - apply N.eqb_eq in Hc as ->. reflexivity.
  - apply digit_solid, Hc.
  - apply N.eqb_eq in Hc as ->. reflexivity.
Qed.

Lemma separator_not_numeric c : is_separator c = true -> is_numeric c = false.
Proof.
  intros Hs. destruct (is_numeric c) eqn:E; [|reflexivity].
  apply numeric_solid in E. congruence.
Qed.

Lemma forallb_weaken (p q : char -> bool) (s : str) :
  (forall c, p c = true -> q c = true) ->
  forallb p s = true -> forallb q s = true.
Proof.
  intros Hpq. rewrite !forallb_forall. intros Hp c Hc. apply Hpq, Hp, Hc.
Qed.

Lemma group_text_numeric t : group_text t -> forallb is_numeric t = true.
Proof.
  intros (sign & ip & dot & fp & -> & Hs & _ & Hi & _ & Hd & _ & Hf).
  rewrite !forallb_app.
  rewrite (forallb_weaken is_minus is_numeric sign), (forallb_weaken digit is_numeric ip),
    (forallb_weaken is_period is_numeric dot), (forallb_weaken digit is_numeric fp);
    try assumption; try reflexivity;
    unfold is_numeric; intros c Hc; rewrite Hc, ?orb_true_r; reflexivity.
Qed.

Lemma group_text_head t :
  group_text t -> exists c r, t = c :: r /\ is_numeric c = true.
Proof.
  intros Ht. pose proof (group_text_numeric t Ht) as Hn.
  destruct Ht as (sign & ip & dot & fp & -> & _ & _ & _ & Hil & _).
  destruct sign as [|c r]; [destruct ip as [|c r]; [simpl in Hil; lia|]|];
    simpl in *; apply andb_true_iff in Hn as [Hc _]; eauto.
Qed.

(** A subject has at most one reading as numeral, separators, numeral. *)
Lemma coord_shape_unique s n1 sep n2 n1' sep' n2' tail' :
  coord_shape s n1 sep n2 [] -> coord_shape s n1' sep' n2' tail' ->
  n1 = n1' /\ sep = sep' /\ n2 = n2' /\ tail' = [].
Proof.
  intros (Hs & Hn1 & Hsep & Hsl & Hn2 & _)
         (Hs' & Hn1' & Hsep' & Hsl' & Hn2' & Hd').
  assert (Hsplit : forall a b c d, s = a ++ b ++ c ++ d ->
            group_text a -> forallb is_separator b = true ->
            (1 <= length b)%nat -> group_text c ->
            span is_numeric s = (a, b ++ c ++ d) /\
            span is_separator (b ++ c ++ d) = (b, c ++ d)).
  { intros a b c d -> Ha Hb Hbl Hc. split.
    - apply span_app; [apply group_text_numeric, Ha|].
      destruct b as [|x b]; [simpl in Hbl; lia|]. simpl in *.
      apply andb_true_iff in Hb as [Hx _].
      apply separator_not_numeric, Hx.
    - apply span_app; [exact Hb|].
      destruct (group_text_head c Hc) as (x & r & -> & Hx). simpl.
      apply numeric_solid, Hx. }
  destruct (Hsplit _ _ _ _ Hs Hn1 Hsep Hsl Hn2) as [E1 E2].
  destruct (Hsplit _ _ _ _ Hs' Hn1' Hsep' Hsl' Hn2') as [E1' E2'].
  rewrite E1 in E1'. injection E1' as -> E.
  rewrite E in E2. rewrite E2 in E2'. injection E2' as -> E'.
  split; [reflexivity|]. split; [reflexivity|].
  rewrite app_nil_r in E'.
  destruct tail' as [|x [|y tail']]; simpl in Hd'; try discriminate.
  - rewrite app_nil_r in E'. auto.
  - exfalso. apply N.eqb_eq in Hd' as ->.
    pose proof (group_text_numeric _ Hn2) as Hnum.
    rewrite E', forallb_app in Hnum.
    apply andb_true_iff in Hnum as [_ Hnum]. simpl in Hnum.
    rewrite (separator_not_numeric 10%N eq_refl) in Hnum. discriminate.
Qed.

Lemma coord_spans_texts s n1 sep n2 tail :
  s = n1 ++ sep ++ n2 ++ tail ->
  List.map (fun '(a, b) => take (b - a) (drop a s)) (coord_spans n1 sep n2)
  = [n1; n2].
Proof.
  intros ->. unfold coord_spans. simpl List.map. f_equal; [|f_equal].
  - rewrite Nat.sub_0_r. simpl drop. apply take_app_length.
  - rewrite app_assoc, <- length_app, drop_app_length.
    replace (length (n1 ++ sep) + length n2 - length (n1 ++ sep))%nat
      with (length n2) by lia.
    apply take_app_length.
Qed.

Lemma re_match_coord_inv s groups :
  re_match coord_pattern s = Some groups ->
  exists n1 sep n2 tail,
    coord_shape s n1 sep n2 tail /\ groups = [n1; n2].
Proof.
  unfold re_match.
  destruct (match_here coord_pattern 0 s [] []) as [spans|] eqn:E;
    [|discriminate].
  intros [= <-]. apply match_here_sound, coord_pattern_inv in E
    as (n1 & sep & n2 & tail & Hshape & ->).
  exists n1, sep, n2, tail. split; [exact Hshape|].
  apply (coord_spans_texts _ _ _ _ tail), Hshape.
Qed.

Lemma re_match_coord_some s n1 sep n2 :
  coord_shape s n1 sep n2 [] ->
  re_match coord_pattern s = Some [n1; n2].
Proof.
  intros Hshape.
  destruct (match_here_complete _ _ _ _ _ _ (coord_pattern_intro _ _ _ _ _ Hshape))
    as [spans E].
  destruct (re_match coord_pattern s) as [groups|] eqn:Er.
  - apply re_match_coord_inv in Er as (n1' & sep' & n2' & tail' & Hshape' & ->).
    destruct (coord_shape_unique _ _ _ _ _ _ _ _ Hshape Hshape')
      as (-> & _ & -> & _).
    reflexivity.
  - unfold re_match in Er. rewrite E in Er. discriminate.
Qed.

Lemma re_match_coord_none s :
  (forall n1 sep n2 tail, ~ coord_shape s n1 sep n2 tail) ->
  re_match coord_pattern s = None.
Proof.
  intros Hno. destruct (re_match coord_pattern s) as [groups|] eqn:Er;
    [|reflexivity].
  apply re_match_coord_inv in Er as (n1 & sep & n2 & tail & Hshape & _).
  destruct (Hno _ _ _ _ Hshape).
Qed.

(** The group of the pattern matches the numerals, and nothing else. *)
Lemma group_text_numeral t : group_text t <-> numeral unicode_decimal t.
Proof.
  split.
  - intros (sign & ip & dot & fp & -> & Hs & Hsl & Hi & Hil & Hd & Hdl & Hf).
    assert (Hsign : sign = [] \/ sign = [minus_sign]).
    { destruct sign as [|c [|c' r]]; [auto | | simpl in Hsl; lia].
      simpl in Hs. rewrite andb_true_r in Hs.
      apply N.eqb_eq in Hs as ->. auto. }
    destruct dot as [|c [|c' r]]; [| | simpl in Hdl; lia].
    + exists sign, (ip ++ fp), []. simpl. rewrite app_nil_r.
      repeat split; auto.
      * destruct ip; [simpl in Hil; lia | discriminate].
      * fold digit. rewrite forallb_app, Hi, Hf. reflexivity.
    + simpl in Hd. rewrite andb_true_r in Hd. apply N.eqb_eq in Hd as ->.
      exists sign, ip, (period :: fp). repeat split; auto.
      * destruct ip; [simpl in Hil; lia | discriminate].
      * right. exists fp. auto.
  - intros (sign & ip & frac & -> & Hsign & Hne & Hi & Hfrac).
    assert (Hip : (1 <= length ip)%nat)
      by (destruct ip; [contradiction | simpl; lia]).
    destruct Hfrac as [-> | (fp & -> & Hf)].
    + exists sign, ip, [], []. repeat split; auto.
      * destruct Hsign as [-> | ->]; reflexivity.
      * destruct Hsign as [-> | ->]; simpl; lia.
    + exists sign, ip, [period], fp. repeat split; auto.
      * destruct Hsign as [-> | ->]; reflexivity.
      * destruct Hsign as [-> | ->]; simpl; lia.
Qed.

Lemma float_of_numeral n :
  numeral unicode_decimal n -> float_of (VStr n) = Ret (value n).
Proof. intros Hn. simpl. rewrite (float_numeral n Hn). reflexivity. Qed.

(** A cleaned input never ends with the newline that [$] tolerates. *)
Lemma clean_shape_tail location n1 sep n2 tail :
  coord_shape (clean location) n1 sep n2 tail -> tail = [].
Proof.
  intros (Hs & Hn1 & _ & _ & _ & Hd).
  destruct tail as [|x [|y tail]]; simpl in Hd; try discriminate;
    [reflexivity|].
  exfalso. apply N.eqb_eq in Hd as ->. unfold clean in Hs.
  destruct (strip_last (remove_char rparen (remove_char lparen (strip location))))
    as [E | E]; rewrite Hs in E.
  - destruct (group_text_head n1 Hn1) as (c & r & -> & _). discriminate.
  - unfold last_solid in E. rewrite !rev_app_distr in E. discriminate.
Qed.
End CoordinateMatcher.

Section CoordinateClaims.
Context `{PyLib}.

Lemma coordinate_text_shape text n1 n2 :
  coordinate_text text n1 n2 ->
  exists sep, coord_shape text n1 sep n2 [] /\
              numeral unicode_decimal n1 /\ numeral unicode_decimal n2 /\
              in_range (value n1) (value n2) = true.
Proof.
  intros (sep & -> & Hn1 & [Hne Hsep] & Hn2 & Hr). exists sep.
  split; [|auto]. unfold coord_shape. rewrite app_nil_r.
  repeat split; try assumption; try (apply group_text_numeral; assumption).
  destruct sep; [contradiction | simpl; lia].
Qed.

Lemma is_coordinate_pair_match location n1 n2 :
  re_match coord_pattern (clean location) = Some [n1; n2] ->
  numeral unicode_decimal n1 -> numeral unicode_decimal n2 ->
  _is_coordinate_pair location =
  Ret (if in_range (value n1) (value n2)
       then Some (value n1, value n2) else None).
Proof.
  intros Hm Hn1 Hn2. unfold _is_coordinate_pair.
  change (strip (remove_char rparen (remove_char lparen (strip location))))
    with (clean location).
  rewrite Hm, (float_of_numeral n1 Hn1), (float_of_numeral n2 Hn2).
  cbn [bind]. fold (in_range (value n1) (value n2)).
  destruct (in_range (value n1) (value n2)); reflexivity.
Qed.

Lemma is_coordinate_pair_no_match location :
  re_match coord_pattern (clean location) = None ->
  _is_coordinate_pair location = Ret None.
Proof.
  intros Hm. unfold _is_coordinate_pair.
  change (strip (remove_char rparen (remove_char lparen (strip location))))
    with (clean location).
  now rewrite Hm.
Qed.

Lemma is_coordinate_pair_some location n1 n2 :
  coordinate_text (clean location) n1 n2 ->
  _is_coordinate_pair location = Ret (Some (value n1, value n2)).
Proof.
  intros Hc. apply coordinate_text_shape in Hc as (sep & Hs & Hn1 & Hn2 & Hr).
  rewrite (is_coordinate_pair_match location n1 n2); try assumption.
  - now rewrite Hr.
  - apply (re_match_coord_some _ _ sep), Hs.
Qed.

(** The matcher answers with a pair exactly for the coordinate texts, and
    with [None] otherwise; it never raises. *)
Lemma is_coordinate_pair_cases location :
  (exists n1 n2, coordinate_text (clean location) n1 n2 /\
                 _is_coordinate_pair location = Ret (Some (value n1, value n2))) \/
  ((forall n1 n2, ~ coordinate_text (clean location) n1 n2) /\
   _is_coordinate_pair location = Ret None).
Proof.
  destruct (re_match coord_pattern (clean location)) as [groups|] eqn:Em.
  - pose proof Em as Em'.
    apply re_match_coord_inv in Em' as (n1 & sep & n2 & tail & Hs & ->).
    pose proof (clean_shape_tail _ _ _ _ _ Hs) as ->.
    destruct Hs as (Ht & Hg1 & Hsep & Hsl & Hg2 & _).
    rewrite app_nil_r in Ht.
    pose proof (proj1 (group_text_numeral n1) Hg1) as Hn1.
    pose proof (proj1 (group_text_numeral n2) Hg2) as Hn2.
    rewrite (is_coordinate_pair_match location n1 n2 Em Hn1 Hn2).
    destruct (in_range (value n1) (value n2)) eqn:Er.
    + left. exists n1, n2. split; [|reflexivity].
      exists sep. repeat split; try assumption.
      intros ->. simpl in Hsl. lia.
    + right. split; [|reflexivity]. intros m1 m2 Hc.
      apply coordinate_text_shape in Hc as (sep' & Hs' & _ & _ & Hr').
      assert (Hs : coord_shape (clean location) n1 sep n2 []).
      { unfold coord_shape. rewrite app_nil_r. repeat split; assumption. }
      destruct (coord_shape_unique _ _ _ _ _ _ _ _ Hs Hs') as (-> & _ & -> & _).
      congruence.
  - right. split; [|apply is_coordinate_pair_no_match, Em].
    intros n1 n2 Hc.
    apply coordinate_text_shape in Hc as (sep & Hs & _).
    rewrite (re_match_coord_some _ _ _ _ Hs) in Em. discriminate.
Qed.
End CoordinateClaims.

Lemma new_york_text :
  @coordinate_text (ascii_lib no_json)
    (@clean (lit "40.7128, -74.0060")) (lit "40.7128") (lit "-74.0060").
Proof.
  exists (lit ", "). split; [vm_compute; reflexivity|].
  split; [|split; [|split]].
  - exists [], (lit "40"), (lit ".7128").
    repeat split; auto; try discriminate.
    right. exists (lit "7128"). split; reflexivity.
  - split; [discriminate | reflexivity].
  - exists (lit "-"), (lit "74"), (lit ".0060").
    repeat split; auto; try discriminate.
    right. exists (lit "0060"). split; reflexivity.
  - vm_compute. reflexivity.
Qed.

(** ** Running programs *)

Lemma exec_bind {A B} (w : world) (p : prog A) (f : A -> prog B) :
  exec w (bind p f) =
  match result w p with
  | inr a => (calls w p ++ calls w (f a), result w (f a))
  | inl e => (calls w p, inl e)
  end.
Proof.
  unfold calls, result. induction p as [a | e | u ps k IH | m k IH | pr k IH];
    simpl.
  - destruct (exec w (f a)). reflexivity.
  - reflexivity.
  - rewrite IH. destruct (exec w (k (http_get w u ps))) as [c [e | a]];
      reflexivity.
  - rewrite IH. destruct (exec w (k (generate_response w m))) as [c [e | a]];
      reflexivity.
  - rewrite IH. destruct (exec w (k (input w pr))) as [c [e | a]];
      reflexivity.
Qed.

Lemma result_bind {A B} (w : world) (p : prog A) (f : A -> prog B) :
  result w (bind p f) =
  match result w p with
  | inr a => result w (f a)
  | inl e => inl e
  end.
Proof.
  unfold result at 1. rewrite exec_bind. destruct (result w p); reflexivity.
Qed.

Lemma calls_bind {A B} (w : world) (p : prog A) (f : A -> prog B) :
  calls w (bind p f) =
  calls w p ++ match result w p with
               | inr a => calls w (f a)
               | inl e => []
               end.
Proof.
  unfold calls at 1. rewrite exec_bind.
  destruct (result w p); simpl; [now rewrite app_nil_r | reflexivity].
Qed.

Lemma exec_try {A} (w : world) (p : prog A) catch (h : prog A) :
  exec w (try_except p catch h) =
  match result w p with
  | inr a => (calls w p, inr a)
  | inl e => if catch e then (calls w p ++ calls w h, result w h)
             else (calls w p, inl e)
  end.
Proof.
  unfold calls, result. induction p as [a | e | u ps k IH | m k IH | pr k IH];
    simpl.
  - reflexivity.
  - destruct (catch e); [destruct (exec w h)|]; reflexivity.
  - rewrite IH. destruct (exec w (k (http_get w u ps))) as [c [e | a]];
      simpl; [destruct (catch e)|]; reflexivity.
  - rewrite IH. destruct (exec w (k (generate_response w m))) as [c [e | a]];
      simpl; [destruct (catch e)|]; reflexivity.
  - rewrite IH. destruct (exec w (k (input w pr))) as [c [e | a]];
      simpl; [destruct (catch e)|]; reflexivity.
Qed.

(** [except Exception] with a handler that returns: nothing escapes. *)
Lemma result_try_any {A} (w : world) (p : prog A) (x : A) :
  result w (try_except p any_exception (Ret x)) =
  inr match result w p with inr a => a | inl _ => x end.
Proof.
  unfold result at 1. rewrite exec_try. destruct (result w p); reflexivity.
Qed.

Lemma calls_try_ret {A} (w : world) (p : prog A) catch (x : A) :
  calls w (try_except p catch (Ret x)) = calls w p.
Proof.
  unfold calls at 1. rewrite exec_try.
  destruct (result w p) as [e | a]; [destruct (catch e)|]; simpl;
    rewrite ?app_nil_r; reflexivity.
Qed.

Lemma exec_try_as {A} (w : world) (p : prog A) catch (h : exn -> prog A) :
  exec w (try_except_as p catch h) =
  match result w p with
  | inr a => (calls w p, inr a)
  | inl e => if catch e then (calls w p ++ calls w (h e), result w (h e))
             else (calls w p, inl e)
  end.
Proof.
  unfold calls, result. induction p as [a | e | u ps k IH | m k IH | pr k IH];
    simpl.
  - reflexivity.
  - destruct (catch e); [destruct (exec w (h e))|]; reflexivity.
  - rewrite IH. destruct (exec w (k (http_get w u ps))) as [c [e | a]];
      simpl; [destruct (catch e)|]; reflexivity.
  - rewrite IH. destruct (exec w (k (generate_response w m))) as [c [e | a]];
      simpl; [destruct (catch e)|]; reflexivity.
  - rewrite IH. destruct (exec w (k (input w pr))) as [c [e | a]];
      simpl; [destruct (catch e)|]; reflexivity.
Qed.

(** [except Exception as e] with a handler that returns: nothing
    escapes. *)
Lemma exec_try_as_ret {A} (w : world) (p : prog A) (h : exn -> prog A) (x : A) :
  (forall e, h e = Ret x) ->
  exec w (try_except_as p any_exception h) =
  (calls w p, inr match result w p with inr a => a | inl _ => x end).
Proof.
  intros Hh. rewrite exec_try_as.
  destruct (result w p) as [e | a]; [|reflexivity].
  simpl. rewrite Hh. unfold calls at 2, result. simpl.
  now rewrite app_nil_r.
Qed.

(** ** Texts the console and the network can take *)

Lemma utf8_encodable_app a b :
  utf8_encodable (a ++ b) = utf8_encodable a && utf8_encodable b.
Proof. apply forallb_app. Qed.

Lemma is_ascii_encodable s : is_ascii s = true -> utf8_encodable s = true.
Proof.
  unfold is_ascii, utf8_encodable. rewrite !forallb_forall.
  intros Hs c Hc. specialize (Hs c Hc). unfold is_surrogate.
  apply N.ltb_lt in Hs.
  destruct (N.leb_spec 55296 c); [lia | reflexivity].
Qed.

Lemma py_print_encodable s : utf8_encodable s = true -> py_print s = Ret tt.
Proof. unfold py_print. now intros ->. Qed.

Lemma py_print_surrogate s :
  utf8_encodable s = false -> py_print s = Raise UnicodeEncodeError.
Proof. unfold py_print. now intros ->. Qed.

(** ** ASCII texts under any library *)

Section AsciiText.
Context `{PyLib}.

Lemma is_digit_ascii c :
  (c <? 128)%N = true ->
  is_digit unicode_decimal c = is_digit ascii_decimal c.
Proof. intros Hc. unfold is_digit. now rewrite (decimal_ascii c Hc). Qed.

Lemma digit_value_ascii c :
  (c <? 128)%N = true ->
  digit_value unicode_decimal c = digit_value ascii_decimal c.
Proof. intros Hc. unfold digit_value. now rewrite (decimal_ascii c Hc). Qed.

Lemma forallb_digit_ascii s :
  is_ascii s = true ->
  forallb (is_digit unicode_decimal) s = forallb (is_digit ascii_decimal) s.
Proof.
  induction s as [|c s IH]; simpl; [reflexivity|].
  intros Hs. apply andb_true_iff in Hs as [Hc Hs].
  now rewrite (is_digit_ascii c Hc), (IH Hs).
Qed.

Lemma span_digit_ascii s :
  is_ascii s = true ->
  span (is_digit unicode_decimal) s = span (is_digit ascii_decimal) s.
Proof.
  induction s as [|c s IH]; simpl; [reflexivity|].
  intros Hs. apply andb_true_iff in Hs as [Hc Hs].
  now rewrite (is_digit_ascii c Hc), (IH Hs).
Qed.

Lemma span_parts p s a b :
  span p s = (a, b) -> s = a ++ b.
Proof.
  revert a b. induction s as [|c s IH]; simpl; intros a b.
  - intros [= <- <-]. reflexivity.
  - destruct (p c).
    + destruct (span p s) as [a' b']. intros [= <- <-].
      simpl. f_equal. apply IH. reflexivity.
    + intros [= <- <-]. reflexivity.
Qed.

Lemma digits_value_ascii s :
  is_ascii s = true ->
  digits_value unicode_decimal s = digits_value ascii_decimal s.
Proof.
  unfold digits_value. generalize 0. induction s as [|c s IH]; simpl;
    [reflexivity|].
  intros acc Hs. apply andb_true_iff in Hs as [Hc Hs].
  now rewrite (digit_value_ascii c Hc), (IH _ Hs).
Qed.

Lemma is_ascii_app a b : is_ascii (a ++ b) = is_ascii a && is_ascii b.
Proof. apply forallb_app. Qed.

Lemma numeral_value_ascii t :
  is_ascii t = true -> value t = numeral_value ascii_decimal t.
Proof.
  intros Ht. unfold value, numeral_value.
  assert (Hbody : forall neg body, is_ascii body = true ->
    (let '(int_part, rest) := span (is_digit unicode_decimal) body in
     let frac_part := match rest with
                      | c :: t0 => if N.eqb c period then t0 else []
                      | [] => []
                      end in
     float_of_decimal neg (digits_value unicode_decimal (int_part ++ frac_part))
                      (length frac_part)) =
    (let '(int_part, rest) := span (is_digit ascii_decimal) body in
     let frac_part := match rest with
                      | c :: t0 => if N.eqb c period then t0 else []
                      | [] => []
                      end in
     float_of_decimal neg (digits_value ascii_decimal (int_part ++ frac_part))
                      (length frac_part))).
  { intros neg body Hb. rewrite (span_digit_ascii body Hb).
    destruct (span (is_digit ascii_decimal) body) as [ip rest] eqn:Es.
    apply span_parts in Es. rewrite Es, is_ascii_app in Hb.
    apply andb_true_iff in Hb as [Hip Hrest]. cbv zeta.
    rewrite digits_value_ascii; [reflexivity|].
    rewrite is_ascii_app, Hip. simpl.
    destruct rest as [|c r]; [reflexivity|].
    simpl in Hrest. apply andb_true_iff in Hrest as [_ Hr].
    destruct (N.eqb c period); [exact Hr | reflexivity]. }
  destruct t as [|c t]; [reflexivity|].
  destruct (N.eqb c minus_sign); apply Hbody; [|exact Ht].
  simpl in Ht. apply andb_true_iff in Ht as [_ Ht]. exact Ht.
Qed.

Lemma numeral_ascii t :
  is_ascii t = true -> numeral ascii_decimal t -> numeral unicode_decimal t.
Proof.
  intros Ht (sign & ip & frac & -> & Hsign & Hne & Hi & Hfrac).
  rewrite !is_ascii_app in Ht.
  apply andb_true_iff in Ht as [_ Ht]. apply andb_true_iff in Ht as [Hip Hf].
  exists sign, ip, frac. repeat split; try assumption.
  - now rewrite forallb_digit_ascii.
  - destruct Hfrac as [-> | (fp & -> & Hfp)]; [auto|].
    right. exists fp. split; [reflexivity|].
    simpl in Hf. now rewrite forallb_digit_ascii.
Qed.

(** A coordinate text under the ASCII library is one under every
    library. *)
Lemma coordinate_text_ascii decode text n1 n2 :
  is_ascii n1 = true -> is_ascii n2 = true ->
  @coordinate_text (ascii_lib decode) text n1 n2 ->
  coordinate_text text n1 n2.
Proof.
  intros H1 H2 (sep & Ht & Hn1 & Hsep & Hn2 & Hr).
  exists sep. repeat split; try assumption; try apply Hsep;
    try (apply numeral_ascii; assumption).
  rewrite !numeral_value_ascii by assumption. exact Hr.
Qed.

Lemma numeral_head d n :
  numeral d n ->
  exists c r, n = c :: r /\ (c = minus_sign \/ is_digit d c = true).
Proof.
  intros (sign & ip & frac & -> & Hsign & Hne & Hi & _).
  destruct Hsign as [-> | ->]; [|simpl; eauto].
  destruct ip as [|c ip]; [contradiction|]. simpl in Hi.
  apply andb_true_iff in Hi as [Hc _]. simpl. eauto.
Qed.

(** An input that starts with an ASCII character other than a digit or
    the minus sign is no coordinate pair. *)
Lemma is_coordinate_pair_other_head location c r :
  clean location = c :: r ->
  (c <? 128)%N = true -> ascii_decimal c = None -> c <> minus_sign ->
  _is_coordinate_pair location = Ret None.
Proof.
  intros Hc Ha Hd Hm.
  destruct (is_coordinate_pair_cases location)
    as [(n1 & n2 & (sep & Ht & Hn1 & _) & _) | [_ E]]; [exfalso | exact E].
  apply numeral_head in Hn1 as (x & y & -> & Hx).
  rewrite Hc in Ht. injection Ht as <- _.
  destruct Hx as [Hx | Hx]; [contradiction|].
  rewrite (is_digit_ascii c Ha) in Hx. unfold is_digit in Hx.
  rewrite Hd in Hx. discriminate.
Qed.
End AsciiText.

(** ** The geocoding resolver *)

Section Resolver.
Context `{PyLib}.

Lemma is_coordinate_pair_returns location :
  exists r, _is_coordinate_pair location = Ret r.
Proof.
  destruct (is_coordinate_pair_cases location)
    as [(n1 & n2 & _ & E) | [_ E]]; rewrite E; eauto.
Qed.

(** The notice of a failed lookup can always be printed. *)
Lemma lookup_notice e :
  (_ <- py_print (lit "Geocoding failed: " ++ exn_str e);; Ret None)
  = (Ret None : prog (option (float * float))).
Proof.
  rewrite py_print_encodable; [reflexivity|].
  rewrite utf8_encodable_app, exn_str_encodable. reflexivity.
Qed.

(** The notice of the default can be printed when the location can. *)
Lemma default_notice location :
  utf8_encodable (lit "Location '" ++ location ++
                  lit "' not found, defaulting to London")
  = utf8_encodable location.
Proof.
  rewrite !utf8_encodable_app.
  change (utf8_encodable (lit "Location '")) with true.
  change (utf8_encodable (lit "' not found, defaulting to London")) with true.
  now rewrite andb_true_r.
Qed.

(** Whatever the lookup meets, [_geocode_nominatim] returns. *)
Lemma geocode_nominatim_returns w location :
  exists r, result w (_geocode_nominatim location) = inr r.
Proof.
  unfold _geocode_nominatim, result.
  rewrite (exec_try_as_ret w _ _ None lookup_notice). eauto.
Qed.

Lemma geocode_nominatim_no_response w location :
  (forall params, http_get w nominatim_url params = NoResponse) ->
  result w (_geocode_nominatim location) = inr None.
Proof.
  intros Hw. unfold _geocode_nominatim, result at 1.
  rewrite (exec_try_as_ret w _ _ None lookup_notice). cbn [snd].
  rewrite result_bind. unfold get_json.
  destruct (sendable _); [|reflexivity].
  unfold result at 1. simpl. rewrite Hw. reflexivity.
Qed.

Lemma first_city_listed table text coords :
  first_listed table text coords -> first_city table text = Some coords.
Proof.
  intros (before & city & after & -> & Hocc & Hno).
  induction before as [|[c xy] before IH]; simpl.
  - apply contains_true in Hocc. now rewrite Hocc.
  - assert (Hc : contains c text = false).
    { apply contains_false. apply (Hno c xy). left. reflexivity. }
    rewrite Hc. apply IH. intros c' xy' Hin. apply (Hno c' xy').
    right. exact Hin.
Qed.

Lemma first_city_none table text :
  none_listed table text -> first_city table text = None.
Proof.
  induction table as [|[c xy] table IH]; simpl; [reflexivity|].
  intros Hno.
  assert (Hc : contains c text = false).
  { apply contains_false. apply (Hno c xy). left. reflexivity. }
  rewrite Hc. apply IH. intros c' xy' Hin. apply (Hno c' xy').
  right. exact Hin.
Qed.

Lemma get_coordinates_recognized location pair :
  _is_coordinate_pair location = Ret (Some pair) ->
  GeocodingService.get_coordinates location = Ret pair.
Proof.
  intros E. unfold GeocodingService.get_coordinates. rewrite E. reflexivity.
Qed.

Lemma get_coordinates_unrecognized w location :
  _is_coordinate_pair location = Ret None ->
  exec w (GeocodingService.get_coordinates location) =
  (calls w (_geocode_nominatim location),
   match result w (_geocode_nominatim location) with
   | inr (Some coords) => inr coords
   | _ => match first_city major_cities (py_lower location) with
          | Some coords => inr coords
          | None => if utf8_encodable location then inr london
                    else inl UnicodeEncodeError
          end
   end).
Proof.
  intros E. unfold GeocodingService.get_coordinates. rewrite E.
  cbn [bind]. rewrite exec_bind.
  destruct (geocode_nominatim_returns w location) as [[coords|] ->].
  - simpl. now rewrite app_nil_r.
  - destruct (first_city major_cities (py_lower location));
      [simpl; now rewrite app_nil_r|].
    unfold py_print. rewrite default_notice.
    destruct (utf8_encodable location); simpl; now rewrite app_nil_r.
Qed.

(** [get_coordinates] returns a pair, unless the notice of the default
    cannot be printed. *)
Lemma get_coordinates_outcome w location :
  (exists pair,
      result w (GeocodingService.get_coordinates location) = inr pair) \/
  (result w (GeocodingService.get_coordinates location)
   = inl UnicodeEncodeError /\
   utf8_encodable location = false /\
   _is_coordinate_pair location = Ret None /\
   first_city major_cities (py_lower location) = None).
Proof.
  destruct (is_coordinate_pair_returns location) as [[pair|] E].
  - rewrite (get_coordinates_recognized _ _ E). left. eauto.
  - unfold result at 1 2. rewrite (get_coordinates_unrecognized w _ E).
    cbn [snd].
    destruct (geocode_nominatim_returns w location) as [[coords|] ->];
      [left; eauto|].
    destruct (first_city major_cities (py_lower location)) eqn:Ec;
      [left; eauto|].
    destruct (utf8_encodable location) eqn:Eu; [left; eauto|].
    right. auto.
Qed.

Lemma get_coordinates_returns w location :
  utf8_encodable location = true ->
  exists pair, result w (GeocodingService.get_coordinates location) = inr pair.
Proof.
  intros Hu.
  destruct (get_coordinates_outcome w location) as [Hr | (_ & Hn & _)];
    [exact Hr | congruence].
Qed.

Lemma new_york_recognized :
  _is_coordinate_pair (lit "40.7128, -74.0060")
  = Ret (Some (decimal_literal 407128 4, decimal_literal (-740060) 4)).
Proof.
  rewrite (is_coordinate_pair_some _ (lit "40.7128") (lit "-74.0060")).
  - rewrite !numeral_value_ascii by reflexivity. reflexivity.
  - apply (coordinate_text_ascii no_json); try reflexivity.
    apply new_york_text.
Qed.

Lemma tokyo_unrecognized :
  _is_coordinate_pair (lit "weather in tokyo") = Ret None.
Proof.
  apply (is_coordinate_pair_other_head _ 119%N (lit "eather in tokyo"));
    try reflexivity. discriminate.
Qed.
End Resolver.

(** X28 — resolution is total up to the console: the matcher never
    raises; whatever the geocoding lookup does (an answer, an empty list,
    a malformed payload, an error status, no response at all),
    [get_coordinates] returns a pair for every input that holds no
    surrogate code point; for the other inputs it returns a pair or raises
    the [UnicodeEncodeError] of the [print] that announces the default,
    and nothing else. *)
Theorem resolution_never_fails `{PyLib} (location : str) :
  (exists r, _is_coordinate_pair location = Ret r) /\
  (forall w,
      (exists pair,
          result w (GeocodingService.get_coordinates location) = inr pair) \/
      (result w (GeocodingService.get_coordinates location)
       = inl UnicodeEncodeError /\
       utf8_encodable location = false)) /\
  (utf8_encodable location = true ->
   forall w, exists pair,
     result w (GeocodingService.get_coordinates location) = inr pair).
Proof.
  split; [apply is_coordinate_pair_returns|]. split.
  - intros w.
    destruct (get_coordinates_outcome w location) as [Hr | (Hr & Hn & _)];
      [left; exact Hr | right; auto].
  - intros Hu w. apply get_coordinates_returns, Hu.
Qed.

Lemma resolution_never_fails_witness :
  exists pair,
    result (serving (Response 500 html_body))
           (@GeocodingService.get_coordinates (ascii_lib no_json)
              (lit "Atlantis"))
    = inr pair.
Proof.
  exact (proj2 (proj2 (@resolution_never_fails (ascii_lib no_json)
                         (lit "Atlantis")))
           eq_refl (serving (Response 500 html_body))).
Defined.

(** C2 — the code does fail outright on one path: for a location that is
    one surrogate code point (what [json.loads] makes of a lone surrogate
    escape) the matcher, which does not raise, sees no pair, the lookup
    yields nothing, no city is named, and the [print] that announces the
    default to London raises [UnicodeEncodeError]: [get_coordinates]
    raises where it was to return London's coordinates. *)
Lemma resolution_fails_unprintable :
  let w := offline (fun _ => []) [] in
  @_is_coordinate_pair (ascii_lib no_json) surrogate_location = Ret None /\
  result w (@_geocode_nominatim (ascii_lib no_json) surrogate_location)
  = inr None /\
  result w (@GeocodingService.get_coordinates (ascii_lib no_json)
              surrogate_location)
  = inl UnicodeEncodeError.
Proof. intros w. repeat split; vm_compute; reflexivity. Qed.

(** C3 — the first tier short-circuits: for an input the matcher
    recognizes, [get_coordinates] is the program that just returns that
    pair; it makes no call, and its outcome is the same in any two worlds.
    For "40.7128, -74.0060" it returns (40.7128, -74.0060). *)
Theorem coordinate_short_circuit `{PyLib} :
  (forall location pair,
      _is_coordinate_pair location = Ret (Some pair) ->
      GeocodingService.get_coordinates location = Ret pair /\
      (forall w, calls w (GeocodingService.get_coordinates location) = []) /\
      (forall w1 w2,
          exec w1 (GeocodingService.get_coordinates location) =
          exec w2 (GeocodingService.get_coordinates location))) /\
  GeocodingService.get_coordinates (lit "40.7128, -74.0060")
  = Ret (decimal_literal 407128 4, decimal_literal (-740060) 4).
Proof.
  split.
  - intros location pair E.
    rewrite (get_coordinates_recognized _ _ E). repeat split; reflexivity.
  - apply get_coordinates_recognized, new_york_recognized.
Qed.

Lemma coordinate_short_circuit_witness :
  @GeocodingService.get_coordinates (ascii_lib no_json) (lit "(12.5 -7)")
  = Ret (decimal_literal 125 1, decimal_literal (-7) 0) /\
  calls (offline (fun _ => []) [])
        (@GeocodingService.get_coordinates (ascii_lib no_json) (lit "(12.5 -7)"))
  = [].
Proof.
  destruct (proj1 (@coordinate_short_circuit (ascii_lib no_json))
              (lit "(12.5 -7)")
              (decimal_literal 125 1, decimal_literal (-7) 0) eq_refl)
    as (E & Hc & _).
  split; [exact E | apply Hc].
Defined.

(** X29 — the offline tiers: when the matcher does not recognize the
    input and the lookup yields no coordinate, [get_coordinates] returns
    the coordinates of the first entry of the ten-city table whose name
    occurs in the lowercased input; if none does, it prints a notice and
    returns London's coordinates, and for an input with a surrogate code
    point that [print] raises [UnicodeEncodeError] instead.  The table lists London, New York,
    Paris, Tokyo, Sydney, Berlin, Madrid, Rome, Kyiv and Beijing, in this
    order; "weather in tokyo" gives (35.6762, 139.6503); London is
    (51.5074, -0.1278). *)
Theorem offline_fallback `{PyLib} :
  (forall w location,
      _is_coordinate_pair location = Ret None ->
      result w (_geocode_nominatim location) = inr None ->
      (forall coords,
          first_listed major_cities (py_lower location) coords ->
          result w (GeocodingService.get_coordinates location) = inr coords) /\
      (none_listed major_cities (py_lower location) ->
       (utf8_encodable location = true ->
        result w (GeocodingService.get_coordinates location) = inr london) /\
       (utf8_encodable location = false ->
        result w (GeocodingService.get_coordinates location)
        = inl UnicodeEncodeError))) /\
  List.map fst major_cities
  = [lit "london"; lit "new york"; lit "paris"; lit "tokyo"; lit "sydney";
     lit "berlin"; lit "madrid"; lit "rome"; lit "kyiv"; lit "beijing"] /\
  (forall w,
      result w (_geocode_nominatim (lit "weather in tokyo")) = inr None ->
      result w (GeocodingService.get_coordinates (lit "weather in tokyo"))
      = inr tokyo) /\
  london = (decimal_literal 515074 4, decimal_literal (-1278) 4) /\
  tokyo = (decimal_literal 356762 4, decimal_literal 1396503 4).
Proof.
  split; [|split; [reflexivity|split; [|split; reflexivity]]].
  - intros w location E Hg. unfold result.
    rewrite (get_coordinates_unrecognized w _ E). cbn [snd]. rewrite Hg. split.
    + intros coords Hl. now rewrite (first_city_listed _ _ _ Hl).
    + intros Hn. rewrite (first_city_none _ _ Hn). split; now intros ->.
  - intros w Hg. unfold result.
    rewrite (get_coordinates_unrecognized w _ tokyo_unrecognized). cbn [snd].
    rewrite Hg, (lower_ascii (lit "weather in tokyo") eq_refl). reflexivity.
Qed.

(** C4 — the default is not reached for an input that cannot be printed:
    for a location that is one surrogate code point the matcher says no,
    the lookup yields nothing and no city name occurs, so that London's
    coordinates are due; the [print] before the [return] raises, and
    London is not returned. *)
Lemma offline_default_unprintable :
  let w := offline (fun _ => []) [] in
  @_is_coordinate_pair (ascii_lib no_json) surrogate_location = Ret None /\
  result w (@_geocode_nominatim (ascii_lib no_json) surrogate_location)
  = inr None /\
  @first_city major_cities (@py_lower (ascii_lib no_json) surrogate_location)
  = None /\
  result w (@GeocodingService.get_coordinates (ascii_lib no_json)
              surrogate_location)
  = inl UnicodeEncodeError.
Proof. intros w. repeat split; vm_compute; reflexivity. Qed.

(** ** The request interpreter *)

Section Interpreter.
Context `{PyLib}.

Lemma parse_user_request_direct w user_input lat lon :
  _is_coordinate_pair user_input = Ret (Some (lat, lon)) ->
  exec w (parse_user_request user_input)
  = ([], inr (VDict (direct_request lat lon))).
Proof. intros E. unfold parse_user_request. rewrite E. reflexivity. Qed.

Lemma parse_user_request_llm w user_input :
  _is_coordinate_pair user_input = Ret None ->
  exec w (parse_user_request user_input)
  = ([ChatCall (parse_messages user_input)],
     match reply_to w user_input with
     | VStr reply =>
         match json_loads (_extract_json reply) with
         | inr v => inr v
         | inl e =>
             if is_JSONDecodeError e
             then inr (VDict (fallback_request user_input (VStr reply)))
             else inl e
         end
     | _ => inl AttributeError
     end).
Proof.
  intros E. unfold parse_user_request. rewrite E. cbn [bind exec].
  fold (reply_to w user_input).
  destruct (reply_to w user_input) as [| | | |reply| |]; try reflexivity.
  cbn [extract_json_of bind]. unfold loads.
  destruct (json_loads (_extract_json reply)) as [e | v]; [|reflexivity].
  simpl. destruct (is_JSONDecodeError e); reflexivity.
Qed.

(** [parse_user_request] raises the [AttributeError] of a reply that is
    no text, or what [json.loads] raises and is no [JSONDecodeError]. *)
Lemma parse_user_request_raises w user_input e :
  result w (parse_user_request user_input) = inl e ->
  _is_coordinate_pair user_input = Ret None /\
  ((e = AttributeError /\ forall reply, reply_to w user_input <> VStr reply) \/
   (exists reply,
       reply_to w user_input = VStr reply /\
       json_loads (_extract_json reply) = inl e /\
       is_JSONDecodeError e = false)).
Proof.
  unfold result.
  destruct (is_coordinate_pair_returns user_input) as [[[lat lon]|] E].
  - rewrite (parse_user_request_direct w _ _ _ E). discriminate.
  - rewrite (parse_user_request_llm w _ E). cbn [snd].
    intros Hr. split; [exact E|].
    destruct (reply_to w user_input) as [| | | |reply| |];
      try (injection Hr as <-; left; split; [reflexivity | discriminate]).
    right. exists reply. split; [reflexivity|].
    destruct (json_loads _) as [e' | v]; [|discriminate].
    destruct (is_JSONDecodeError e') eqn:Ee; [discriminate|].
    injection Hr as <-. auto.
Qed.

End Interpreter.

(** C6, as amended — undecodable model output: when the input is not a
    coordinate pair, so that the model is asked, and the reply is a text,
    and [json.loads] raises on what [_extract_json] makes of it: for a
    [JSONDecodeError], [parse_user_request] does not raise and returns the
    fallback request, with weather type "current", the user's input as the
    requirements, no latitude and no longitude, and the raw reply; any
    other exception of [json.loads] is raised by [parse_user_request]. *)
Theorem parse_fallback `{PyLib} (w : world) (user_input reply : str) (e : exn) :
  _is_coordinate_pair user_input = Ret None ->
  reply_to w user_input = VStr reply ->
  json_loads (_extract_json reply) = inl e ->
  let request := fallback_request user_input (VStr reply) in
  (is_JSONDecodeError e = true ->
   result w (parse_user_request user_input) = inr (VDict request) /\
   request !! lit "weather_type" = Some (VStr (lit "current")) /\
   request !! lit "specific_requirements" = Some (VStr user_input) /\
   request !! lit "latitude" = Some VNone /\
   request !! lit "longitude" = Some VNone /\
   request !! lit "raw_response" = Some (VStr reply)) /\
  (is_JSONDecodeError e = false ->
   result w (parse_user_request user_input) = inl e).
Proof.
  intros E Hv Hj request. unfold result.
  rewrite (parse_user_request_llm w _ E), Hv, Hj. cbn [snd].
  split; intros ->; repeat split; reflexivity.
Qed.

Lemma parse_fallback_witness :
  let w := offline (fun _ => lit "Sorry, I cannot help with that.") [] in
  let user_input := lit "weather in Paris" in
  result w (@parse_user_request (ascii_lib no_json) user_input)
  = inr (VDict (fallback_request user_input
                  (VStr (lit "Sorry, I cannot help with that.")))).
Proof.
  intros w user_input.
  exact (proj1 (proj1 (@parse_fallback (ascii_lib no_json) w user_input
                         (lit "Sorry, I cannot help with that.")
                         JSONDecodeError eq_refl eq_refl eq_refl)
                  eq_refl)).
Defined.

(** C6, as stated, fails: a reply of a thousand opening brackets does not
    decode, [json.loads] raises [RecursionError] on it, which is no
    [JSONDecodeError], and [parse_user_request] raises it. *)
Lemma parse_fallback_counterexample :
  let w := offline (fun _ => deep_reply) [] in
  @json_loads (ascii_lib deep_decoder) (_extract_json deep_reply)
  = inl RecursionError /\
  result w (@parse_user_request (ascii_lib deep_decoder)
              (lit "weather in Paris"))
  = inl RecursionError.
Proof. intros w. split; vm_compute; reflexivity. Qed.

(** ** The resolution step of [run] *)

Lemma calls_Chat {A} (w : world) m (k : pyval -> prog A) :
  calls w (Chat m k) = ChatCall m :: calls w (k (generate_response w m)).
Proof. unfold calls. simpl. destruct (exec w (k _)). reflexivity. Qed.

Lemma calls_Input {A} (w : world) pr (k : str -> prog A) :
  calls w (Input pr k) = InputCall pr :: calls w (k (input w pr)).
Proof. unfold calls. simpl. destruct (exec w (k _)). reflexivity. Qed.

Lemma silent_calls {A} (w : world) (p : prog A) : silent p -> calls w p = [].
Proof. destruct p; simpl; intros []; reflexivity. Qed.

Lemma silent_bind {A B} (p : prog A) (f : A -> prog B) :
  silent p -> (forall a, silent (f a)) -> silent (bind p f).
Proof. destruct p; simpl; intros [] Hf; [apply Hf | exact I]. Qed.

Lemma silent_getitem_0 v : silent (getitem_0 v).
Proof. destruct v as [| | | |[|c s]|[|x l]|]; exact I. Qed.

Lemma silent_getitem_str v key : silent (getitem_str v key).
Proof. destruct v; simpl; try exact I. destruct (_ !! key); exact I. Qed.

Lemma silent_float_of `{PyLib} v : silent (float_of v).
Proof.
  destruct v as [|b|z|f|s|l|d]; simpl; try exact I.
  - destruct (float_of_Z z); exact I.
  - destruct (py_float s); exact I.
Qed.

Lemma silent_py_print s : silent (py_print s).
Proof. unfold py_print. destruct (utf8_encodable s); exact I. Qed.

Lemma result_HttpGet {A} (w : world) url params (k : http_reply -> prog A) :
  result w (HttpGet url params k) = result w (k (http_get w url params)).
Proof. unfold result. simpl. destruct (exec w (k _)). reflexivity. Qed.

Lemma result_Chat {A} (w : world) m (k : pyval -> prog A) :
  result w (Chat m k) = result w (k (generate_response w m)).
Proof. unfold result. simpl. destruct (exec w (k _)). reflexivity. Qed.

Lemma result_Input {A} (w : world) pr (k : str -> prog A) :
  result w (Input pr k) = result w (k (input w pr)).
Proof. unfold result. simpl. destruct (exec w (k _)). reflexivity. Qed.

(** A request goes out when its parameters can be encoded, and only
    then. *)
Lemma calls_get_json `{PyLib} w url params :
  calls w (get_json url params)
  = if sendable params then [HttpCall url params] else [].
Proof.
  unfold calls, get_json. destruct (sendable params); [|reflexivity]. simpl.
  destruct (http_get w url params) as [|status body]; [reflexivity|].
  unfold raise_for_status, response_json.
  destruct ((400 <=? status)%N && (status <? 600)%N); [reflexivity|].
  simpl. destruct (json_loads body) as [e | v]; reflexivity.
Qed.

Lemma result_get_json `{PyLib} w url params :
  result w (get_json url params) =
  if sendable params then
    match http_get w url params with
    | NoResponse => inl RequestException
    | Response status body =>
        if error_status status then inl HTTPError
        else match json_loads body with
             | inr v => inr v
             | inl e =>
                 inl (if is_JSONDecodeError e then RequestsJSONDecodeError
                      else e)
             end
    end
  else inl UnicodeEncodeError.
Proof.
  unfold get_json. destruct (sendable params); [|reflexivity].
  rewrite result_HttpGet.
  destruct (http_get w url params) as [|status body]; [reflexivity|].
  unfold raise_for_status, error_status.
  destruct ((400 <=? status)%N && (status <? 600)%N); [reflexivity|].
  unfold response_json. cbn [bind].
  destruct (json_loads body); reflexivity.
Qed.

Lemma sendable_nominatim location :
  sendable (nominatim_params location) = utf8_encodable location.
Proof.
  unfold sendable, nominatim_params. cbn.
  destruct (utf8_encodable location); reflexivity.
Qed.

Lemma sendable_weather latitude longitude :
  sendable (weather_params latitude longitude)
  = param_sendable latitude && param_sendable longitude.
Proof.
  unfold sendable, weather_params. cbn.
  destruct (param_sendable latitude), (param_sendable longitude); reflexivity.
Qed.

Section ResolutionStep.
Context `{PyLib}.

(** The lookup sends one request, or none when the location cannot be
    encoded. *)
Lemma calls_geocode_nominatim w location :
  calls w (_geocode_nominatim location)
  = if utf8_encodable location
    then [HttpCall nominatim_url (nominatim_params location)] else [].
Proof.
  unfold _geocode_nominatim, calls at 1.
  rewrite (exec_try_as_ret w _ _ None lookup_notice). cbn [fst].
  rewrite calls_bind, calls_get_json.
  change [(lit "q", VStr location); (lit "format", VStr (lit "json"));
          (lit "limit", VInt 1)] with (nominatim_params location).
  rewrite sendable_nominatim.
  destruct (result w (get_json _ _)) as [e | data];
    [now rewrite app_nil_r|].
  rewrite silent_calls; [now rewrite app_nil_r|].
  destruct (truthy data); [|exact I].
  repeat (apply silent_bind;
          [first [apply silent_getitem_0 | apply silent_getitem_str
                 | apply silent_float_of] | intros ?]).
  exact I.
Qed.

(** The calls of the resolver: none for a recognized input, else those of
    the lookup. *)
Lemma calls_get_coordinates_cases w location :
  calls w (GeocodingService.get_coordinates location) = [] \/
  calls w (GeocodingService.get_coordinates location)
  = [HttpCall nominatim_url (nominatim_params location)].
Proof.
  destruct (is_coordinate_pair_returns location) as [[pair|] E].
  - left. now rewrite (get_coordinates_recognized _ _ E).
  - unfold calls at 1 2. rewrite (get_coordinates_unrecognized w _ E).
    cbn [fst]. rewrite calls_geocode_nominatim.
    destruct (utf8_encodable location); auto.
Qed.


Lemma resolve_step_kept d :
  has_coordinates d = true -> resolve_step (VDict d) = Ret d.
Proof.
  unfold has_coordinates, resolve_step. intros Hc.
  apply andb_true_iff in Hc as [-> ->]. reflexivity.
Qed.

Lemma resolve_step_filled w d location :
  has_coordinates d = false ->
  dict_get d (lit "location") (VStr (lit "London")) = VStr location ->
  exec w (resolve_step (VDict d)) =
  (calls w (GeocodingService.get_coordinates location),
   match result w (GeocodingService.get_coordinates location) with
   | inr (lat, lon) =>
       inr (<[lit "longitude" := VFloat lon]>
            (<[lit "latitude" := VFloat lat]> d))
   | inl e => inl e
   end).
Proof.
  unfold has_coordinates, resolve_step. intros Hc Hl.
  assert (Hn : negb (truthy (dict_get d (lit "latitude") VNone)) ||
               negb (truthy (dict_get d (lit "longitude") VNone)) = true).
  { destruct (truthy (dict_get d (lit "latitude") VNone));
      destruct (truthy (dict_get d (lit "longitude") VNone));
      simpl in *; congruence. }
  rewrite Hn, Hl. unfold get_coordinates. rewrite exec_bind.
  destruct (result w (GeocodingService.get_coordinates location))
    as [e | [lat lon]]; [reflexivity|].
  simpl. now rewrite app_nil_r.
Qed.

(** A request that is no object, or that lacks a coordinate while its
    location is no text. *)
Lemma resolve_step_unresolvable w parsed :
  unresolvable parsed -> exec w (resolve_step parsed) = ([], inl AttributeError).
Proof.
  destruct parsed as [| | | | | |d]; try reflexivity.
  intros [Hc Hl]. unfold resolve_step, has_coordinates in *.
  assert (Hn : negb (truthy (dict_get d (lit "latitude") VNone)) ||
               negb (truthy (dict_get d (lit "longitude") VNone)) = true).
  { destruct (truthy (dict_get d (lit "latitude") VNone));
      destruct (truthy (dict_get d (lit "longitude") VNone));
      simpl in *; congruence. }
  rewrite Hn.
  destruct (dict_get d (lit "location") (VStr (lit "London")))
    as [| | | |location| |]; try reflexivity.
  destruct (Hl location eq_refl).
Qed.

(** The three ways of the step: the request is kept, it cannot be
    resolved, or the resolver is asked. *)
Lemma resolve_step_cases w parsed :
  (exists d, parsed = VDict d /\ has_coordinates d = true /\
             exec w (resolve_step parsed) = ([], inr d)) \/
  (unresolvable parsed /\
   exec w (resolve_step parsed) = ([], inl AttributeError)) \/
  (exists d location,
      parsed = VDict d /\ has_coordinates d = false /\
      dict_get d (lit "location") (VStr (lit "London")) = VStr location /\
      exec w (resolve_step parsed) =
      (calls w (GeocodingService.get_coordinates location),
       match result w (GeocodingService.get_coordinates location) with
       | inr (lat, lon) =>
           inr (<[lit "longitude" := VFloat lon]>
                (<[lit "latitude" := VFloat lat]> d))
       | inl e => inl e
       end)).
Proof.
  destruct parsed as [| | | | | |d];
    try (right; left; split; [exact I | reflexivity]).
  destruct (has_coordinates d) eqn:Hc.
  { left. exists d. rewrite (resolve_step_kept d Hc). auto. }
  destruct (dict_get d (lit "location") (VStr (lit "London")))
    as [| | | |location| |] eqn:Hl;
    try (right; left;
         assert (Hu : unresolvable (VDict d))
           by (split; [exact Hc | rewrite Hl; discriminate]);
         split; [exact Hu | apply resolve_step_unresolvable, Hu]).
  right. right. exists d, location.
  split; [reflexivity|]. split; [exact Hc|]. split; [exact Hl|].
  apply resolve_step_filled; assumption.
Qed.

(** The two ways in which the step succeeds. *)
Lemma resolve_step_result w parsed d :
  result w (resolve_step parsed) = inr d ->
  exists d0,
    parsed = VDict d0 /\
    ((has_coordinates d0 = true /\ d = d0) \/
     (has_coordinates d0 = false /\
      exists lat lon,
        d = <[lit "longitude" := VFloat lon]>
            (<[lit "latitude" := VFloat lat]> d0))).
Proof.
  unfold result.
  destruct (resolve_step_cases w parsed)
    as [(d0 & -> & Hc & ->) | [[_ ->] | (d0 & location & -> & Hc & _ & ->)]];
    cbn [snd].
  - intros [= <-]. exists d0. auto.
  - discriminate.
  - destruct (result w (GeocodingService.get_coordinates location))
      as [e | [lat lon]]; [discriminate|].
    intros [= <-]. exists d0. split; [reflexivity|]. right. eauto.
Qed.


(** The calls of the step: none, or one lookup. *)
Lemma resolve_step_one_lookup w parsed :
  calls w (resolve_step parsed) = [] \/
  exists location,
    calls w (resolve_step parsed)
    = [HttpCall nominatim_url (nominatim_params location)].
Proof.
  unfold calls at 1 2.
  destruct (resolve_step_cases w parsed)
    as [(d0 & -> & Hc & ->) | [[_ ->] | (d0 & location & -> & Hc & _ & ->)]];
    cbn [fst]; auto.
  destruct (calls_get_coordinates_cases w location) as [-> | ->]; eauto.
Qed.

(** The step changes nothing but the two coordinates. *)
Lemma resolve_step_frame w parsed d0 d key :
  parsed = VDict d0 -> result w (resolve_step parsed) = inr d ->
  key <> lit "latitude" -> key <> lit "longitude" ->
  d !! key = d0 !! key.
Proof.
  intros -> Hr Hlat Hlon.
  apply resolve_step_result in Hr as (d1 & [= <-] & Hcases).
  destruct Hcases as [[_ ->] | [_ (lat & lon & ->)]]; [reflexivity|].
  rewrite !lookup_insert_ne by congruence. reflexivity.
Qed.
End ResolutionStep.

(** C7 — the code does not keep a decoded coordinate that is zero: for a
    decoded request with latitude 0 and longitude -78.5, [run]'s resolution
    step calls the resolver on the location and overwrites both values
    (here, with no network, by London's). *)
Lemma resolve_step_zero_latitude :
  let w := offline (fun _ => []) [] in
  quito_request !! lit "latitude" = Some (VInt 0) /\
  quito_request !! lit "longitude" = Some (VFloat (decimal_literal (-785) 1)) /\
  calls w (@resolve_step (ascii_lib no_json) (VDict quito_request))
  = [HttpCall nominatim_url
       [(lit "q", VStr (lit "Quito")); (lit "format", VStr (lit "json"));
        (lit "limit", VInt 1)]] /\
  result w (@resolve_step (ascii_lib no_json) (VDict quito_request))
  = inr (<[lit "longitude" := VFloat (snd london)]>
         (<[lit "latitude" := VFloat (fst london)]> quito_request)).
Proof.
  intros w. repeat split; vm_compute; reflexivity.
Qed.

(** When both decoded coordinates are taken for true, the step returns the
    request as it is, without any call. *)
Lemma resolve_step_keeps_coordinates `{PyLib} (w : world) (d : gmap str pyval) :
  has_coordinates d = true ->
  exec w (resolve_step (VDict d)) = ([], inr d).
Proof. intros Hc. now rewrite (resolve_step_kept d Hc). Qed.

Lemma offline_fallback_witness :
  let w := offline (fun _ => []) [] in
  result w (@GeocodingService.get_coordinates (ascii_lib no_json)
              (lit "Greater London area")) = inr london /\
  result w (@GeocodingService.get_coordinates (ascii_lib no_json)
              (lit "somewhere in Tokyo, near Paris")) = inr (decimal_literal 488566 4, decimal_literal 23522 4) /\
  result w (@GeocodingService.get_coordinates (ascii_lib no_json)
              (lit "Atlantis")) = inr london.
Proof.
  intros w.
  pose proof (proj1 (@offline_fallback (ascii_lib no_json)) w) as Hfb.
  split; [|split].
  - apply (proj1 (Hfb (lit "Greater London area") eq_refl eq_refl)).
    exists [], (lit "london"), (List.tl (@major_cities)).
    split; [reflexivity|]. split; [|intros c xy []].
    apply contains_true. reflexivity.
  - apply (proj1 (Hfb (lit "somewhere in Tokyo, near Paris") eq_refl eq_refl)).
    exists (firstn 2 (@major_cities)), (lit "paris"),
           (skipn 3 (@major_cities)).
    split; [reflexivity|]. split; [apply contains_true; reflexivity|].
    intros c xy [Hc | [Hc | []]]; injection Hc as <- _;
      apply contains_false; reflexivity.
  - apply (proj2 (Hfb (lit "Atlantis") eq_refl eq_refl)); [|reflexivity].
    intros c xy Hin. apply contains_false.
    repeat (destruct Hin as [Hc | Hin]; [injection Hc as <- _; reflexivity|]).
    destruct Hin.
Defined.

(** ** The outcomes of the lookup, one by one *)

(** An answer with coordinates is used; an empty list, a body that is not
    JSON, an entry without the fields, fields that are not numbers, an
    error status and a failed connection all end in [None], and none of
    them raises. *)
Lemma geocode_nominatim_outcomes :
  let lookup reply :=
    result (serving reply)
           (@_geocode_nominatim (ascii_lib geo_decoder) (lit "London")) in
  lookup (Response 200 found_body)
  = inr (Some (decimal_literal 515073 4, decimal_literal (-1276) 4)) /\
  lookup (Response 200 empty_body) = inr None /\
  lookup (Response 200 html_body) = inr None /\
  lookup (Response 200 fieldless_body) = inr None /\
  lookup (Response 200 wordy_body) = inr None /\
  lookup (Response 503 found_body) = inr None /\
  lookup NoResponse = inr None.
Proof. repeat split; vm_compute; reflexivity. Qed.

(** ** The matcher on some inputs *)

(** Parentheses are removed wherever they stand, several separators count
    as one, a point needs no digits after it, and a number that rounds to
    the bound is within it; a leading point, a third number and a value
    out of range give no match. *)
Lemma is_coordinate_pair_examples :
  let matcher := @_is_coordinate_pair (ascii_lib no_json) in
  matcher (lit "(40.7128, -74.0060)")
  = Ret (Some (decimal_literal 407128 4, decimal_literal (-740060) 4)) /\
  matcher (lit "4(0), 5") = Ret (Some (float_of_Z 40, float_of_Z 5)) /\
  matcher (lit "1 ,, 2") = Ret (Some (float_of_Z 1, float_of_Z 2)) /\
  matcher (lit "5. 6") = Ret (Some (float_of_Z 5, float_of_Z 6)) /\
  matcher (lit "90.00000000000000000000001, 0")
  = Ret (Some (float_of_Z 90, S754_zero false)) /\
  matcher (lit ".5, 1") = Ret None /\
  matcher (lit "1 2 3") = Ret None /\
  matcher (lit "91, 0") = Ret None /\
  matcher (lit "0, 180.5") = Ret None.
Proof. repeat split; vm_compute; reflexivity. Qed.

(** * Further properties *)

(** ** More on strings *)

Lemma occurs_refl s : occurs s s.
Proof. exists [], []. simpl. now rewrite app_nil_r. Qed.

Lemma occurs_trans a b c : occurs a b -> occurs b c -> occurs a c.
Proof.
  intros (x & y & ->) (x' & y' & ->). exists (x' ++ x), (y ++ y').
  now rewrite <- !app_assoc.
Qed.

Lemma occurs_length a b : occurs a b -> (length a <= length b)%nat.
Proof. intros (x & y & ->). rewrite !length_app. lia. Qed.

Lemma strip_occurs s : occurs (strip s) s.
Proof.
  destruct (strip_decompose s) as (p & q & Hs & _).
  exists p, q. exact Hs.
Qed.

Lemma slice_occurs s a b : occurs (slice s a b) s.
Proof.
  unfold slice.
  set (m := Z.to_nat (slice_index (Z.of_nat (length s)) a)).
  set (n := Z.to_nat _).
  exists (take m s), (drop n (drop m s)).
  rewrite take_drop, take_drop. reflexivity.
Qed.

Lemma fence_candidate_occurs c : occurs (fence_candidate c) c.
Proof.
  unfold fence_candidate.
  destruct (contains fence_json c);
    [|destruct (contains fence c); [|apply occurs_refl]];
    (eapply occurs_trans; [apply strip_occurs | apply slice_occurs]).
Qed.

Lemma brace_slice_occurs c : occurs (brace_slice c) c.
Proof.
  unfold brace_slice.
  destruct (_ && _); [apply slice_occurs | apply occurs_refl].
Qed.

(** Whitespace around a text does not change what [strip] gives. *)
Lemma lstrip_pad p s : all_space p = true -> lstrip (p ++ s) = lstrip s.
Proof.
  induction p as [|c p IH]; simpl; [reflexivity|].
  intros H. apply andb_true_iff in H as [-> H]. exact (IH H).
Qed.

Lemma all_space_rev p : all_space p = true -> all_space (rev p) = true.
Proof.
  unfold all_space. rewrite !forallb_forall. intros H c Hc.
  apply H. apply in_rev. exact Hc.
Qed.

Lemma rstrip_pad s q : all_space q = true -> rstrip (s ++ q) = rstrip s.
Proof.
  intros H. unfold rstrip. rewrite rev_app_distr.
  now rewrite lstrip_pad by (apply all_space_rev, H).
Qed.

Lemma strip_pad p s q :
  all_space p = true -> all_space q = true -> strip (p ++ s ++ q) = strip s.
Proof.
  intros Hp Hq. unfold strip. rewrite lstrip_pad by exact Hp.
  destruct (lstrip_suffix s) as (ws & Hs & Hws).
  destruct (lstrip_head s) as [E | E].
  - rewrite E in Hs. rewrite app_nil_r in Hs. subst ws.
    rewrite lstrip_all_space.
    + rewrite E. reflexivity.
    + unfold all_space in *. rewrite forallb_app, Hws, Hq. reflexivity.
  - rewrite Hs at 1. rewrite <- app_assoc, lstrip_pad by exact Hws.
    rewrite (lstrip_solid (lstrip s ++ q)) by (apply head_solid_app, E).
    apply rstrip_pad, Hq.
Qed.

(** X1 — [_extract_json] only cuts: its result is a contiguous part of the
    reply, so it is never longer than the reply. *)
Theorem extract_json_is_part (reply : str) :
  occurs (_extract_json reply) reply /\
  (length (_extract_json reply) <= length reply)%nat.
Proof.
  assert (H : occurs (_extract_json reply) reply).
  { rewrite _extract_json_steps.
    eapply occurs_trans; [apply brace_slice_occurs|].
    eapply occurs_trans; [apply fence_candidate_occurs | apply strip_occurs]. }
  split; [exact H | apply occurs_length, H].
Qed.

(** X2 — whitespace around the reply does not matter to [_extract_json]. *)
Theorem extract_json_ignores_padding (p reply q : str) :
  all_space p = true -> all_space q = true ->
  _extract_json (p ++ reply ++ q) = _extract_json reply.
Proof.
  intros Hp Hq. rewrite !_extract_json_steps. now rewrite strip_pad.
Qed.

Lemma extract_json_ignores_padding_witness :
  _extract_json (nl ++ lit "  " ++ paris_reply ++ lit " " ++ nl)
  = _extract_json paris_reply.
Proof.
  replace (nl ++ lit "  " ++ paris_reply ++ lit " " ++ nl)
    with ((nl ++ lit "  ") ++ paris_reply ++ (lit " " ++ nl))
    by (now rewrite <- !app_assoc).
  apply extract_json_ignores_padding; reflexivity.
Defined.

(** ** More on the response parser *)

Lemma first_split_char_inv c s a r : first_split [c] s a r -> ~ In c a.
Proof.
  intros [Hs Hmin] Hin. apply in_split in Hin as (x & y & ->).
  specialize (Hmin x (y ++ [c] ++ r)).
  rewrite Hs, <- !app_assoc in Hmin. specialize (Hmin eq_refl).
  rewrite !length_app in Hmin. simpl in Hmin. lia.
Qed.

Lemma last_split_char_inv c s p q : last_split [c] s p q -> ~ In c q.
Proof.
  intros [Hs Hmax] Hin. apply in_split in Hin as (x & y & ->).
  specialize (Hmax (p ++ [c] ++ x) y).
  rewrite Hs, <- !app_assoc in Hmax. specialize (Hmax eq_refl).
  rewrite !length_app in Hmax. simpl in Hmax. lia.
Qed.

Lemma brace_slice_shape c :
  (exists mid, brace_slice c = [lbrace] ++ mid ++ [rbrace]) \/
  (brace_slice c = c /\ no_brace_pair c).
Proof.
  destruct (find_from_spec [lbrace] c 0) as [[_ Hno] | (a & r & Ha & Hfa)].
  { right. rewrite occurs_char in Hno. split; [apply brace_slice_no_open, Hno|].
    intros (x & mid & y & ->). apply Hno. rewrite !in_app_iff. simpl. tauto. }
  destruct (rfind_from_spec [rbrace] c 0 ltac:(lia))
    as [[_ Hno] | (p & q & Hp & Hfp)].
  { right. rewrite occurs_char in Hno. split; [apply brace_slice_no_close, Hno|].
    intros (x & mid & y & ->). apply Hno. rewrite !in_app_iff. simpl. tauto. }
  pose proof (first_split_char_inv _ _ _ _ Ha) as Hina.
  pose proof (last_split_char_inv _ _ _ _ Hp) as Hinq.
  destruct Ha as [Hca Hmin]. destruct Hp as [Hcp Hmax].
  destruct (le_lt_dec (length p) (length a)) as [Hle | Hlt].
  - right. split.
    + unfold brace_slice. change (lit "{") with [lbrace].
      change (lit "}") with [rbrace]. unfold rfind.
      rewrite find_0, Hfa, Hfp.
      destruct (Z.geb_spec (0 + Z.of_nat (length a)) 0); [|lia].
      destruct (Z.gtb_spec (0 + Z.of_nat (length p) + 1)
                           (0 + Z.of_nat (length a))); [|reflexivity].
      exfalso. assert (E : length p = length a) by lia.
      assert (Hc : (a ++ [lbrace] ++ r) !! length a = Some lbrace)
        by (apply list_lookup_middle; reflexivity).
      rewrite <- Hca, Hcp, <- E in Hc.
      pose proof (list_lookup_middle p q rbrace (length p) eq_refl) as Hr.
      change (rbrace :: q) with ([rbrace] ++ q) in Hr.
      rewrite Hr in Hc. discriminate Hc.
    + intros (x & mid & y & Hc).
      pose proof (Hmin x _ Hc) as H1.
      assert (Hc' : c = (x ++ [lbrace] ++ mid) ++ [rbrace] ++ y)
        by (rewrite Hc; now rewrite <- !app_assoc).
      pose proof (Hmax _ _ Hc') as H2.
      rewrite !length_app in H2. simpl in H2. lia.
  - left. exists (take (length p - length a - 1) r).
    assert (Hpa : p = a ++ [lbrace] ++ take (length p - length a - 1) r).
    { assert (E : take (length p) c = p) by (rewrite Hcp; apply take_app_length).
      rewrite <- E at 1. rewrite Hca.
      rewrite take_app_ge by lia. f_equal.
      destruct (length p - length a)%nat as [|k] eqn:Ek; [lia|].
      simpl. now rewrite Nat.sub_0_r. }
    rewrite Hcp. rewrite Hpa at 1. rewrite <- !app_assoc.
    apply brace_slice_object; assumption.
Qed.

(** X3 — what [_extract_json] returns either starts with an opening brace
    and ends with a closing brace, or is the candidate as it was, in which
    no opening brace is followed by a closing brace. *)
Theorem extract_json_braces (reply : str) :
  (exists mid, _extract_json reply = [lbrace] ++ mid ++ [rbrace]) \/
  (_extract_json reply = fence_candidate (strip reply) /\
   no_brace_pair (_extract_json reply)).
Proof.
  rewrite _extract_json_steps.
  destruct (brace_slice_shape (fence_candidate (strip reply)))
    as [H | [E H]]; [left; exact H | right].
  rewrite E. split; [reflexivity | exact H].
Qed.

Lemma candidate_plain_open cleaned pre rest :
  ~ occurs fence_json cleaned ->
  first_split fence cleaned pre rest ->
  ~ occurs fence rest ->
  find cleaned fence (find cleaned fence 0 + 3) = -1 /\
  fence_candidate cleaned = strip (removelast rest).
Proof.
  intros H0 H1 H2. unfold fence_candidate.
  apply contains_false in H0. rewrite H0.
  assert (Hc : contains fence cleaned = true).
  { apply contains_true. exists pre, rest. apply H1. }
  rewrite Hc, (find_first _ _ _ _ H1).
  assert (Hs : cleaned = (pre ++ fence) ++ rest).
  { rewrite <- app_assoc. apply H1. }
  replace (Z.of_nat (length pre) + 3)
    with (Z.of_nat (length (pre ++ fence)))
    by (rewrite length_app; simpl length; lia).
  rewrite (find_after_none _ _ _ _ Hs H2). split; [reflexivity|].
  rewrite Hs at 1. rewrite slice_to_minus_one. reflexivity.
Qed.

(** X4 — a plain fence that is never closed: when the stripped reply has
    a fence marker, none after it and no marked opener, the closing marker
    is searched in vain, the result [-1] is used as the end of the slice,
    and the candidate loses its last character. *)
Theorem extract_json_unclosed_plain_fence (reply pre rest : str) :
  ~ occurs fence_json (strip reply) ->
  first_split fence (strip reply) pre rest ->
  ~ occurs fence rest ->
  find (strip reply) fence (find (strip reply) fence 0 + 3) = -1 /\
  _extract_json reply = brace_slice (strip (removelast rest)).
Proof.
  intros H0 H1 H2. rewrite _extract_json_steps.
  destruct (candidate_plain_open _ _ _ H0 H1 H2) as [E1 E2].
  split; [exact E1 | now rewrite E2].
Qed.

Lemma extract_json_unclosed_plain_fence_witness :
  _extract_json (lit "Answer: ```" ++ nl ++ lit_dq "{'a': 1}" ++ nl)
  = lit_dq "{'a': 1".
Proof.
  destruct (extract_json_unclosed_plain_fence
              (lit "Answer: ```" ++ nl ++ lit_dq "{'a': 1}" ++ nl)
              (lit "Answer: ") (nl ++ lit_dq "{'a': 1}")) as [_ E].
  - apply contains_false. vm_compute. reflexivity.
  - apply first_split_by_find; vm_compute; reflexivity.
  - apply contains_false. vm_compute. reflexivity.
  - rewrite E. vm_compute. reflexivity.
Defined.

(** X5 — a reply without fence markers and without an opening (or without
    a closing) brace comes back stripped and otherwise unchanged: this is
    the text that [json.loads] then rejects. *)
Theorem extract_json_prose (reply : str) :
  ~ occurs fence reply ->
  ~ In lbrace reply \/ ~ In rbrace reply ->
  _extract_json reply = strip reply.
Proof.
  intros Hf Hb. rewrite _extract_json_steps.
  rewrite candidate_none by (intros H; apply Hf, occurs_strip, H).
  assert (Hin : forall c, In c (strip reply) -> In c reply).
  { intros c Hc. destruct (strip_decompose reply) as (p & q & Hs & _).
    rewrite Hs. apply in_or_app. right. apply in_or_app. left. exact Hc. }
  destruct Hb as [Hb | Hb].
  - apply brace_slice_no_open. intros H. apply Hb, Hin, H.
  - apply brace_slice_no_close. intros H. apply Hb, Hin, H.
Qed.

Lemma extract_json_prose_witness :
  _extract_json (lit "  Sorry, I cannot help with that. " ++ nl)
  = lit "Sorry, I cannot help with that.".
Proof.
  rewrite extract_json_prose.
  - vm_compute. reflexivity.
  - apply contains_false. vm_compute. reflexivity.
  - left. vm_compute. intuition discriminate.
Defined.

(** ** More on the coordinate matcher *)

Lemma float_between_finite lo hi x :
  is_finite lo = true -> is_finite hi = true ->
  float_le lo x = true -> float_le x hi = true -> is_finite x = true.
Proof.
  unfold float_le, SFleb.
  destruct x as [s|[]| |s m e]; try reflexivity;
    destruct lo as [sl|sl| |sl ml el]; try discriminate;
    destruct hi as [sh|sh| |sh mh eh]; try discriminate;
    try destruct sl; try destruct sh; simpl; discriminate.
Qed.

Lemma in_range_finite lat lon :
  in_range lat lon = true -> is_finite lat = true /\ is_finite lon = true.
Proof.
  unfold in_range. rewrite !andb_true_iff. intros [[[H1 H2] H3] H4]. split.
  - apply (float_between_finite (float_of_Z (-90)) (float_of_Z 90));
      auto; reflexivity.
  - apply (float_between_finite (float_of_Z (-180)) (float_of_Z 180));
      auto; reflexivity.
Qed.

Lemma remove_char_all_space c p :
  is_space c = false -> all_space p = true -> remove_char c p = p.
Proof.
  intros Hc. unfold remove_char, all_space.
  induction p as [|x p IH]; simpl; [reflexivity|].
  intros Hp. apply andb_true_iff in Hp as [Hx Hp].
  destruct (N.eqb_spec x c) as [-> | _]; [congruence|].
  simpl. now rewrite IH.
Qed.

Lemma remove_char_pad c p s q :
  is_space c = false -> all_space p = true -> all_space q = true ->
  remove_char c (p ++ s ++ q) = p ++ remove_char c s ++ q.
Proof.
  intros Hc Hp Hq.
  rewrite <- (remove_char_all_space c p Hc Hp) at 2.
  rewrite <- (remove_char_all_space c q Hc Hq) at 2.
  unfold remove_char. now rewrite !List.filter_app.
Qed.

Lemma remove_parens_pad p s q :
  all_space p = true -> all_space q = true ->
  remove_parens (p ++ s ++ q) = p ++ remove_parens s ++ q.
Proof.
  intros Hp Hq. unfold remove_parens.
  rewrite (remove_char_pad lparen p s q eq_refl Hp Hq).
  apply (remove_char_pad rparen p _ q eq_refl Hp Hq).
Qed.

(** Stripping before the parentheses are removed changes nothing, since the
    text is stripped again afterwards. *)
Lemma clean_remove_parens location :
  clean location = strip (remove_parens location).
Proof.
  destruct (strip_decompose location) as (p & q & Hs & Hp & Hq).
  rewrite Hs at 2. rewrite (remove_parens_pad _ _ _ Hp Hq).
  rewrite (strip_pad _ _ _ Hp Hq). reflexivity.
Qed.

Section MatcherFacts.
Context `{PyLib}.

Lemma is_coordinate_pair_clean a b :
  clean a = clean b -> _is_coordinate_pair a = _is_coordinate_pair b.
Proof.
  intros E. unfold _is_coordinate_pair.
  change (strip (remove_char rparen (remove_char lparen (strip a))))
    with (clean a).
  change (strip (remove_char rparen (remove_char lparen (strip b))))
    with (clean b).
  now rewrite E.
Qed.

Lemma coordinate_text_chars text n1 n2 c :
  coordinate_text text n1 n2 -> In c text ->
  is_numeric c = true \/ is_separator c = true.
Proof.
  intros (sep & -> & Hn1 & [_ Hsep] & Hn2 & _) Hin.
  apply group_text_numeral, group_text_numeric in Hn1, Hn2.
  rewrite forallb_forall in Hn1, Hn2, Hsep.
  rewrite !in_app_iff in Hin. destruct Hin as [Hin | [Hin | Hin]]; auto.
Qed.
End MatcherFacts.

(** X6 — a pair the matcher returns is a usable coordinate: the latitude
    lies in [-90, 90], the longitude in [-180, 180], and neither is an
    infinity or a NaN. *)
Theorem is_coordinate_pair_in_range `{PyLib} (location : str) (lat lon : float) :
  _is_coordinate_pair location = Ret (Some (lat, lon)) ->
  in_range lat lon = true /\ is_finite lat = true /\ is_finite lon = true.
Proof.
  intros E.
  destruct (is_coordinate_pair_cases location)
    as [(n1 & n2 & Hc & E') | [_ E']]; rewrite E' in E; [|discriminate].
  injection E as <- <-.
  destruct Hc as (sep & _ & _ & _ & _ & Hr).
  split; [exact Hr | apply in_range_finite, Hr].
Qed.

Lemma is_coordinate_pair_in_range_witness :
  in_range (decimal_literal 125 1) (decimal_literal (-7) 0) = true /\
  is_finite (decimal_literal 125 1) = true /\
  is_finite (decimal_literal (-7) 0) = true.
Proof.
  exact (@is_coordinate_pair_in_range (ascii_lib no_json) (lit "(12.5 -7)")
           (decimal_literal 125 1) (decimal_literal (-7) 0) eq_refl).
Defined.

(** X7 — parentheses anywhere in the input and whitespace around it do not
    count: two inputs that are equal once their parentheses are removed and
    the result is stripped get the same answer from the matcher. *)
Theorem is_coordinate_pair_ignores_parens `{PyLib} (a b : str) :
  strip (remove_parens a) = strip (remove_parens b) ->
  _is_coordinate_pair a = _is_coordinate_pair b.
Proof.
  intros E. apply is_coordinate_pair_clean.
  now rewrite !clean_remove_parens.
Qed.

Lemma is_coordinate_pair_ignores_parens_witness :
  @_is_coordinate_pair (ascii_lib no_json) (lit "(40.7128, -74.0060)")
  = @_is_coordinate_pair (ascii_lib no_json) (lit "  4)0.7128, ((-74.0060 ").
Proof.
  apply (@is_coordinate_pair_ignores_parens (ascii_lib no_json)).
  vm_compute. reflexivity.
Defined.

(** X8 — one foreign character is enough: when the input, without its
    parentheses and surrounding whitespace, holds a character that is
    neither a digit, a minus sign or a period, nor a comma or whitespace,
    the matcher answers [None]. *)
Theorem is_coordinate_pair_foreign_character `{PyLib} (location : str) (c : char) :
  In c (strip (remove_parens location)) ->
  is_numeric c = false -> is_separator c = false ->
  _is_coordinate_pair location = Ret None.
Proof.
  rewrite <- clean_remove_parens. intros Hin Hn Hs.
  destruct (is_coordinate_pair_cases location)
    as [(n1 & n2 & Hc & _) | [_ E]]; [|exact E].
  destruct (coordinate_text_chars _ _ _ _ Hc Hin); congruence.
Qed.

Lemma is_coordinate_pair_foreign_character_witness :
  @_is_coordinate_pair (ascii_lib no_json) (lit "12.5N, 7W") = Ret None.
Proof.
  apply (@is_coordinate_pair_foreign_character (ascii_lib no_json)
           (lit "12.5N, 7W") 78%N).
  - vm_compute. tauto.
  - reflexivity.
  - reflexivity.
Defined.


(** ** The coordinate matcher, as specified *)

Lemma without_parens_remove s : without_parens s = remove_parens s.
Proof.
  unfold without_parens, remove_parens, remove_char, is_paren.
  induction s as [|c s IH]; simpl; [reflexivity|].
  destruct (N.eqb c lparen) eqn:El; simpl; [exact IH|].
  destruct (N.eqb c rparen) eqn:Er; simpl; [exact IH | now rewrite IH].
Qed.

Lemma float_le_compare a b :
  float_le a b = true <->
  SFcompare a b = Some Lt \/ SFcompare a b = Some Eq.
Proof.
  unfold float_le, SFleb.
  destruct (SFcompare a b) as [[]|]; split; intros Hc; auto;
    try discriminate; destruct Hc; discriminate.
Qed.

Lemma in_range_between lat lon :
  in_range lat lon = true <-> between (-90) 90 lat /\ between (-180) 180 lon.
Proof.
  unfold in_range, between. rewrite !andb_true_iff, !float_le_compare. tauto.
Qed.

Section MatcherSpecification.
Context `{PyLib}.

Lemma pair_reading_text text n1 n2 :
  pair_reading text n1 n2 <-> coordinate_text text n1 n2.
Proof.
  unfold pair_reading, coordinate_text, separator. split.
  - intros (sep & Ht & Hn1 & Hne & Hsep & Hn2 & Hlat & Hlon). exists sep.
    repeat split; try assumption.
    + apply forallb_forall. intros c Hc. unfold is_separator.
      destruct (Hsep c Hc) as [-> | ->]; [reflexivity | apply orb_true_r].
    + apply in_range_between. auto.
  - intros (sep & Ht & Hn1 & [Hne Hsep] & Hn2 & Hr). exists sep.
    apply in_range_between in Hr as [Hlat Hlon].
    repeat split; try assumption; try apply Hlat; try apply Hlon.
    intros c Hc. rewrite forallb_forall in Hsep. specialize (Hsep c Hc).
    unfold is_separator in Hsep. apply orb_true_iff in Hsep as [Hs | Hs];
      [left; now apply N.eqb_eq | right; exact Hs].
Qed.

Lemma pair_reading_clean location n1 n2 :
  pair_reading (strip (without_parens location)) n1 n2 <->
  coordinate_text (clean location) n1 n2.
Proof.
  rewrite without_parens_remove, <- clean_remove_parens.
  apply pair_reading_text.
Qed.

Lemma pair_reading_chars text n1 n2 c :
  pair_reading text n1 n2 -> In c text ->
  is_numeric c = true \/ is_separator c = true.
Proof.
  intros Hp. apply pair_reading_text in Hp.
  exact (coordinate_text_chars _ _ _ c Hp).
Qed.
End MatcherSpecification.

(** C1, as amended — the coordinate matcher: when the input, with every
    parenthesis deleted wherever it stands and the whitespace at its two
    ends stripped, reads as a numeral, one or more separators (commas or
    whitespace), a numeral and nothing else, and the two numbers lie in
    [-90, 90] and [-180, 180], the result is exactly that pair; for every
    other input the result is [None]. *)
Theorem is_coordinate_pair_characterization `{PyLib} (location : str) :
  (forall n1 n2,
      pair_reading (strip (without_parens location)) n1 n2 ->
      _is_coordinate_pair location = Ret (Some (value n1, value n2))) /\
  ((forall n1 n2, ~ pair_reading (strip (without_parens location)) n1 n2) ->
   _is_coordinate_pair location = Ret None).
Proof.
  split.
  - intros n1 n2 Hp. apply is_coordinate_pair_some, pair_reading_clean, Hp.
  - intros Hno.
    destruct (is_coordinate_pair_cases location)
      as [(n1 & n2 & Hc & _) | [_ E]]; [|exact E].
    destruct (Hno n1 n2). apply pair_reading_clean, Hc.
Qed.

Lemma is_coordinate_pair_characterization_witness :
  @_is_coordinate_pair (ascii_lib no_json) (lit "(40.7128, -74.0060)")
  = Ret (Some (@value (ascii_lib no_json) (lit "40.7128"),
               @value (ascii_lib no_json) (lit "-74.0060"))).
Proof.
  apply (proj1 (@is_coordinate_pair_characterization (ascii_lib no_json)
                  (lit "(40.7128, -74.0060)"))).
  apply (@pair_reading_text (ascii_lib no_json)). exact new_york_text.
Defined.

(** C1, as stated, fails: parentheses inside the input are not
    "surrounding", so that "1(2, 3)4", from whose ends nothing is to be
    stripped, holds extra characters and is no pair; the code deletes
    them and returns (12.0, 34.0). *)
Lemma is_coordinate_pair_characterization_counterexample :
  let location := lit "1(2, 3)4" in
  unwrap location = location /\
  (forall n1 n2, ~ @pair_reading (ascii_lib no_json) (unwrap location) n1 n2) /\
  @_is_coordinate_pair (ascii_lib no_json) location
  = Ret (Some (float_of_Z 12, float_of_Z 34)).
Proof.
  intros location. split; [reflexivity|]. split; [|vm_compute; reflexivity].
  intros n1 n2 Hp.
  destruct (@pair_reading_chars (ascii_lib no_json) _ _ _ lparen Hp)
    as [Hc | Hc]; try discriminate Hc.
  vm_compute. tauto.
Qed.

(** ** More on the geocoding lookup *)

Section LookupFacts.
Context `{PyLib}.

Lemma float_of_cases v :
  (exists f, float_of v = Ret f) \/ (exists e, float_of v = Raise e).
Proof.
  destruct v as [|b|z|f|s|l|d]; simpl; eauto.
  - destruct (float_of_Z z); eauto.
  - destruct (py_float s); eauto.
Qed.

(** A location that cannot be encoded is not looked up. *)
Lemma geocode_nominatim_unsendable w location :
  utf8_encodable location = false ->
  exec w (_geocode_nominatim location) = ([], inr None).
Proof.
  intros Hu. unfold _geocode_nominatim.
  rewrite (exec_try_as_ret w _ _ None lookup_notice).
  rewrite calls_bind, result_bind, calls_get_json, result_get_json.
  change [(lit "q", VStr location); (lit "format", VStr (lit "json"));
          (lit "limit", VInt 1)] with (nominatim_params location).
  now rewrite sendable_nominatim, Hu.
Qed.

Lemma geocode_nominatim_found w location lat lon :
  utf8_encodable location = true ->
  lookup_found (http_get w nominatim_url (nominatim_params location)) lat lon ->
  result w (_geocode_nominatim location) = inr (Some (lat, lon)).
Proof.
  intros Hu (status & body & d & rest & lat_value & lon_value &
             Hr & Hs & Hj & Hlat & Hflat & Hlon & Hflon).
  unfold _geocode_nominatim, result at 1.
  rewrite (exec_try_as_ret w _ _ None lookup_notice). cbn [snd].
  rewrite result_bind, result_get_json.
  change [(lit "q", VStr location); (lit "format", VStr (lit "json"));
          (lit "limit", VInt 1)] with (nominatim_params location).
  rewrite sendable_nominatim, Hu, Hr, Hs, Hj.
  cbn [truthy length Nat.eqb negb getitem_0 bind getitem_str].
  rewrite Hlat. cbn [bind]. rewrite Hflat. cbn [bind].
  rewrite Hlon. cbn [bind]. rewrite Hflon. reflexivity.
Qed.

Lemma geocode_nominatim_found_inv w location lat lon :
  result w (_geocode_nominatim location) = inr (Some (lat, lon)) ->
  utf8_encodable location = true /\
  lookup_found (http_get w nominatim_url (nominatim_params location)) lat lon.
Proof.
  destruct (utf8_encodable location) eqn:Hu.
  2:{ unfold result. rewrite (geocode_nominatim_unsendable w _ Hu).
      discriminate. }
  unfold _geocode_nominatim, result at 1.
  rewrite (exec_try_as_ret w _ _ None lookup_notice). cbn [snd].
  rewrite result_bind, result_get_json.
  change [(lit "q", VStr location); (lit "format", VStr (lit "json"));
          (lit "limit", VInt 1)] with (nominatim_params location).
  rewrite sendable_nominatim, Hu.
  destruct (http_get w nominatim_url (nominatim_params location))
    as [|status body] eqn:Hr; [discriminate|].
  destruct (error_status status) eqn:Hs; [discriminate|].
  destruct (json_loads body) as [e | data] eqn:Hj; [discriminate|].
  destruct data as [|b|z|f|[|c s]|[|first rest]|d0];
    try discriminate;
    try (destruct (truthy _); discriminate).
  cbn [truthy length Nat.eqb negb getitem_0 bind].
  destruct first as [|b|z|f|s|l|d]; try discriminate.
  cbn [getitem_str].
  destruct (d !! lit "lat") as [lat_value|] eqn:Hlat; [|discriminate].
  cbn [bind].
  destruct (float_of_cases lat_value) as [[x Hx] | [e He]];
    [rewrite Hx | rewrite He; discriminate].
  cbn [bind].
  destruct (d !! lit "lon") as [lon_value|] eqn:Hlon; [|discriminate].
  cbn [bind].
  destruct (float_of_cases lon_value) as [[y Hy] | [e He]];
    [rewrite Hy | rewrite He; discriminate].
  cbn [bind]. intros [= <- <-]. split; [reflexivity|].
  exists status, body, d, rest, lat_value, lon_value. auto 10.
Qed.
End LookupFacts.

(** X9 — the second tier: for an input the matcher does not recognize,
    [get_coordinates] sends exactly one request, to the geocoding service,
    asking for the input as it was given, in JSON, one result at most;
    for an input with a surrogate code point the request cannot be
    written and none is sent.  The coordinates the lookup yields are
    returned as they are. *)
Theorem get_coordinates_lookup `{PyLib} (w : world) (location : str) :
  _is_coordinate_pair location = Ret None ->
  (utf8_encodable location = true ->
   calls w (GeocodingService.get_coordinates location)
   = [HttpCall nominatim_url (nominatim_params location)]) /\
  (utf8_encodable location = false ->
   calls w (GeocodingService.get_coordinates location) = []) /\
  (forall coords,
      result w (_geocode_nominatim location) = inr (Some coords) ->
      result w (GeocodingService.get_coordinates location) = inr coords).
Proof.
  intros E. unfold calls, result at 2.
  rewrite (get_coordinates_unrecognized w _ E). cbn [fst snd].
  rewrite calls_geocode_nominatim. repeat split.
  - now intros ->.
  - now intros ->.
  - intros coords ->. reflexivity.
Qed.

Lemma get_coordinates_lookup_witness :
  let w := serving (Response 200 found_body) in
  calls w (@GeocodingService.get_coordinates (ascii_lib geo_decoder)
             (lit "Greenwich"))
  = [HttpCall nominatim_url (nominatim_params (lit "Greenwich"))] /\
  result w (@GeocodingService.get_coordinates (ascii_lib geo_decoder)
              (lit "Greenwich"))
  = inr (decimal_literal 515073 4, decimal_literal (-1276) 4).
Proof.
  intros w.
  destruct (@get_coordinates_lookup (ascii_lib geo_decoder) w
              (lit "Greenwich") eq_refl) as (Hc & _ & Hr).
  split; [apply Hc; reflexivity | apply Hr; reflexivity].
Defined.

(** X10 — when the lookup yields a coordinate: exactly when the location
    can be encoded, so that the request is sent, and the reply has a
    status that is no error (not in 400..599) and a body that decodes to
    a list whose first entry is an object with a [lat] and a [lon] that
    [float] accepts.  The other entries are not looked at, and the values
    are not checked against any range. *)
Theorem geocode_nominatim_characterization `{PyLib} (w : world)
        (location : str) (lat lon : float) :
  result w (_geocode_nominatim location) = inr (Some (lat, lon)) <->
  utf8_encodable location = true /\
  lookup_found (http_get w nominatim_url (nominatim_params location)) lat lon.
Proof.
  split; [apply geocode_nominatim_found_inv|].
  intros [Hu Hf]. apply geocode_nominatim_found; assumption.
Qed.

(** ** More on the interpretation and the resolution of the request *)

Section RequestFacts.
Context `{PyLib}.

Lemma london_unrecognized : _is_coordinate_pair (lit "London") = Ret None.
Proof.
  apply (is_coordinate_pair_other_head _ 76%N (lit "ondon"));
    try reflexivity. discriminate.
Qed.

Lemma get_coordinates_unprintable w location :
  _is_coordinate_pair location = Ret None ->
  first_city major_cities (py_lower location) = None ->
  utf8_encodable location = false ->
  exec w (GeocodingService.get_coordinates location)
  = ([], inl UnicodeEncodeError).
Proof.
  intros E Hc Hu. rewrite (get_coordinates_unrecognized w _ E).
  unfold calls, result. rewrite (geocode_nominatim_unsendable w _ Hu).
  cbn [fst snd]. now rewrite Hc, Hu.
Qed.

Lemma resolve_step_raises_inv w parsed e :
  result w (resolve_step parsed) = inl e ->
  (e = AttributeError /\ unresolvable parsed) \/
  (e = UnicodeEncodeError /\ default_unprintable parsed).
Proof.
  unfold result.
  destruct (resolve_step_cases w parsed)
    as [(d0 & -> & Hc & ->) | [[Hu ->] | (d0 & location & -> & Hc & Hl & ->)]];
    cbn [snd].
  - discriminate.
  - intros [= <-]. left. auto.
  - destruct (get_coordinates_outcome w location)
      as [[pair Hr] | (Hr & Hn & Em & Hf)]; rewrite Hr.
    + destruct pair. discriminate.
    + intros [= <-]. right. split; [reflexivity|].
      exists d0, location. auto 10.
Qed.

Lemma resolve_step_unprintable w parsed :
  default_unprintable parsed ->
  exec w (resolve_step parsed) = ([], inl UnicodeEncodeError).
Proof.
  intros (d & location & -> & Hc & Hl & Hu & Em & Hf).
  rewrite (resolve_step_filled w d location Hc Hl).
  unfold calls, result.
  now rewrite (get_coordinates_unprintable w _ Em Hf Hu).
Qed.
End RequestFacts.

(** X11 — coordinates typed by the user stay on the machine: when the
    matcher recognizes the input, [parse_user_request] makes no call at
    all, neither to the model nor to the network, and the request it
    builds carries the two numbers as floats, in range for a latitude and
    a longitude, under the weather type "current". *)
Theorem parse_user_request_direct_path `{PyLib} (w : world)
        (user_input : str) (lat lon : float) :
  _is_coordinate_pair user_input = Ret (Some (lat, lon)) ->
  exists request,
    exec w (parse_user_request user_input) = ([], inr (VDict request)) /\
    request !! lit "latitude" = Some (VFloat lat) /\
    request !! lit "longitude" = Some (VFloat lon) /\
    request !! lit "weather_type" = Some (VStr (lit "current")) /\
    in_range lat lon = true.
Proof.
  intros E. exists (direct_request lat lon).
  split; [apply parse_user_request_direct, E|].
  repeat split; try reflexivity.
  destruct (is_coordinate_pair_cases user_input)
    as [(n1 & n2 & Hc & E') | [_ E']]; rewrite E' in E; [|discriminate].
  injection E as <- <-. destruct Hc as (sep & _ & _ & _ & _ & Hr). exact Hr.
Qed.

Lemma parse_user_request_direct_path_witness :
  exists request,
    exec (offline (fun _ => []) [])
         (@parse_user_request (ascii_lib no_json) (lit "48.85, 2.35"))
    = ([], inr (VDict request)) /\
    request !! lit "latitude" = Some (VFloat (decimal_literal 4885 2)) /\
    request !! lit "longitude" = Some (VFloat (decimal_literal 235 2)).
Proof.
  destruct (@parse_user_request_direct_path (ascii_lib no_json)
              (offline (fun _ => []) []) (lit "48.85, 2.35")
              (decimal_literal 4885 2) (decimal_literal 235 2) eq_refl)
    as (request & He & Hlat & Hlon & _).
  exists request. auto.
Defined.

(** X12 — what [parse_user_request] raises: for an input that is no
    coordinate pair, the [AttributeError] of [strip] when the model
    handler returned something else than a text, and otherwise what
    [json.loads] raises on what [_extract_json] makes of the reply, if
    that is no [JSONDecodeError]; and nothing else. *)
Theorem parse_user_request_raises_exactly `{PyLib} (w : world)
        (user_input : str) (e : exn) :
  result w (parse_user_request user_input) = inl e <->
  _is_coordinate_pair user_input = Ret None /\
  ((e = AttributeError /\ forall reply, reply_to w user_input <> VStr reply) \/
   (exists reply,
       reply_to w user_input = VStr reply /\
       json_loads (_extract_json reply) = inl e /\
       is_JSONDecodeError e = false)).
Proof.
  split; [apply parse_user_request_raises|].
  intros [E Hcases]. unfold result.
  rewrite (parse_user_request_llm w _ E). cbn [snd].
  destruct Hcases as [[-> Hv] | (reply & -> & -> & ->)]; [|reflexivity].
  destruct (reply_to w user_input) as [| | | |reply| |]; try reflexivity.
  destruct (Hv reply eq_refl).
Qed.

(** X13 — what the resolution step of [run] raises: an [AttributeError]
    exactly when the interpreted request is no object (the [get] method
    is missing), or lacks a coordinate that Python takes for true while
    its location is no text (the [strip] method is missing); a
    [UnicodeEncodeError] exactly when the resolver is asked for a location
    with a surrogate code point in which the matcher sees no pair and
    that names no city of the table, so that the notice of the default is
    printed; and nothing else. *)
Theorem resolve_step_raises `{PyLib} (w : world) (parsed : pyval) (e : exn) :
  result w (resolve_step parsed) = inl e <->
  (e = AttributeError /\ unresolvable parsed) \/
  (e = UnicodeEncodeError /\ default_unprintable parsed).
Proof.
  split; [apply resolve_step_raises_inv|].
  unfold result. intros [[-> Hu] | [-> Hu]].
  - now rewrite (resolve_step_unresolvable w _ Hu).
  - now rewrite (resolve_step_unprintable w _ Hu).
Qed.

(** X14 — the default location: for a request without coordinates and
    without a [location] entry, the step looks "London" up: one request
    to the geocoding service, and London's coordinates from the table when
    the lookup yields none. *)
Theorem resolve_step_default_location `{PyLib} (w : world)
        (d : gmap str pyval) :
  has_coordinates d = false -> d !! lit "location" = None ->
  calls w (resolve_step (VDict d))
  = [HttpCall nominatim_url (nominatim_params (lit "London"))] /\
  exists lat lon,
    result w (resolve_step (VDict d))
    = inr (<[lit "longitude" := VFloat lon]>
           (<[lit "latitude" := VFloat lat]> d)) /\
    (result w (_geocode_nominatim (lit "London")) = inr None ->
     (lat, lon) = london).
Proof.
  intros Hc Hl.
  assert (Hd : dict_get d (lit "location") (VStr (lit "London"))
               = VStr (lit "London")) by (unfold dict_get; now rewrite Hl).
  unfold calls at 1, result at 1.
  rewrite (resolve_step_filled w d _ Hc Hd). cbn [fst snd].
  unfold calls, result at 1.
  rewrite (get_coordinates_unrecognized w _ london_unrecognized).
  cbn [fst snd]. split; [now rewrite calls_geocode_nominatim|].
  rewrite (lower_ascii (lit "London") eq_refl).
  change (first_city major_cities (ascii_lower (lit "London")))
    with (Some london).
  destruct (geocode_nominatim_returns w (lit "London")) as [[[lat lon]|] ->].
  - exists lat, lon. split; [reflexivity | discriminate].
  - exists (fst london), (snd london). split; reflexivity.
Qed.

Lemma resolve_step_default_location_witness :
  let w := offline (fun _ => []) [] in
  calls w (@resolve_step (ascii_lib no_json) (VDict nameless_request))
  = [HttpCall nominatim_url (nominatim_params (lit "London"))] /\
  exists lat lon,
    result w (@resolve_step (ascii_lib no_json) (VDict nameless_request))
    = inr (<[lit "longitude" := VFloat lon]>
           (<[lit "latitude" := VFloat lat]> nameless_request)) /\
    (lat, lon) = london.
Proof.
  intros w.
  destruct (@resolve_step_default_location (ascii_lib no_json) w
              nameless_request eq_refl eq_refl)
    as (Hc & lat & lon & Hr & Hl).
  split; [exact Hc|]. exists lat, lon. split; [exact Hr|].
  apply Hl. reflexivity.
Defined.

(** X15 — after the resolution step: the request holds a latitude and a
    longitude, so that the subscripts of [run] cannot fail, and every
    other entry is as it was. *)
Theorem resolve_step_postcondition `{PyLib} (w : world)
        (d0 d : gmap str pyval) :
  result w (resolve_step (VDict d0)) = inr d ->
  (exists latitude longitude,
      d !! lit "latitude" = Some latitude /\
      d !! lit "longitude" = Some longitude) /\
  (forall key,
      key <> lit "latitude" -> key <> lit "longitude" ->
      d !! key = d0 !! key).
Proof.
  intros Hr. apply resolve_step_result in Hr as (d1 & [= <-] & Hcases).
  destruct Hcases as [[Hc ->] | [_ (lat & lon & ->)]].
  - split; [|reflexivity].
    unfold has_coordinates, dict_get in Hc.
    apply andb_true_iff in Hc as [H1 H2].
    destruct (d0 !! lit "latitude") as [latitude|]; [|discriminate].
    destruct (d0 !! lit "longitude") as [longitude|]; [|discriminate].
    eauto.
  - split.
    + exists (VFloat lat), (VFloat lon).
      rewrite lookup_insert_ne by discriminate.
      rewrite !lookup_insert_eq. auto.
    + intros key Hlat Hlon.
      rewrite !lookup_insert_ne by congruence. reflexivity.
Qed.

Lemma resolve_step_postcondition_witness :
  exists latitude longitude,
    (<[lit "longitude" := VFloat (snd london)]>
     (<[lit "latitude" := VFloat (fst london)]> quito_request))
      !! lit "latitude" = Some latitude /\
    (<[lit "longitude" := VFloat (snd london)]>
     (<[lit "latitude" := VFloat (fst london)]> quito_request))
      !! lit "longitude" = Some longitude.
Proof.
  exact (proj1 (@resolve_step_postcondition (ascii_lib no_json)
                  (offline (fun _ => []) []) quito_request _ eq_refl)).
Defined.

(** ** The requests to the model *)

Section ModelFacts.
Context `{PyLib}.

Lemma send_request_cases reply :
  ApiRequest.send_request reply =
  match reply with
  | NoResponse => Raise Exception_
  | Response status body =>
      if error_status status then Raise Exception_
      else match json_loads body with
           | inr v => Ret v
           | inl e =>
               Raise (if is_JSONDecodeError e || is_RequestException e
                      then Exception_ else e)
           end
  end.
Proof.
  unfold ApiRequest.send_request.
  destruct reply as [|status body]; [reflexivity|].
  unfold raise_for_status, error_status.
  destruct ((400 <=? status)%N && (status <? 600)%N); [reflexivity|].
  unfold response_json. cbn [bind].
  destruct (json_loads body) as [e | v]; [|reflexivity].
  destruct (is_JSONDecodeError e); [reflexivity|].
  simpl. destruct (is_RequestException e); reflexivity.
Qed.

Lemma generate_response_failed exn_text reply e :
  ApiRequest.send_request reply = Raise e ->
  LLMHandler.generate_response exn_text reply
  = Ret (VStr (LLMHandler.error_prefix ++ exn_text e)).
Proof.
  intros E. unfold LLMHandler.generate_response. now rewrite E.
Qed.

Lemma generate_response_answered exn_text reply response :
  ApiRequest.send_request reply = Ret response ->
  LLMHandler.generate_response exn_text reply =
  match response with
  | VDict d =>
      match dict_get d (lit "message") (VDict ∅) with
      | VDict m => Ret (dict_get m (lit "content") (VStr []))
      | _ => Ret (VStr (LLMHandler.error_prefix ++ exn_text AttributeError))
      end
  | _ => Ret (VStr (LLMHandler.error_prefix ++ exn_text AttributeError))
  end.
Proof.
  intros E. unfold LLMHandler.generate_response. rewrite E. cbn [bind].
  destruct response as [| | | | | |d]; try reflexivity.
  cbn [py_get bind].
  destruct (dict_get d (lit "message") (VDict ∅)); reflexivity.
Qed.
End ModelFacts.

(** X20 — [send_request]: the decoded body comes back exactly when the
    reply has a status that is no error and a body that decodes; and no
    exception of [requests] leaves the function, each being turned into a
    plain [Exception]. *)
Theorem send_request_outcomes `{PyLib} (reply : http_reply) :
  (forall v,
      ApiRequest.send_request reply = Ret v <->
      exists status body,
        reply = Response status body /\ error_status status = false /\
        json_loads body = inr v) /\
  (forall e,
      ApiRequest.send_request reply = Raise e ->
      is_RequestException e = false).
Proof.
  rewrite send_request_cases. split.
  - intros v. split.
    + destruct reply as [|status body]; [discriminate|].
      destruct (error_status status) eqn:Hs; [discriminate|].
      destruct (json_loads body) as [e | v'] eqn:Hj; [discriminate|].
      intros [= ->]. eauto.
    + intros (status & body & -> & -> & ->). reflexivity.
  - intros e. destruct reply as [|status body]; [now intros [= <-]|].
    destruct (error_status status); [now intros [= <-]|].
    destruct (json_loads body) as [e' | v]; [|discriminate].
    destruct (is_JSONDecodeError e'); [now intros [= <-]|].
    destruct (is_RequestException e') eqn:Hr; now intros [= <-].
Qed.

(** X21 — [generate_response] never raises: it returns the content of the
    reply's message, or a text that starts with "Error generating
    response: ". *)
Theorem generate_response_never_raises `{PyLib} (exn_text : exn -> str)
        (reply : http_reply) :
  exists v,
    LLMHandler.generate_response exn_text reply = Ret v /\
    ((exists e, v = VStr (LLMHandler.error_prefix ++ exn_text e)) \/
     (exists status body d m,
         reply = Response status body /\ error_status status = false /\
         json_loads body = inr (VDict d) /\
         dict_get d (lit "message") (VDict ∅) = VDict m /\
         v = dict_get m (lit "content") (VStr []))).
Proof.
  pose proof (send_request_cases reply) as E.
  destruct reply as [|status body].
  { rewrite (generate_response_failed _ _ _ E). eauto. }
  destruct (error_status status) eqn:Hs.
  { rewrite (generate_response_failed _ _ _ E). eauto. }
  destruct (json_loads body) as [e | response] eqn:Hj.
  { rewrite (generate_response_failed _ _ _ E). eauto. }
  rewrite (generate_response_answered _ _ _ E).
  destruct response as [| | | | | |d]; eauto.
  destruct (dict_get d (lit "message") (VDict ∅)) as [| | | | | |m] eqn:Hm;
    eauto.
  eexists. split; [reflexivity|]. right.
  exists status, body, d, m. auto.
Qed.

(** X22 — the failures of the request to the model: without a response,
    with an error status, or with a body that is not JSON,
    [generate_response] returns the error text made from the plain
    [Exception] of [send_request]. *)
Theorem generate_response_request_failure `{PyLib} (exn_text : exn -> str)
        (reply : http_reply) :
  (reply = NoResponse \/
   exists status body,
     reply = Response status body /\
     (error_status status = true \/
      exists e, json_loads body = inl e /\ is_JSONDecodeError e = true)) ->
  LLMHandler.generate_response exn_text reply
  = Ret (VStr (LLMHandler.error_prefix ++ exn_text Exception_)).
Proof.
  intros Hf. apply generate_response_failed. rewrite send_request_cases.
  destruct Hf as [-> | (status & body & -> & Hf)]; [reflexivity|].
  destruct (error_status status); [reflexivity|].
  destruct Hf as [Hf | (e & -> & ->)]; [discriminate | reflexivity].
Qed.

Lemma generate_response_request_failure_witness :
  @LLMHandler.generate_response (ascii_lib no_json) plain_text
    (Response 200 html_body)
  = Ret (VStr (lit "Error generating response: API request failed")).
Proof.
  apply (@generate_response_request_failure (ascii_lib no_json) plain_text).
  right. exists 200%N, html_body. split; [reflexivity|].
  right. exists JSONDecodeError. split; reflexivity.
Defined.

(** X23 — a reply without the expected entries is no error: when the body
    decodes to an object that has no [message], or whose [message] is an
    object without [content], [generate_response] returns the empty
    text. *)
Theorem generate_response_missing_content `{PyLib} (exn_text : exn -> str)
        (status : N) (body : str) (d : gmap str pyval) :
  error_status status = false ->
  json_loads body = inr (VDict d) ->
  (d !! lit "message" = None \/
   exists m, d !! lit "message" = Some (VDict m) /\ m !! lit "content" = None) ->
  LLMHandler.generate_response exn_text (Response status body)
  = Ret (VStr []).
Proof.
  intros Hs Hj Hm.
  assert (E : ApiRequest.send_request (Response status body) = Ret (VDict d))
    by (now rewrite send_request_cases, Hs, Hj).
  rewrite (generate_response_answered _ _ _ E). unfold dict_get.
  destruct Hm as [-> | (m & -> & ->)]; reflexivity.
Qed.

Lemma generate_response_missing_content_witness :
  @LLMHandler.generate_response (ascii_lib object_decoder) plain_text
    (Response 200 (lit "{}"))
  = Ret (VStr []).
Proof.
  apply (@generate_response_missing_content (ascii_lib object_decoder)
           plain_text 200%N (lit "{}") ∅); [reflexivity | reflexivity|].
  left. reflexivity.
Defined.

(** ** The display of a summary *)

Lemma starts_with_length p s :
  starts_with p s = true -> (length p <= length s)%nat.
Proof.
  intros Hs. apply starts_with_spec in Hs as [r ->].
  rewrite length_app. lia.
Qed.

Lemma starts_with_occurs p s : starts_with p s = true -> occurs p s.
Proof.
  intros Hs. apply starts_with_spec in Hs as [r ->]. now exists [], r.
Qed.

Lemma occurs_cons old c t :
  occurs old (c :: t) -> starts_with old (c :: t) = true \/ occurs old t.
Proof.
  intros ([|x a] & b & Hs).
  - left. apply starts_with_spec. exists b. exact Hs.
  - right. injection Hs as _ ->. now exists a, b.
Qed.

Lemma occurs_cons_r old c t : occurs old t -> occurs old (c :: t).
Proof. intros (a & b & ->). now exists (c :: a), b. Qed.

(** A text in which [old] does not occur is left as it is. *)
Lemma replace_absent old new s : ~ occurs old s -> replace old new s = s.
Proof.
  unfold replace. induction s as [|c t IH]; intros Hno; [reflexivity|].
  cbn [replace_skip]. destruct (starts_with old (c :: t)) eqn:Hs.
  - destruct Hno. apply starts_with_occurs, Hs.
  - rewrite IH; [reflexivity|].
    intros Ho. apply Hno, occurs_cons_r, Ho.
Qed.

Lemma replace_skip_length old new :
  (length new <= length old)%nat -> (1 <= length old)%nat ->
  forall s k,
    (length (replace_skip old new k s) + Nat.min k (length s) <= length s)%nat.
Proof.
  intros Hn Ho. induction s as [|c t IH]; intros k; [simpl; lia|].
  destruct k as [|k].
  - cbn [replace_skip]. destruct (starts_with old (c :: t)) eqn:Hs.
    + apply starts_with_length in Hs. simpl in Hs.
      specialize (IH (length old - 1)%nat).
      rewrite length_app. simpl length. lia.
    + specialize (IH 0%nat). simpl length. simpl Nat.min. lia.
  - cbn [replace_skip]. specialize (IH k). simpl length. simpl Nat.min. lia.
Qed.

Lemma replace_skip_shorter old new :
  (length new < length old)%nat ->
  forall s k,
    occurs old (drop k s) ->
    (length (replace_skip old new k s) + Nat.min k (length s) < length s)%nat.
Proof.
  intros Hn. induction s as [|c t IH]; intros k Ho.
  - rewrite drop_nil in Ho. destruct Ho as (a & b & Ho).
    apply (f_equal (@length _)) in Ho. rewrite !length_app in Ho.
    simpl in Ho. lia.
  - destruct k as [|k].
    + cbn [replace_skip]. destruct (starts_with old (c :: t)) eqn:Hs.
      * pose proof (starts_with_length _ _ Hs) as Hl. simpl in Hl.
        pose proof (replace_skip_length old new ltac:(lia) ltac:(lia)
                      t (length old - 1)%nat).
        rewrite length_app. simpl length. lia.
      * destruct (occurs_cons _ _ _ Ho) as [Hs' | Ho']; [congruence|].
        specialize (IH 0%nat Ho'). simpl length. simpl Nat.min. lia.
    + cbn [replace_skip]. specialize (IH k Ho).
      simpl length. simpl Nat.min. lia.
Qed.

Lemma collapse_shorter s :
  contains three_newlines s = true ->
  (length (replace three_newlines two_newlines s) < length s)%nat.
Proof.
  intros Hc. apply contains_true in Hc.
  pose proof (replace_skip_shorter three_newlines two_newlines
                ltac:(simpl; lia) s 0%nat Hc) as Hl.
  unfold replace. simpl Nat.min in Hl. lia.
Qed.

(** With as many rounds as the text has characters, the loop runs until no
    three newlines in a row are left. *)
Lemma collapse_newlines_done fuel : forall s,
  (length s <= fuel)%nat ->
  contains three_newlines (collapse_newlines fuel s) = false.
Proof.
  induction fuel as [|fuel IH]; intros s Hl.
  - destruct s; [reflexivity | simpl in Hl; lia].
  - cbn [collapse_newlines].
    destruct (contains three_newlines s) eqn:Hc; [|exact Hc].
    apply IH. pose proof (collapse_shorter s Hc). lia.
Qed.

Lemma collapse_newlines_absent fuel s :
  ~ occurs three_newlines s -> collapse_newlines fuel s = s.
Proof.
  intros Hno. apply contains_false in Hno.
  destruct fuel; [reflexivity|]. cbn [collapse_newlines]. now rewrite Hno.
Qed.

(** X24 — what [_clean_markdown] returns is tidy: it holds no three
    newlines in a row, and it neither starts nor ends with whitespace. *)
Theorem clean_markdown_tidy (text : str) :
  ~ occurs three_newlines (_clean_markdown text) /\
  (_clean_markdown text = [] \/
   (head_solid (_clean_markdown text) = true /\
    last_solid (_clean_markdown text) = true)).
Proof.
  unfold _clean_markdown. cbv zeta. split; [|apply strip_ends].
  intros Ho. apply occurs_strip, contains_true in Ho.
  rewrite collapse_newlines_done in Ho by lia. discriminate.
Qed.

(** X25 — a text without markdown is only stripped: when none of the
    seven marks "### ", "## ", "# ", "**", "__", "- ", "* " occurs in the
    text, nor three newlines in a row, [_clean_markdown] returns the text
    without its surrounding whitespace. *)
Theorem clean_markdown_plain (text : str) :
  (forall mark, In mark markdown_marks -> ~ occurs mark text) ->
  ~ occurs three_newlines text ->
  _clean_markdown text = strip text.
Proof.
  intros Hm Hn. unfold _clean_markdown. cbv zeta.
  unfold markdown_marks in Hm.
  rewrite (replace_absent (lit "### ")) by (apply Hm; simpl; tauto).
  rewrite (replace_absent (lit "## ")) by (apply Hm; simpl; tauto).
  rewrite (replace_absent (lit "# ")) by (apply Hm; simpl; tauto).
  rewrite (replace_absent (lit "**")) by (apply Hm; simpl; tauto).
  rewrite (replace_absent (lit "__")) by (apply Hm; simpl; tauto).
  rewrite (replace_absent (lit "- ")) by (apply Hm; simpl; tauto).
  rewrite (replace_absent (lit "* ")) by (apply Hm; simpl; tauto).
  now rewrite (collapse_newlines_absent _ _ Hn).
Qed.

Lemma clean_markdown_plain_witness :
  _clean_markdown (nl ++ lit " Sunny, 21 degrees. " ++ nl)
  = lit "Sunny, 21 degrees.".
Proof.
  rewrite clean_markdown_plain.
  - vm_compute. reflexivity.
  - intros mark Hin. apply contains_false.
    repeat (destruct Hin as [<- | Hin]; [vm_compute; reflexivity|]).
    destruct Hin.
  - apply contains_false. vm_compute. reflexivity.
Defined.


(** ** What can be shown *)

Lemma replace_skip_encodable old new :
  utf8_encodable new = true ->
  forall s k,
    utf8_encodable s = true ->
    utf8_encodable (replace_skip old new k s) = true.
Proof.
  intros Hn. induction s as [|c t IH]; intros k Hs; [reflexivity|].
  simpl in Hs. apply andb_true_iff in Hs as [Hc Ht].
  destruct k as [|k]; cbn [replace_skip]; [|apply IH, Ht].
  destruct (starts_with old (c :: t)).
  - rewrite utf8_encodable_app, Hn. apply IH, Ht.
  - simpl. rewrite Hc. apply IH, Ht.
Qed.

Lemma replace_encodable old new s :
  utf8_encodable new = true -> utf8_encodable s = true ->
  utf8_encodable (replace old new s) = true.
Proof. intros Hn Hs. apply replace_skip_encodable; assumption. Qed.

Lemma collapse_newlines_encodable fuel : forall s,
  utf8_encodable s = true ->
  utf8_encodable (collapse_newlines fuel s) = true.
Proof.
  induction fuel as [|fuel IH]; intros s Hs; [exact Hs|].
  cbn [collapse_newlines].
  destruct (contains three_newlines s); [|exact Hs].
  apply IH, replace_encodable; [reflexivity | exact Hs].
Qed.

Lemma strip_encodable s :
  utf8_encodable s = true -> utf8_encodable (strip s) = true.
Proof.
  destruct (strip_decompose s) as (p & q & Hs & _).
  intros Hu. rewrite Hs, !utf8_encodable_app in Hu.
  apply andb_true_iff in Hu as [_ Hu].
  now apply andb_true_iff in Hu as [Hu _].
Qed.

(** [_clean_markdown] brings in no character that cannot be printed. *)
Lemma clean_markdown_encodable text :
  utf8_encodable text = true ->
  utf8_encodable (_clean_markdown text) = true.
Proof.
  intros Hu. unfold _clean_markdown. cbv zeta.
  apply strip_encodable, collapse_newlines_encodable.
  repeat (apply replace_encodable; [reflexivity|]). exact Hu.
Qed.

Section Display.
Context `{PyLib}.

Lemma display_summary_cases v :
  display_summary v
  = if shown v then Ret tt else Raise (display_error v).
Proof.
  destruct v; reflexivity.
Qed.

(** The error message of [run] can always be shown. *)
Lemma error_display e :
  display_summary
    (VStr (lit "**Error**: Unable to fetch weather data. " ++ exn_str e))
  = Ret tt.
Proof.
  rewrite display_summary_cases. unfold shown.
  rewrite clean_markdown_encodable; [reflexivity|].
  rewrite utf8_encodable_app, exn_str_encodable. reflexivity.
Qed.
End Display.

(** ** [run], from the greeting to the report *)

Section Report.
Context `{PyLib}.

Lemma exec_get_weather_data w latitude longitude :
  exec w (get_weather_data latitude longitude) =
  (if sendable (weather_params latitude longitude)
   then [HttpCall weather_url (weather_params latitude longitude)] else [],
   match result w (get_json weather_url (weather_params latitude longitude)) with
   | inr data => inr data
   | inl e => inl (if is_RequestException e then Exception_ else e)
   end).
Proof.
  unfold get_weather_data. rewrite exec_try, calls_get_json.
  destruct (result w (get_json _ _)) as [e | data]; [|reflexivity].
  destruct (is_RequestException e); [|reflexivity].
  unfold calls at 1, result at 1. simpl. now rewrite app_nil_r.
Qed.

Lemma exec_summarize_weather_data w weather_data user_requirements :
  exists r,
    exec w (summarize_weather_data weather_data user_requirements)
    = (summary_calls weather_data user_requirements, r).
Proof.
  unfold summarize_weather_data, summary_calls.
  destruct (py_format user_requirements) as [e | requirements];
    [eexists; reflexivity|].
  destruct (json_dumps weather_data) as [e | dumped];
    eexists; reflexivity.
Qed.

Lemma silent_display_summary v : silent (display_summary v).
Proof. destruct v; try exact I. apply silent_py_print. Qed.

Lemma exec_weather_report w d user_input :
  exec w (weather_report d user_input) = (report_calls w d user_input, inr tt).
Proof.
  unfold weather_report.
  rewrite (exec_try_as_ret w _ _ tt error_display).
  f_equal; [|now destruct (result w _) as [e | []]].
  unfold report_calls. cbn [getitem_str].
  destruct (d !! lit "latitude") as [latitude|]; [|reflexivity].
  cbn [bind].
  destruct (d !! lit "longitude") as [longitude|]; [|reflexivity].
  cbn [bind].
  rewrite calls_bind. unfold calls at 1. rewrite exec_get_weather_data.
  cbn [fst]. f_equal.
  destruct (result w (get_weather_data latitude longitude))
    as [e | weather_data]; [reflexivity|].
  rewrite calls_bind.
  destruct (exec_summarize_weather_data w weather_data
              (dict_get d (lit "specific_requirements") (VStr user_input)))
    as [r Hr].
  unfold calls at 1, result. rewrite Hr. cbn [fst snd].
  destruct r as [e | summary]; [now rewrite app_nil_r|].
  rewrite silent_calls; [now rewrite app_nil_r|].
  apply silent_bind; [apply silent_py_print | intros _].
  apply silent_display_summary.
Qed.

Lemma banner_print : py_print (lit "=== Weather Summarizer ===" ++ nl) = Ret tt.
Proof. reflexivity. Qed.

(** [run] ends at the greeting when it cannot be shown. *)
Lemma exec_run_unshown (w : world) :
  shown (greeting w) = false ->
  exec w run = ([ChatCall greet_messages], inl (display_error (greeting w))).
Proof.
  intros Hs. unfold run. rewrite banner_print. cbn [bind].
  unfold greet_user. cbn [bind exec]. fold (greeting w).
  rewrite display_summary_cases, Hs. reflexivity.
Qed.

Lemma exec_run_shown (w : world) :
  shown (greeting w) = true ->
  exec w run =
  (ChatCall greet_messages :: InputCall (nl ++ lit "Your input: ")
   :: calls w (parse_user_request (typed w))
   ++ match result w (parse_user_request (typed w)) with
      | inr parsed =>
          calls w (resolve_step parsed)
          ++ match result w (resolve_step parsed) with
             | inr d => report_calls w d (typed w)
             | inl _ => []
             end
      | inl _ => []
      end,
   match result w (parse_user_request (typed w)) with
   | inr parsed =>
       match result w (resolve_step parsed) with
       | inr _ => inr tt
       | inl e => inl e
       end
   | inl e => inl e
   end).
Proof.
  intros Hs. unfold run. rewrite banner_print. cbn [bind].
  unfold greet_user. cbn [bind exec]. fold (greeting w).
  rewrite display_summary_cases, Hs. cbn [bind exec]. fold (typed w).
  rewrite exec_bind.
  destruct (result w (parse_user_request (typed w))) as [e | parsed];
    [now rewrite app_nil_r|].
  rewrite calls_bind, result_bind.
  destruct (result w (resolve_step parsed)) as [e | d]; [reflexivity|].
  unfold calls at 3, result. now rewrite exec_weather_report.
Qed.

Lemma filter_http_parse w user_input :
  List.filter is_http (calls w (parse_user_request user_input)) = [].
Proof.
  unfold calls.
  destruct (is_coordinate_pair_returns user_input) as [[[lat lon]|] E].
  - now rewrite (parse_user_request_direct w _ _ _ E).
  - now rewrite (parse_user_request_llm w _ E).
Qed.

Lemma filter_http_summary weather_data user_requirements :
  List.filter is_http (summary_calls weather_data user_requirements) = [].
Proof.
  unfold summary_calls.
  destruct (py_format user_requirements); [reflexivity|].
  destruct (json_dumps weather_data); reflexivity.
Qed.

(** The GET requests of the [try] statement: the weather request, if the
    request has its coordinates and they can be written. *)
Lemma filter_http_report w d user_input :
  List.filter is_http (report_calls w d user_input) =
  match d !! lit "latitude", d !! lit "longitude" with
  | Some latitude, Some longitude =>
      if sendable (weather_params latitude longitude)
      then [HttpCall weather_url (weather_params latitude longitude)] else []
  | _, _ => []
  end.
Proof.
  unfold report_calls.
  destruct (d !! lit "latitude") as [latitude|]; [|reflexivity].
  destruct (d !! lit "longitude") as [longitude|]; [|reflexivity].
  rewrite List.filter_app.
  assert (Ht : List.filter is_http
                 match result w (get_weather_data latitude longitude) with
                 | inr weather_data =>
                     summary_calls weather_data
                       (dict_get d (lit "specific_requirements")
                                 (VStr user_input))
                 | inl _ => []
                 end = []).
  { destruct (result w _); [reflexivity | apply filter_http_summary]. }
  rewrite Ht, app_nil_r.
  destruct (sendable _); reflexivity.
Qed.




End Report.




(** X16 — a reply that decodes to something else than an object: when the
    input is no coordinate pair and what [_extract_json] makes of the
    model's reply decodes to a number, a text, a list, a truth value or
    null, [parse_user_request] returns that value as it is, and [run]
    sends no request to the network: it raises [AttributeError], at the
    first [get] or already at the display of a greeting that is no text,
    unless the greeting is a text that cannot be printed, which gives
    [UnicodeEncodeError]. *)
Theorem run_non_object_reply `{PyLib} (w : world) (reply : str) (v : pyval) :
  _is_coordinate_pair (typed w) = Ret None ->
  reply_to w (typed w) = VStr reply ->
  json_loads (_extract_json reply) = inr v ->
  (forall d, v <> VDict d) ->
  result w (parse_user_request (typed w)) = inr v /\
  (result w run = inl AttributeError \/
   (result w run = inl UnicodeEncodeError /\
    exists text, greeting w = VStr text /\
                 utf8_encodable (_clean_markdown text) = false)) /\
  List.filter is_http (calls w run) = [].
Proof.
  intros E Hr Hj Hv.
  assert (Hp : result w (parse_user_request (typed w)) = inr v).
  { unfold result. now rewrite (parse_user_request_llm w _ E), Hr, Hj. }
  assert (Hu : unresolvable v).
  { destruct v; try exact I. destruct (Hv _ eq_refl). }
  pose proof (resolve_step_unresolvable w v Hu) as Hs.
  split; [exact Hp|]. unfold result at 1 2, calls.
  destruct (shown (greeting w)) eqn:Hg.
  - rewrite (exec_run_shown w Hg), Hp. cbn [fst snd].
    unfold result, calls at 2. rewrite Hs. cbn [fst snd]. split; [auto|].
    cbn [List.filter is_http]. rewrite app_nil_r. apply filter_http_parse.
  - rewrite (exec_run_unshown w Hg). cbn [fst snd]. split; [|reflexivity].
    destruct (greeting w) as [| | | |text| |]; auto.
    right. split; [reflexivity|]. exists text. auto.
Qed.

Lemma run_non_object_reply_witness :
  let w := offline (fun _ => lit "42") (lit "weather in Paris") in
  result w (@parse_user_request (ascii_lib number_decoder) (typed w))
  = inr (VInt 42) /\
  result w (@run (ascii_lib number_decoder)) = inl AttributeError /\
  List.filter is_http (calls w (@run (ascii_lib number_decoder))) = [].
Proof.
  intros w.
  destruct (@run_non_object_reply (ascii_lib number_decoder) w (lit "42")
              (VInt 42) eq_refl eq_refl eq_refl ltac:(discriminate))
    as (Hp & _ & Hc).
  split; [exact Hp|]. split; [reflexivity | exact Hc].
Defined.

(** X17 — what [run] raises: nothing once the greeting is shown and the
    request is interpreted and resolved, whatever becomes of the weather
    request, of the summary and of its display; otherwise the exception
    of the display of the greeting, or what [parse_user_request] or the
    resolution step raised. *)
Theorem run_failures `{PyLib} (w : world) :
  (forall parsed d,
      shown (greeting w) = true ->
      result w (parse_user_request (typed w)) = inr parsed ->
      result w (resolve_step parsed) = inr d ->
      result w run = inr tt) /\
  (forall e,
      result w run = inl e ->
      (shown (greeting w) = false /\ e = display_error (greeting w)) \/
      (shown (greeting w) = true /\
       result w (parse_user_request (typed w)) = inl e) \/
      (shown (greeting w) = true /\
       exists parsed,
         result w (parse_user_request (typed w)) = inr parsed /\
         result w (resolve_step parsed) = inl e)).
Proof.
  split.
  - intros parsed d Hg Hp Hr. unfold result at 1.
    now rewrite (exec_run_shown w Hg), Hp, Hr.
  - intros e. unfold result at 1.
    destruct (shown (greeting w)) eqn:Hg.
    + rewrite (exec_run_shown w Hg). cbn [snd].
      destruct (result w (parse_user_request (typed w)))
        as [e' | parsed] eqn:Hp.
      * intros [= ->]. right. left. auto.
      * destruct (result w (resolve_step parsed)) as [e' | d] eqn:Hr;
          [|discriminate].
        intros [= ->]. right. right. eauto.
    + rewrite (exec_run_unshown w Hg). cbn [snd]. intros [= <-]. left. auto.
Qed.

Lemma run_failures_witness :
  result (serving (Response 503 html_body)) (@run (ascii_lib no_json)) = inr tt.
Proof.
  apply (proj1 (@run_failures (ascii_lib no_json)
                  (serving (Response 503 html_body)))
           (VDict (fallback_request [] (VStr [])))
           (<[lit "longitude" := VFloat (snd london)]>
            (<[lit "latitude" := VFloat (fst london)]>
             (fallback_request [] (VStr [])))));
    vm_compute; reflexivity.
Defined.

(** X18 — the requests [run] sends to the network: at most one lookup at
    the geocoding service, then at most one weather request, and nothing
    else. *)
Theorem run_http_requests `{PyLib} (w : world) :
  exists lookups fetches,
    List.filter is_http (calls w run) = lookups ++ fetches /\
    (lookups = [] \/
     exists location,
       lookups = [HttpCall nominatim_url (nominatim_params location)]) /\
    (fetches = [] \/
     exists latitude longitude,
       fetches = [HttpCall weather_url (weather_params latitude longitude)]).
Proof.
  unfold calls. destruct (shown (greeting w)) eqn:Hg.
  2:{ rewrite (exec_run_unshown w Hg). exists [], []. auto. }
  rewrite (exec_run_shown w Hg). cbn [fst List.filter is_http].
  rewrite List.filter_app, filter_http_parse. cbn [app].
  destruct (result w (parse_user_request (typed w))) as [e | parsed].
  { exists [], []. auto. }
  rewrite List.filter_app.
  exists (List.filter is_http (calls w (resolve_step parsed))).
  eexists. split; [reflexivity|]. split.
  - destruct (resolve_step_one_lookup w parsed) as [-> | [location ->]];
      [left; reflexivity | right; exists location; reflexivity].
  - destruct (result w (resolve_step parsed)) as [e | d]; [left; reflexivity|].
    rewrite filter_http_report.
    destruct (d !! lit "latitude") as [latitude|]; [|left; reflexivity].
    destruct (d !! lit "longitude") as [longitude|]; [|left; reflexivity].
    destruct (sendable _); [|left; reflexivity].
    right. exists latitude, longitude. reflexivity.
Qed.

(** X19 — the weather request: one GET with the coordinates and the
    default field lists, when the coordinates can be written into the
    URL; a failed connection, an error status (400 to 599) and a body
    that is not JSON all surface as a plain [Exception], never as an
    exception of [requests]; otherwise the decoded body is returned.  A
    coordinate that is a text with a surrogate code point cannot be
    written: nothing is sent and [UnicodeEncodeError] is raised. *)
Theorem get_weather_data_outcomes `{PyLib} (w : world)
        (latitude longitude : pyval) :
  (forall e, result w (get_weather_data latitude longitude) = inl e ->
             is_RequestException e = false) /\
  if param_sendable latitude && param_sendable longitude then
    calls w (get_weather_data latitude longitude)
    = [HttpCall weather_url (weather_params latitude longitude)] /\
    match http_get w weather_url (weather_params latitude longitude) with
    | NoResponse =>
        result w (get_weather_data latitude longitude) = inl Exception_
    | Response status body =>
        if error_status status
        then result w (get_weather_data latitude longitude) = inl Exception_
        else match json_loads body with
             | inr data =>
                 result w (get_weather_data latitude longitude) = inr data
             | inl e =>
                 is_JSONDecodeError e = true ->
                 result w (get_weather_data latitude longitude)
                 = inl Exception_
             end
    end
  else
    exec w (get_weather_data latitude longitude)
    = ([], inl UnicodeEncodeError).
Proof.
  unfold result, calls. rewrite exec_get_weather_data, result_get_json.
  rewrite sendable_weather. cbn [fst snd]. split.
  - intros e.
    destruct (param_sendable latitude && param_sendable longitude);
      [|now intros [= <-]].
    destruct (http_get w _ _) as [|status body]; [now intros [= <-]|].
    destruct (error_status status); [now intros [= <-]|].
    destruct (json_loads body) as [e' | data]; [|discriminate].
    destruct (is_JSONDecodeError e') eqn:He'; [now intros [= <-]|].
    destruct (is_RequestException e') eqn:Hr; [now intros [= <-]|].
    now intros [= <-].
  - destruct (param_sendable latitude && param_sendable longitude);
      [|reflexivity].
    split; [reflexivity|].
    destruct (http_get w _ _) as [|status body]; [reflexivity|].
    destruct (error_status status); [reflexivity|].
    destruct (json_loads body) as [e | data]; [|reflexivity].
    now intros ->.
Qed.

Section RunPaths.
Context `{PyLib}.

Lemma unknown_unrecognized : _is_coordinate_pair (lit "unknown") = Ret None.
Proof.
  apply (is_coordinate_pair_other_head _ 117%N (lit "nknown"));
    try reflexivity. discriminate.
Qed.

Lemma get_coordinates_unknown w :
  calls w (GeocodingService.get_coordinates (lit "unknown"))
  = [HttpCall nominatim_url (nominatim_params (lit "unknown"))] /\
  exists lat lon,
    result w (GeocodingService.get_coordinates (lit "unknown"))
    = inr (lat, lon) /\
    (result w (_geocode_nominatim (lit "unknown")) = inr None ->
     (lat, lon) = london).
Proof.
  unfold calls, result at 1.
  rewrite (get_coordinates_unrecognized w _ unknown_unrecognized).
  cbn [fst snd]. split; [now rewrite calls_geocode_nominatim|].
  rewrite (lower_ascii (lit "unknown") eq_refl).
  change (first_city major_cities (ascii_lower (lit "unknown"))) with
    (@None (float * float)).
  change (utf8_encodable (lit "unknown")) with true.
  destruct (geocode_nominatim_returns w (lit "unknown")) as [[[lat lon]|] ->].
  - exists lat, lon. split; [reflexivity | discriminate].
  - exists (fst london), (snd london). split; reflexivity.
Qed.
End RunPaths.

(** X26 — [run] after an undecodable reply: the fallback request names the
    location "unknown", so it is this word, not the user's input, that is
    looked up; the weather request then goes out with the coordinates
    found, which are London's when the lookup yields none.  This is so
    when the greeting could be shown; when it could not, [run] has ended
    before and sends nothing. *)
Theorem run_after_parse_fallback `{PyLib} (w : world) (reply : str) (e : exn) :
  _is_coordinate_pair (typed w) = Ret None ->
  reply_to w (typed w) = VStr reply ->
  json_loads (_extract_json reply) = inl e ->
  is_JSONDecodeError e = true ->
  exists lat lon,
    List.filter is_http (calls w run)
    = (if shown (greeting w)
       then [HttpCall nominatim_url (nominatim_params (lit "unknown"));
             HttpCall weather_url (weather_params (VFloat lat) (VFloat lon))]
       else []) /\
    (result w (_geocode_nominatim (lit "unknown")) = inr None ->
     (lat, lon) = london).
Proof.
  intros E Hv Hj He.
  pose (d := fallback_request (typed w) (VStr reply)).
  assert (Hp : result w (parse_user_request (typed w)) = inr (VDict d)).
  { unfold result. now rewrite (parse_user_request_llm w _ E), Hv, Hj, He. }
  pose proof (resolve_step_filled w d (lit "unknown") eq_refl eq_refl) as Hs.
  destruct (get_coordinates_unknown w) as (Hc & lat & lon & Hg & Hl).
  rewrite Hc, Hg in Hs.
  exists lat, lon. split; [|exact Hl].
  unfold calls. destruct (shown (greeting w)) eqn:Hgr.
  2:{ now rewrite (exec_run_unshown w Hgr). }
  rewrite (exec_run_shown w Hgr), Hp. cbn [fst List.filter is_http].
  rewrite List.filter_app, filter_http_parse.
  unfold calls at 1, result. rewrite Hs. cbn [fst snd app List.filter is_http].
  rewrite filter_http_report.
  rewrite lookup_insert_ne by discriminate.
  rewrite !lookup_insert_eq. reflexivity.
Qed.

Lemma run_after_parse_fallback_witness :
  let w := offline (fun _ => lit "no idea") (lit "weather in Tokyo") in
  List.filter is_http (calls w (@run (ascii_lib no_json)))
  = [HttpCall nominatim_url (nominatim_params (lit "unknown"));
     HttpCall weather_url
       (weather_params (VFloat (fst london)) (VFloat (snd london)))].
Proof.
  intros w.
  destruct (@run_after_parse_fallback (ascii_lib no_json) w (lit "no idea")
              JSONDecodeError eq_refl eq_refl eq_refl eq_refl)
    as (lat & lon & Hc & Hl).
  rewrite Hc. specialize (Hl eq_refl). now injection Hl as -> ->.
Defined.

(** X27 — [run] on typed coordinates: when the greeting is shown, the
    matcher recognizes the input and neither number is zero, the model is
    not asked to interpret the input and nothing is looked up: after the
    greeting and the prompt comes the weather request, with the two
    numbers as floats, then, if the weather data came back, the request
    for the summary, and [run] ends without an exception. *)
Theorem run_direct_coordinates `{PyLib} (w : world) (lat lon : float) :
  shown (greeting w) = true ->
  _is_coordinate_pair (typed w) = Ret (Some (lat, lon)) ->
  truthy (VFloat lat) = true -> truthy (VFloat lon) = true ->
  calls w run
  = [ChatCall greet_messages; InputCall (nl ++ lit "Your input: ");
     HttpCall weather_url (weather_params (VFloat lat) (VFloat lon))]
    ++ match result w (get_weather_data (VFloat lat) (VFloat lon)) with
       | inr weather_data =>
           summary_calls weather_data
             (VStr (lit "weather information for coordinates"))
       | inl _ => []
       end /\
  result w run = inr tt.
Proof.
  intros Hg E Hlat Hlon.
  pose proof (parse_user_request_direct w _ _ _ E) as Hp.
  assert (Hc : has_coordinates (direct_request lat lon) = true).
  { unfold has_coordinates.
    change (dict_get (direct_request lat lon) (lit "latitude") VNone)
      with (VFloat lat).
    change (dict_get (direct_request lat lon) (lit "longitude") VNone)
      with (VFloat lon).
    now rewrite Hlat, Hlon. }
  pose proof (resolve_step_kept _ Hc) as Hs.
  assert (Hpc : calls w (parse_user_request (typed w)) = [])
    by (unfold calls; now rewrite Hp).
  assert (Hpr : result w (parse_user_request (typed w))
                = inr (VDict (direct_request lat lon)))
    by (unfold result; now rewrite Hp).
  assert (Hr : report_calls w (direct_request lat lon) (typed w)
               = [HttpCall weather_url (weather_params (VFloat lat) (VFloat lon))]
                 ++ match result w (get_weather_data (VFloat lat) (VFloat lon)) with
                    | inr weather_data =>
                        summary_calls weather_data
                          (VStr (lit "weather information for coordinates"))
                    | inl _ => []
                    end) by reflexivity.
  unfold calls at 1, result at 2. rewrite (exec_run_shown w Hg).
  rewrite Hpc, Hpr, Hs. unfold calls at 1, result at 1 2.
  cbn [exec fst snd app]. rewrite Hr. split; reflexivity.
Qed.

Lemma run_direct_coordinates_witness :
  let w := offline (fun _ => []) (lit "48.85, 2.35") in
  result w (@run (ascii_lib no_json)) = inr tt /\
  List.filter is_http (calls w (@run (ascii_lib no_json)))
  = [HttpCall weather_url
       (weather_params (VFloat (decimal_literal 4885 2))
                       (VFloat (decimal_literal 235 2)))].
Proof.
  intros w.
  destruct (@run_direct_coordinates (ascii_lib no_json) w
              (decimal_literal 4885 2) (decimal_literal 235 2)
              eq_refl eq_refl eq_refl eq_refl) as [Hc Hr].
  split; [exact Hr|]. rewrite Hc. reflexivity.
Defined.
